(** * ExpertMesh: the multi-agent matching pipeline and its caches

    A shallow embedding of [lib/agents.ts], [lib/fireworks.ts],
    [lib/voyage.ts] and the records of [lib/mongodb.ts], followed by the
    properties of the pipeline that the specification states.

    Conventions of the embedding.
    - A JavaScript [number] is an exact rational ([Q]): the rounding of
      double-precision arithmetic, its infinities and its NaN are not
      modelled.  What is stated of a computed score is a bound, an ordering
      or a value that the rounding keeps for skill weights in (0,1]; the
      ranking is proved for every way of computing the score.  A [Date] is
      its number of milliseconds since the epoch ([Z]).
    - A JavaScript string is a [string]: the bytes of the UTF-8 encoding of
      its text.  Equality and concatenation are those of the bytes.  Case
      mapping, trimming, splitting at white space, counting and cutting at a
      position are computed on a text of the ASCII range, where one byte is
      one code unit; on any other text they are what the runtime makes of
      it, a field of [JS.Unicode] about which nothing is assumed.
    - Every [async] function is a computation in the monad [M]: it receives
      the world (the collections of the store and the state of everything
      outside the process), and gives back a completion (a value or a thrown
      exception) together with the world it leaves behind.  A thrown
      exception keeps the effects made before it.
    - What lives outside the process (clock, random source, HTTP providers,
      hash function, regular-expression engine, JSON parser, vector index,
      availability of the store) is a field of the record [Oracles]; nothing
      is assumed about these fields except where a theorem says so.
    - [console.log] and [console.error] have no effect on the world and are
      left out. *)

From Stdlib Require Import String Ascii List ZArith QArith Qround Qminmax Lia Bool.
From Stdlib Require Import DecimalString Sorted Permutation Lqa.
Import ListNotations.

Local Open Scope string_scope.

(** ** Strings of the ASCII range *)

Module ASCII.

Definition isAsciiChar (c : ascii) : bool :=
  let 'Ascii _ _ _ _ _ _ _ b7 := c in negb b7.

(** The text has no code point above U+007F. *)
Fixpoint isAscii (s : string) : bool :=
  match s with
  | EmptyString => true
  | String c r => isAsciiChar c && isAscii r
  end.

(** [WhiteSpace] and [LineTerminator] code points of the ASCII range: what
    [String.prototype.trim] strips and what [\s] matches there. *)
Definition isWhiteSpace (c : ascii) : bool :=
  let n := nat_of_ascii c in
  ((9 <=? n)%nat && (n <=? 13)%nat) || (n =? 32)%nat.

Definition toLowerCaseChar (c : ascii) : ascii :=
  let n := nat_of_ascii c in
  if ((65 <=? n)%nat && (n <=? 90)%nat) then ascii_of_nat (n + 32) else c.

Definition toUpperCaseChar (c : ascii) : ascii :=
  let n := nat_of_ascii c in
  if ((97 <=? n)%nat && (n <=? 122)%nat) then ascii_of_nat (n - 32) else c.

Fixpoint toLowerCase (s : string) : string :=
  match s with
  | EmptyString => EmptyString
  | String c r => String (toLowerCaseChar c) (toLowerCase r)
  end.

Fixpoint toUpperCase (s : string) : string :=
  match s with
  | EmptyString => EmptyString
  | String c r => String (toUpperCaseChar c) (toUpperCase r)
  end.

Definition reverse (s : string) : string :=
  string_of_list_ascii (rev (list_ascii_of_string s)).

Fixpoint trimStart (s : string) : string :=
  match s with
  | EmptyString => EmptyString
  | String c r => if isWhiteSpace c then trimStart r else s
  end.

Definition trimEnd (s : string) : string := reverse (trimStart (reverse s)).

Definition trim (s : string) : string := trimEnd (trimStart s).

(** [s.split(/\s+/)]: [cur] is the piece being read, [inRun] tells that the
    previous code unit was white space.  A leading or trailing run of white
    space leaves an empty piece at that end, as in JavaScript. *)
Fixpoint splitWhitespaceFrom (cur : string) (inRun : bool) (s : string)
  : list string :=
  match s with
  | EmptyString => [cur]
  | String c r =>
      if isWhiteSpace c
      then if inRun then splitWhitespaceFrom cur true r
           else cur :: splitWhitespaceFrom "" true r
      else splitWhitespaceFrom (cur ++ String c "") false r
  end.

Definition splitWhitespace (s : string) : list string :=
  splitWhitespaceFrom "" false s.

(** [s.charAt(0)] and [s.slice(1)]. *)
Definition charAt0 (s : string) : string :=
  match s with
  | EmptyString => ""
  | String c _ => String c ""
  end.

Definition slice1 (s : string) : string :=
  match s with
  | EmptyString => ""
  | String _ r => r
  end.

(** [s.slice(0, n)]. *)
Definition slice0 (n : nat) (s : string) : string := substring 0 n s.

End ASCII.

(** ** JavaScript strings and numbers *)

Module JS.

(** What the runtime makes of a text that is not of the ASCII range: the
    Unicode case mappings, the white space of [trim] and of [\s], and the
    count and the positions of UTF-16 code units. *)
Record Unicode := {
  u_toLowerCase : string -> string;
  u_toUpperCase : string -> string;
  u_trim : string -> string;
  u_splitWhitespace : string -> list string;
  u_length : string -> nat;
  u_charAt0 : string -> string;
  u_slice1 : string -> string;
  u_slice0 : nat -> string -> string
}.

(** [s.toLowerCase()] *)
Definition toLowerCase (U : Unicode) (s : string) : string :=
  if ASCII.isAscii s then ASCII.toLowerCase s else u_toLowerCase U s.

(** [s.toUpperCase()] *)
Definition toUpperCase (U : Unicode) (s : string) : string :=
  if ASCII.isAscii s then ASCII.toUpperCase s else u_toUpperCase U s.

(** [s.trim()] *)
Definition trim (U : Unicode) (s : string) : string :=
  if ASCII.isAscii s then ASCII.trim s else u_trim U s.

(** [s.split(/\s+/)] *)
Definition splitWhitespace (U : Unicode) (s : string) : list string :=
  if ASCII.isAscii s then ASCII.splitWhitespace s else u_splitWhitespace U s.

(** [s.length] *)
Definition length (U : Unicode) (s : string) : nat :=
  if ASCII.isAscii s then String.length s else u_length U s.

(** [s.charAt(0)] and [s.slice(1)]. *)
Definition charAt0 (U : Unicode) (s : string) : string :=
  if ASCII.isAscii s then ASCII.charAt0 s else u_charAt0 U s.

Definition slice1 (U : Unicode) (s : string) : string :=
  if ASCII.isAscii s then ASCII.slice1 s else u_slice1 U s.

(** [s.slice(0, n)]. *)
Definition slice0 (U : Unicode) (n : nat) (s : string) : string :=
  if ASCII.isAscii s then ASCII.slice0 n s else u_slice0 U n s.

(** [s.split(sep)] for a separator of one code unit of the ASCII range: a
    byte that the encoding of another code point never holds. *)
Fixpoint splitCharFrom (sep : ascii) (cur : string) (s : string)
  : list string :=
  match s with
  | EmptyString => [cur]
  | String c r =>
      if Ascii.eqb c sep then cur :: splitCharFrom sep "" r
      else splitCharFrom sep (cur ++ String c "") r
  end.

Definition splitChar (sep : ascii) (s : string) : list string :=
  splitCharFrom sep "" s.

(** [arr.includes(x)] on strings. *)
Definition includes (l : list string) (x : string) : bool :=
  existsb (String.eqb x) l.

(** A string in a boolean context. *)
Definition truthy (s : string) : bool := negb (String.eqb s "").

Definition truthyOpt (o : option string) : bool :=
  match o with
  | Some s => truthy s
  | None => false
  end.

(** [`${n}`] for a length. *)
Definition natToString (n : nat) : string :=
  NilZero.string_of_uint (Nat.to_uint n).

(** [x.toFixed(0)]: the integer nearest to [x], the larger one on a tie,
    computed on the absolute value; the sign is written in front. *)
Definition toFixed0 (x : Q) : string :=
  let digits (y : Q) :=
    NilZero.string_of_uint (N.to_uint (Z.to_N (Qfloor (y + (1 # 2))))) in
  if Qle_bool 0 x then digits x else "-" ++ digits (- x)%Q.

Definition dquote : string := String (ascii_of_nat 34) "".
Definition newline : ascii := ascii_of_nat 10.

End JS.

(** ** The records of [lib/mongodb.ts] *)

Definition number := Q.
Definition Date := Z.

Inductive SkillLevel := Junior | Mid | Senior | ExpertLevel.

Record ExpertSkill := {
  es_name : string;
  es_level : SkillLevel;
  es_yearsExp : number
}.

Inductive AvailabilityStatus := Available | Busy | Unavailable.

Record Availability := {
  av_timezone : string;
  av_hoursPerWeek : number;
  av_status : AvailabilityStatus
}.

Inductive RenownLevel := Hidden | Rising | Established | Famous.

Record QualityMetrics := {
  activityScore : number;
  consistencyScore : number;
  expertiseDepth : number
}.

Record ProfileSource := {
  platform : string;
  profileUrl : string;
  lastSyncedAt : Date
}.

Record SoBadges := { gold : number; silver : number; bronze : number }.

Record SourceMetrics := {
  githubFollowers : option number;
  githubRepos : option number;
  githubStars : option number;
  soReputation : option number;
  soAnswers : option number;
  soBadges : option SoBadges
}.

(** What [VerifierAgent.execute] attaches to a candidate. *)
Record VerificationDetails := {
  profileComplete : bool;
  hasExternalLinks : bool;
  availabilityConfirmed : bool
}.

(** [Expert].  [availability] is read with [?.] throughout the agents, so it
    is optional here.  The last three fields are not in the interface: the
    pipeline adds them to the documents it passes on, under
    [as unknown as Expert[]].  [vectorSearchScore] is the field that the
    [$addFields] stage of the vector search adds (the document calls it
    [matchScore], a name kept here for the score of an [ExpertMatch]);
    [verified] and [verificationDetails] come from the spread in the
    verifier. *)
Record Expert := {
  _id : option string;
  name : string;
  email : string;
  title : string;
  department : string;
  bio : string;
  skills : list ExpertSkill;
  skillVector : option (list number);
  linkedIn : option string;
  github : option string;
  stackoverflow : option string;
  availability : option Availability;
  renownLevel : option RenownLevel;
  qualityMetrics : option QualityMetrics;
  sources : option (list ProfileSource);
  metrics : option SourceMetrics;
  matchCount : number;
  createdAt : Date;
  updatedAt : Date;
  vectorSearchScore : option number;
  verified : option bool;
  verificationDetails : option VerificationDetails
}.

Record Skill := { skill_name : string; weight : number }.

Record Constraint := { c_type : string; c_value : string }.

(** [Query['parsedRequirements']], with the [summary] that [parseQuery]
    returns next to it. *)
Record Requirements := {
  req_skills : list Skill;
  req_constraints : list Constraint;
  intent : string;
  summary : string
}.

Inductive AgentType := orchestrator | analyst | scout | verifier | recommender.

(** The optional [data] of a conversation entry: the only payload the agents
    ever log is the requirement set. *)
Record AgentMessage := {
  agent : AgentType;
  message : string;
  data : option Requirements;
  timestamp : Date
}.

Record ExpertMatch := {
  expert : Expert;
  matchScore : number;
  reasoning : list string;
  matchedBy : AgentType
}.

Inductive QueryStatus := Processing | Completed | Failed.

Record Query := {
  queryId : string;
  rawQuery : string;
  parsedRequirements : option Requirements;
  agentConversation : list AgentMessage;
  results : list string;
  status : QueryStatus;
  q_createdAt : Date;
  q_completedAt : option Date
}.

Inductive TaskStatus := Pending | InProgress | TaskCompleted | TaskFailed.

Record TaskStep := {
  step_agent : string;
  step_action : string;
  step_completedAt : option Date
}.

Record AgentTask := {
  taskId : string;
  t_queryId : string;
  agents : list string;
  t_status : TaskStatus;
  steps : list TaskStep;
  startedAt : Date;
  t_completedAt : option Date
}.

(** The value [processQuery] resolves to. *)
Record PipelineResult := {
  r_queryId : string;
  r_matches : list ExpertMatch;
  r_conversation : list AgentMessage
}.

Record EmbeddingCacheEntry := {
  textHash : string;
  text : string;
  embedding : list number;
  ec_createdAt : Date
}.

Record SearchCacheEntry := {
  queryHash : string;
  originalQuery : string;
  result : PipelineResult;
  sc_createdAt : Date;
  expiresAt : Date
}.

(** The collections of [COLLECTIONS] that the pipeline touches, each in the
    store's natural order. *)
Record Db := {
  experts : list Expert;
  queries : list Query;
  agent_tasks : list AgentTask;
  cache_embeddings : list EmbeddingCacheEntry;
  cache_search_results : list SearchCacheEntry
}.

Definition with_queries (d : Db) (qs : list Query) : Db :=
  {| experts := experts d; queries := qs; agent_tasks := agent_tasks d;
     cache_embeddings := cache_embeddings d;
     cache_search_results := cache_search_results d |}.

Definition with_agent_tasks (d : Db) (ts : list AgentTask) : Db :=
  {| experts := experts d; queries := queries d; agent_tasks := ts;
     cache_embeddings := cache_embeddings d;
     cache_search_results := cache_search_results d |}.

Definition with_cache_embeddings (d : Db) (es : list EmbeddingCacheEntry) : Db :=
  {| experts := experts d; queries := queries d; agent_tasks := agent_tasks d;
     cache_embeddings := es;
     cache_search_results := cache_search_results d |}.

Definition with_cache_search_results (d : Db) (cs : list SearchCacheEntry) : Db :=
  {| experts := experts d; queries := queries d; agent_tasks := agent_tasks d;
     cache_embeddings := cache_embeddings d;
     cache_search_results := cs |}.

(** ** Store primitives on one collection *)

(** [updateOne(filter, update)]: the first document that matches is updated. *)
Fixpoint updateFirst {A : Type} (p : A -> bool) (f : A -> A) (l : list A)
  : list A :=
  match l with
  | [] => []
  | x :: r => if p x then f x :: r else x :: updateFirst p f r
  end.

(** [updateOne(filter, { $set }, { upsert: true })] where [$set] gives every
    field: the first match is replaced, and without a match the document is
    inserted. *)
Definition upsertFirst {A : Type} (p : A -> bool) (doc : A) (l : list A)
  : list A :=
  if existsb p l then updateFirst p (fun _ => doc) l else l ++ [doc]%list.

(** [x < y] on numbers, as a test. *)
Definition Qlt_bool (x y : Q) : bool := negb (Qle_bool y x).

(** [Array.prototype.sort(compareFn)].  The sort is stable and puts [x]
    after [y] only when [compareFn(x, y) > 0]; for a comparison that orders
    the elements this fixes the result, which is computed here by insertion
    from the right. *)
Fixpoint sortInsert {A : Type} (compareFn : A -> A -> number) (x : A)
  (l : list A) : list A :=
  match l with
  | [] => [x]
  | y :: r =>
      if Qlt_bool 0 (compareFn x y) then y :: sortInsert compareFn x r
      else x :: l
  end.

Fixpoint sort {A : Type} (compareFn : A -> A -> number) (l : list A)
  : list A :=
  match l with
  | [] => []
  | x :: r => sortInsert compareFn x (sort compareFn r)
  end.

(** ** Exceptions and completions *)

Inductive Exn :=
| Error (msg : string)
| SyntaxError (msg : string)
| TypeError (msg : string).

Inductive Completion (A : Type) :=
| Return (a : A)
| Throw (e : Exn).

Arguments Return {A} a.
Arguments Throw {A} e.

(** ** The outside of the process *)

(** An HTTP response as [fetch] resolves it.  [body_text] is what
    [response.text()] resolves to and [body_json] what [response.json()]
    resolves to, read at the type the caller declares for it. *)
Record HttpResponse (A : Type) := {
  ok : bool;
  statusText : string;
  body_text : Completion string;
  body_json : Completion A
}.

Arguments ok {A} _.
Arguments statusText {A} _.
Arguments body_text {A} _.
Arguments body_json {A} _.

Inductive Role := system | user | assistant.

Record ChatMessage := { role : Role; content : string }.

(** [FireworksResponse]: [choices[i].message.content]; [message] is read
    with [?.]. *)
Record Choice := {
  choice_message : option ChatMessage;
  finish_reason : string
}.

Record FireworksResponse := {
  fw_id : string;
  choices : list Choice
}.

(** The body that [chat] posts, with the bearer token of its header. *)
Record FireworksRequest := {
  fw_bearer : string;
  fw_model : string;
  fw_messages : list ChatMessage;
  fw_temperature : number;
  fw_max_tokens : number;
  fw_json_object : bool
}.

Record VoyageRequest := {
  vy_bearer : string;
  vy_input : string;
  vy_model : string
}.

(** The Voyage response: [data[i].embedding]. *)
Record VoyageResponse := { vy_data : list (list number) }.

(** What [parseQuery] reads of [JSON.parse(response)]: [p_skills] and
    [p_constraints] are present exactly when [Array.isArray] holds of the
    field (their elements read at the declared element type), [p_intent] and
    [p_summary] exactly when the field is truthy. *)
Record ParsedJson := {
  p_skills : option (list Skill);
  p_constraints : option (list Constraint);
  p_intent : option string;
  p_summary : option string
}.

Record RegExpObject := { source : string; flags : string }.

(** The [$vectorSearch] stage of the aggregation. *)
Record VectorSearchStage := {
  vs_index : string;
  vs_path : string;
  vs_queryVector : list number;
  vs_numCandidates : nat;
  vs_limit : nat
}.

(** Everything the code calls and does not define.  [E] is the state of the
    outside; an oracle that depends on it may answer differently each time.
    - [store_fault] is consulted by every awaited call on the store: [Some e]
      makes that call reject with [e] and leaves the collections as they
      were.
    - [vectorSearch] answers the [$vectorSearch] stage over the experts
      collection with the documents found and their similarity scores, or
      rejects (no such index, store down, ...).
    - [RegExp_valid] tells whether [new RegExp(pattern, 'i')] accepts the
      pattern; [regex_test] is the store's evaluation of a regular
      expression against a string field.
    - [unicode] is what the runtime makes of the texts that are not of the
      ASCII range. *)
Record Oracles (E : Type) := {
  unicode : JS.Unicode;
  FIREWORKS_API_KEY : option string;
  VOYAGE_API_KEY : option string;
  Date_now : E -> Date * E;
  Math_random : E -> number * E;
  uuidv4 : E -> string * E;
  sha256_hex : string -> string;
  JSON_parse : string -> Completion ParsedJson;
  RegExp_valid : string -> bool;
  regex_test : RegExpObject -> string -> bool;
  fireworks_fetch :
    FireworksRequest -> E -> Completion (HttpResponse FireworksResponse) * E;
  voyage_fetch :
    VoyageRequest -> E -> Completion (HttpResponse VoyageResponse) * E;
  store_fault : E -> option Exn * E;
  vectorSearch :
    list Expert -> VectorSearchStage -> E ->
    Completion (list (Expert * number)) * E
}.

Arguments unicode {E} _.
Arguments FIREWORKS_API_KEY {E} _.
Arguments VOYAGE_API_KEY {E} _.
Arguments Date_now {E} _ _.
Arguments Math_random {E} _ _.
Arguments uuidv4 {E} _ _.
Arguments sha256_hex {E} _ _.
Arguments JSON_parse {E} _ _.
Arguments RegExp_valid {E} _ _.
Arguments regex_test {E} _ _ _.
Arguments fireworks_fetch {E} _ _ _.
Arguments voyage_fetch {E} _ _ _.
Arguments store_fault {E} _ _.
Arguments vectorSearch {E} _ _ _ _.

Record World (E : Type) := { db : Db; ext : E }.

Arguments db {E} _.
Arguments ext {E} _.

(** ** The monad of asynchronous computations *)

Definition M (E A : Type) : Type := World E -> Completion A * World E.

Definition ret {E A : Type} (a : A) : M E A := fun w => (Return a, w).

Definition throw {E A : Type} (e : Exn) : M E A := fun w => (Throw e, w).

Definition bind {E A B : Type} (m : M E A) (k : A -> M E B) : M E B :=
  fun w =>
    match m w with
    | (Return a, w') => k a w'
    | (Throw e, w') => (Throw e, w')
    end.

(** [try { m } catch (error) { h error }]. *)
Definition try_catch {E A : Type} (m : M E A) (h : Exn -> M E A) : M E A :=
  fun w =>
    match m w with
    | (Return a, w') => (Return a, w')
    | (Throw e, w') => h e w'
    end.

(** A completion computed without the world. *)
Definition lift {E A : Type} (c : Completion A) : M E A := fun w => (c, w).

(** A call that only concerns the outside of the process. *)
Definition liftExt {E A : Type} (f : E -> A * E) : M E A :=
  fun w => let (a, e') := f (ext w) in (Return a, {| db := db w; ext := e' |}).

(** A call to the outside that may reject. *)
Definition callExt {E A : Type} (f : E -> Completion A * E) : M E A :=
  fun w => let (c, e') := f (ext w) in (c, {| db := db w; ext := e' |}).

Declare Scope monad_scope.
Delimit Scope monad_scope with monad.
Notation "x <- m ;; k" := (bind m (fun x => k))
  (at level 61, m at next level, right associativity) : monad_scope.
Notation "m ;; k" := (bind m (fun _ => k))
  (at level 61, right associativity) : monad_scope.
Local Open Scope monad_scope.

Section Program.

Context {E : Type}.
Variable O : Oracles E.

#[local] Abbreviation M := (M E).
#[local] Abbreviation U := (unicode O).

(** *** The store *)

(** One awaited call on the store: it rejects when the store is at fault. *)
Definition storeCall : M unit :=
  fun w =>
    match store_fault O (ext w) with
    | (Some e, e') => (Throw e, {| db := db w; ext := e' |})
    | (None, e') => (Return tt, {| db := db w; ext := e' |})
    end.

(** [getDb()]. *)
Definition getDb : M unit := storeCall.

(** A read ([findOne], [find(...).toArray()]). *)
Definition readDb {A : Type} (f : Db -> A) : M A :=
  storeCall ;; fun w => (Return (f (db w)), w).

(** A write ([insertOne], [updateOne]). *)
Definition writeDb (f : Db -> Db) : M unit :=
  storeCall ;; fun w => (Return tt, {| db := f (db w); ext := ext w |}).

(** [new Date()] and [Date.now()]. *)
Definition newDate : M Date := liftExt (Date_now O).

(** *** [lib/fireworks.ts] *)

Definition DEFAULT_MODEL : string :=
  "accounts/fireworks/models/llama-v3p3-70b-instruct".

Record ChatOptions := {
  opt_model : option string;
  opt_temperature : option number;
  opt_maxTokens : option number;
  opt_jsonMode : option bool
}.

Definition orDefault {A : Type} (o : option A) (d : A) : A :=
  match o with
  | Some a => a
  | None => d
  end.

(** [data.choices[0]?.message?.content || ''] *)
Definition firstContent (data : FireworksResponse) : string :=
  match choices data with
  | [] => ""
  | c :: _ =>
      match choice_message c with
      | Some m => content m
      | None => ""
      end
  end.

Definition chat (messages : list ChatMessage) (options : ChatOptions)
  : M string :=
  if JS.truthyOpt (FIREWORKS_API_KEY O) then
    response <- callExt (fireworks_fetch O
      {| fw_bearer := "Bearer " ++ orDefault (FIREWORKS_API_KEY O) "";
         fw_model := orDefault (opt_model options) DEFAULT_MODEL;
         fw_messages := messages;
         fw_temperature := orDefault (opt_temperature options) 0.7%Q;
         fw_max_tokens := orDefault (opt_maxTokens options) 2048%Q;
         fw_json_object := orDefault (opt_jsonMode options) false |}) ;;
    if negb (ok response) then
      error <- lift (body_text response) ;;
      throw (Error ("Fireworks API error: " ++ error))
    else
      data <- lift (body_json response) ;;
      ret (firstContent data)
  else throw (Error "FIREWORKS_API_KEY not set").

Definition parseQuery_systemPrompt : string :=
  let q := JS.dquote in
  "You are a query parser for an expert matching system. 
Extract structured requirements from natural language queries.

Respond ONLY with valid JSON in this exact format:
{
  " ++ q ++ "skills" ++ q ++ ": [{" ++ q ++ "name" ++ q ++ ": " ++ q
  ++ "skill name" ++ q ++ ", " ++ q ++ "weight" ++ q ++ ": 0.8}],
  " ++ q ++ "constraints" ++ q ++ ": [{" ++ q ++ "type" ++ q ++ ": " ++ q
  ++ "renown" ++ q ++ ", " ++ q ++ "value" ++ q ++ ": " ++ q
  ++ "popular | hidden | rising | any" ++ q ++ "}],
  " ++ q ++ "intent" ++ q ++ ": " ++ q ++ "technical_hire" ++ q ++ ",
  " ++ q ++ "summary" ++ q ++ ": " ++ q ++ "One sentence summary" ++ q ++ "
}
If the user asks for 'well-known', 'famous', or 'popular' people, set renown to 'popular'.
If the user asks for 'less-renowned', 'hidden', or 'unknown' people, set renown to 'hidden'.".

Definition stopWords : list string :=
  ["find"; "need"; "want"; "looking"; "expert"; "developer";
   "professional"; "professionals"].

(** The [skills] of [defaultResult]. *)
Definition heuristicSkills (rawQuery : string) : list Skill :=
  map (fun name =>
         {| skill_name := JS.toUpperCase U (JS.charAt0 U name) ++ JS.slice1 U name;
            weight := 0.8%Q |})
      (firstn 3
         (filter (fun w => negb (JS.includes stopWords w))
            (filter (fun w => (3 <? JS.length U w)%nat)
               (JS.splitWhitespace U (JS.toLowerCase U rawQuery))))).

Definition defaultResult (rawQuery : string) : Requirements :=
  {| req_skills := heuristicSkills rawQuery;
     req_constraints := [];
     intent := "technical_hire";
     summary := rawQuery |}.

(** The completion request of [parseQuery]. *)
Definition parseQuery_chat (rawQuery : string) : M string :=
  chat
    [ {| role := system; content := parseQuery_systemPrompt |};
      {| role := user; content := rawQuery |} ]
    {| opt_model := None; opt_temperature := Some 0.3%Q;
       opt_maxTokens := None; opt_jsonMode := Some true |}.

Definition parseQuery (rawQuery : string) : M Requirements :=
  try_catch
    (response <- parseQuery_chat rawQuery ;;
     parsed <- lift (JSON_parse O response) ;;
     ret {| req_skills :=
              orDefault (p_skills parsed) (req_skills (defaultResult rawQuery));
            req_constraints := orDefault (p_constraints parsed) [];
            intent := orDefault (p_intent parsed) "technical_hire";
            summary := orDefault (p_summary parsed) rawQuery |})
    (fun _ => ret (defaultResult rawQuery)).

Definition generateExplanation_systemPrompt : string :=
  "You are explaining why an expert matches a query.
Generate 2-3 bullet points explaining the match.
Be specific and reference both the query requirements and expert skills.
Start each point with an emoji (✅ for match, ⚠️ for partial).".

Definition generateExplanation
  (query : string) (e : Expert) (score : number) : M (list string) :=
  response <- chat
    [ {| role := system; content := generateExplanation_systemPrompt |};
      {| role := user;
         content :=
           "Query: " ++ JS.dquote ++ query ++ JS.dquote ++ "

Expert: " ++ name e ++ ", " ++ title e ++ "
Skills: " ++ String.concat ", " (map es_name (skills e)) ++ "
Match Score: " ++ JS.toFixed0 (score * 100)%Q ++ "%" |} ]
    {| opt_model := None; opt_temperature := Some 0.7%Q;
       opt_maxTokens := None; opt_jsonMode := None |} ;;
  ret (filter (fun line => (0 <? JS.length U (JS.trim U line))%nat)
         (JS.splitChar JS.newline response)).

(** *** [lib/voyage.ts] *)

Definition VOYAGE_MODEL : string := "voyage-2".

(** [Array(n).fill(0).map(() => Math.random() * 2 - 1)] *)
Fixpoint randomVector (n : nat) : M (list number) :=
  match n with
  | 0%nat => ret []
  | S k =>
      r <- liftExt (Math_random O) ;;
      rest <- randomVector k ;;
      ret ((r * 2 - 1)%Q :: rest)
  end.

Definition mockEmbedding : M (list number) := randomVector 1024.

(** [data.data[0].embedding] *)
Definition firstEmbedding (data : VoyageResponse) : Completion (list number) :=
  match vy_data data with
  | [] => Throw (TypeError "Cannot read properties of undefined (reading 'embedding')")
  | v :: _ => Return v
  end.

Definition hasTextHash (hash : string) (c : EmbeddingCacheEntry) : bool :=
  String.eqb (textHash c) hash.

(** The document that a cache miss stores. *)
Definition storedEmbedding (txt : string) (v : list number) (t : Date)
  : EmbeddingCacheEntry :=
  {| textHash := sha256_hex O txt; text := JS.slice0 U 500 txt;
     embedding := v; ec_createdAt := t |}.

(** The [try] block of [generateEmbedding]: cache lookup, provider call on a
    miss, cache write. *)
Definition embedViaCache (txt : string) : M (list number) :=
  let hash := sha256_hex O txt in
  getDb ;;
  cached <- readDb (fun d => find (hasTextHash hash) (cache_embeddings d)) ;;
  match cached with
  | Some c => ret (embedding c)
  | None =>
      response <- callExt (voyage_fetch O
        {| vy_bearer := "Bearer " ++ orDefault (VOYAGE_API_KEY O) "";
           vy_input := txt;
           vy_model := VOYAGE_MODEL |}) ;;
      if negb (ok response) then
        throw (Error ("Voyage API error: " ++ statusText response))
      else
        data <- lift (body_json response) ;;
        v <- lift (firstEmbedding data) ;;
        t <- newDate ;;
        writeDb (fun d =>
          with_cache_embeddings d
            (upsertFirst (hasTextHash hash) (storedEmbedding txt v t)
               (cache_embeddings d))) ;;
        ret v
  end.

Definition generateEmbedding (txt : string) : M (list number) :=
  if JS.truthyOpt (VOYAGE_API_KEY O) then
    try_catch (embedViaCache txt) (fun _ => mockEmbedding)
  else mockEmbedding.

(** A vector that the embedding provider returned in a successful response. *)
Definition ProviderVector (v : list number) : Prop :=
  exists request e response e' data,
    voyage_fetch O request e = (Return response, e')
    /\ ok response = true
    /\ body_json response = Return data
    /\ firstEmbedding data = Return v.

Definition generateQueryEmbedding (query : string) : M (list number) :=
  generateEmbedding query.

(** *** [lib/agents.ts] *)

Definition pushConversation (q : Query) (m : AgentMessage) : Query :=
  {| queryId := queryId q; rawQuery := rawQuery q;
     parsedRequirements := parsedRequirements q;
     agentConversation := (agentConversation q ++ [m])%list;
     results := results q; status := status q;
     q_createdAt := q_createdAt q; q_completedAt := q_completedAt q |}.

Definition hasQueryId (qid : string) (q : Query) : bool :=
  String.eqb (queryId q) qid.

(** [BaseAgent.log] *)
Definition log (agentType : AgentType) (qid : string)
  (msg : string) (payload : option Requirements) : M unit :=
  getDb ;;
  t <- newDate ;;
  writeDb (fun d =>
    with_queries d
      (updateFirst (hasQueryId qid)
         (fun q => pushConversation q
            {| agent := agentType; message := msg;
               data := payload; timestamp := t |})
         (queries d))).

(** [QueryAnalystAgent.execute] *)
Definition QueryAnalystAgent_execute (qid : string) (rawQuery : string)
  : M Requirements :=
  log analyst qid "Analyzing query requirements..." None ;;
  requirements <- parseQuery rawQuery ;;
  log analyst qid
    ("Extracted " ++ JS.natToString (length (req_skills requirements))
     ++ " skills, "
     ++ JS.natToString (length (req_constraints requirements))
     ++ " constraints")
    (Some requirements) ;;
  ret requirements.

(** [requirements?.constraints.find(c => c.type === 'renown')] *)
Definition renownConstraint (requirements : option Requirements)
  : option Constraint :=
  match requirements with
  | Some r =>
      find (fun c => String.eqb (c_type c) "renown") (req_constraints r)
  | None => None
  end.

Definition RenownLevel_eqb (a b : RenownLevel) : bool :=
  match a, b with
  | Hidden, Hidden | Rising, Rising
  | Established, Established | Famous, Famous => true
  | _, _ => false
  end.

(** The [$match] filter of the scout: the levels of its [$or], if any. *)
Definition renownFilter (renownValue : string) : option (list RenownLevel) :=
  if String.eqb renownValue "popular" then Some [Famous; Established]
  else if String.eqb renownValue "hidden" then Some [Hidden; Rising]
  else None.

Definition matchesRenown (levels : list RenownLevel) (e : Expert) : bool :=
  match renownLevel e with
  | Some l => existsb (RenownLevel_eqb l) levels
  | None => false
  end.

Definition withVectorSearchScore (e : Expert) (s : number) : Expert :=
  {| _id := _id e; name := name e; email := email e; title := title e;
     department := department e; bio := bio e; skills := skills e;
     skillVector := skillVector e; linkedIn := linkedIn e;
     github := github e; stackoverflow := stackoverflow e;
     availability := availability e; renownLevel := renownLevel e;
     qualityMetrics := qualityMetrics e; sources := sources e;
     metrics := metrics e; matchCount := matchCount e;
     createdAt := createdAt e; updatedAt := updatedAt e;
     vectorSearchScore := Some s;
     verified := verified e;
     verificationDetails := verificationDetails e |}.

(** What the stages after [$vectorSearch] make of its output: [$addFields],
    the optional [$match], and [.limit(10)]. *)
Definition aggregateResult (matchStage : option (list RenownLevel))
  (found : list (Expert * number)) : list Expert :=
  let scored := map (fun p => withVectorSearchScore (fst p) (snd p)) found in
  firstn 10
    match matchStage with
    | Some levels => filter (matchesRenown levels) scored
    | None => scored
    end.

(** [db.collection(EXPERTS).aggregate(pipeline).limit(10).toArray()] *)
Definition aggregate (stage : VectorSearchStage)
  (matchStage : option (list RenownLevel)) : M (list Expert) :=
  storeCall ;;
  found <- (fun w => callExt (vectorSearch O (experts (db w)) stage) w) ;;
  ret (aggregateResult matchStage found).

(** The [$match] stage that the scout adds for a requirement set, if any. *)
Definition matchStageOf (requirements : option Requirements)
  : option (list RenownLevel) :=
  match renownConstraint requirements with
  | Some c => renownFilter (JS.toLowerCase U (c_value c))
  | None => None
  end.

(** The [try] block of [ProfileScoutAgent.execute]: [Some results] is its
    [return results], [None] is reaching its end. *)
Definition vectorAttempt (qid : string) (requirements : option Requirements)
  (queryEmbedding : list number) : M (option (list Expert)) :=
  let stage :=
    {| vs_index := "Nested"; vs_path := "skillVector";
       vs_queryVector := queryEmbedding;
       vs_numCandidates := 100; vs_limit := 20 |} in
  matchStage <-
    match renownConstraint requirements with
    | Some c =>
        let renownValue := JS.toLowerCase U (c_value c) in
        match renownFilter renownValue with
        | Some levels =>
            log scout qid ("Applying renown filter: " ++ renownValue) None ;;
            ret (Some levels)
        | None => ret None
        end
    | None => ret None
    end ;;
  results <- aggregate stage matchStage ;;
  if (0 <? length results)%nat then
    log scout qid
      ("Found " ++ JS.natToString (length results)
       ++ " candidates via vector search") None ;;
    ret (Some results)
  else ret None.

(** [new RegExp(s, 'i')] *)
Definition RegExp_new (pattern fl : string) : Completion RegExpObject :=
  if RegExp_valid O pattern
  then Return {| source := pattern; flags := fl |}
  else Throw (SyntaxError ("Invalid regular expression: /" ++ pattern ++ "/"
                           ++ fl)).

(** [skillNames.map(s => new RegExp(s, 'i'))] *)
Fixpoint compileAll (skillNames : list string)
  : Completion (list RegExpObject) :=
  match skillNames with
  | [] => Return []
  | s :: rest =>
      match RegExp_new s "i" with
      | Throw e => Throw e
      | Return r =>
          match compileAll rest with
          | Throw e => Throw e
          | Return rs => Return (r :: rs)
          end
      end
  end.

(** The filter document of the text search: [None] is [{}], [Some rs] is
    [{ 'skills.name': { $in: rs } }]. *)
Definition textQuery (skillNames : list string)
  : Completion (option (list RegExpObject)) :=
  if (0 <? length skillNames)%nat then
    match compileAll skillNames with
    | Return rs => Return (Some rs)
    | Throw e => Throw e
    end
  else Return None.

(** Whether a document satisfies the filter: some element of [skills] has
    a [name] that some expression of [$in] matches. *)
Definition matchesTextQuery (query : option (list RegExpObject)) (e : Expert)
  : bool :=
  match query with
  | None => true
  | Some rs =>
      existsb (fun s => existsb (fun r => regex_test O r (es_name s)) rs)
        (skills e)
  end.

(** [input.requirements?.skills.map(s => s.name) || []] *)
Definition skillNamesOf (requirements : option Requirements) : list string :=
  match requirements with
  | Some r => map skill_name (req_skills r)
  | None => []
  end.

(** The fallback of [ProfileScoutAgent.execute], after its [try]. *)
Definition textSearch (qid : string) (requirements : option Requirements)
  : M (list Expert) :=
  let skillNames := skillNamesOf requirements in
  query <- lift (textQuery skillNames) ;;
  found <- readDb (fun d =>
    firstn 10 (filter (matchesTextQuery query) (experts d))) ;;
  log scout qid
    ("Found " ++ JS.natToString (length found)
     ++ " candidates via text search") None ;;
  ret found.

(** [ProfileScoutAgent.execute] *)
Definition ProfileScoutAgent_execute (qid : string)
  (requirements : option Requirements) (rawQuery : string)
  : M (list Expert) :=
  log scout qid "Searching expert database..." None ;;
  getDb ;;
  queryEmbedding <- generateQueryEmbedding rawQuery ;;
  attempt <- try_catch (vectorAttempt qid requirements queryEmbedding)
               (fun _ => ret None) ;;
  match attempt with
  | Some results => ret results
  | None => textSearch qid requirements
  end.

(** [expert.availability?.status === 'available'] *)
Definition isAvailable (e : Expert) : bool :=
  match availability e with
  | Some {| av_status := Available |} => true
  | _ => false
  end.

Definition verify (e : Expert) : Expert :=
  {| _id := _id e; name := name e; email := email e; title := title e;
     department := department e; bio := bio e; skills := skills e;
     skillVector := skillVector e; linkedIn := linkedIn e;
     github := github e; stackoverflow := stackoverflow e;
     availability := availability e; renownLevel := renownLevel e;
     qualityMetrics := qualityMetrics e; sources := sources e;
     metrics := metrics e; matchCount := matchCount e;
     createdAt := createdAt e; updatedAt := updatedAt e;
     vectorSearchScore := vectorSearchScore e;
     verified := Some true;
     verificationDetails :=
       Some {| profileComplete :=
                 JS.truthy (bio e) && (0 <? length (skills e))%nat;
               hasExternalLinks :=
                 JS.truthyOpt (linkedIn e) || JS.truthyOpt (github e);
               availabilityConfirmed := isAvailable e |} |}.

(** [VerifierAgent.execute] *)
Definition VerifierAgent_execute (qid : string) (candidates : list Expert)
  : M (list Expert) :=
  log verifier qid
    ("Verifying " ++ JS.natToString (length candidates) ++ " candidates...")
    None ;;
  let verified := map verify candidates in
  let availableCount := length (filter isAvailable verified) in
  log verifier qid
    ("Verified " ++ JS.natToString (length verified) ++ " experts, "
     ++ JS.natToString availableCount ++ " available") None ;;
  ret verified.

(** [RecommenderAgent.calculateSkillMatch] *)
Definition calculateSkillMatch (e : Expert)
  (requirements : option Requirements) : number :=
  match requirements with
  | None => 0.5
  | Some r =>
      if (length (req_skills r) =? 0)%nat then 0.5
      else
        let expertSkills :=
          map (fun s => JS.toLowerCase U (es_name s)) (skills e) in
        let '(totalWeight, matchedWeight) :=
          fold_left
            (fun '(total, matched) req =>
               (total + weight req,
                if JS.includes expertSkills (JS.toLowerCase U (skill_name req))
                then matched + weight req
                else matched))
            (req_skills r) (0, 0) in
        if Qlt_bool 0 totalWeight then matchedWeight / totalWeight else 0.5
  end%Q.

(** [expert.renownLevel || 'hidden'] *)
Definition actualRenown (e : Expert) : RenownLevel :=
  match renownLevel e with
  | Some l => l
  | None => Hidden
  end.

(** [RecommenderAgent.calculateRenownMatch] *)
Definition calculateRenownMatch (e : Expert)
  (requirements : option Requirements) : number :=
  match renownConstraint requirements with
  | None => 0.5
  | Some c =>
      let requested := JS.toLowerCase U (c_value c) in
      let actual := actualRenown e in
      if String.eqb requested "popular" then
        match actual with
        | Famous => 1.0
        | Established => 0.8
        | Rising => 0.4
        | Hidden => 0.1
        end
      else if String.eqb requested "hidden" then
        match actual with
        | Hidden => 1.0
        | Rising => 0.7
        | _ => 0.2
        end
      else 0.5
  end%Q.

(** The score that the loop of [RecommenderAgent.execute] gives to one
    candidate. *)
Definition computeMatchScore (e : Expert)
  (requirements : option Requirements) : number :=
  let skillMatch := calculateSkillMatch e requirements in
  let renownMatch := calculateRenownMatch e requirements in
  let availabilityBonus := if isAvailable e then 0.1 else 0 in
  Qmin 1 (skillMatch * 0.7 + renownMatch * 0.3 + availabilityBonus)%Q.

(** The [for ... of] loop of [RecommenderAgent.execute], [matches] being
    the array filled so far. *)
Fixpoint rankLoop (rawQuery : string) (requirements : option Requirements)
  (candidates : list Expert) (matches : list ExpertMatch)
  : M (list ExpertMatch) :=
  match candidates with
  | [] => ret matches
  | e :: rest =>
      let score := computeMatchScore e requirements in
      explanation <- generateExplanation rawQuery e score ;;
      rankLoop rawQuery requirements rest
        (matches ++ [ {| expert := e; matchScore := score;
                         reasoning := explanation;
                         matchedBy := recommender |} ])%list
  end.

(** [(a, b) => b.matchScore - a.matchScore] *)
Definition byScoreDescending (a b : ExpertMatch) : number :=
  (matchScore b - matchScore a)%Q.

(** [matches[0]?.expert.name || 'none'] *)
Definition topName (matches : list ExpertMatch) : string :=
  match matches with
  | m :: _ => if JS.truthy (name (expert m)) then name (expert m) else "none"
  | [] => "none"
  end.

(** [RecommenderAgent.execute] *)
Definition RecommenderAgent_execute (qid : string)
  (candidates : list Expert) (rawQuery : string)
  (requirements : option Requirements) : M (list ExpertMatch) :=
  log recommender qid "Ranking and explaining matches..." None ;;
  unsorted <- rankLoop rawQuery requirements (firstn 5 candidates) [] ;;
  let matches := sort byScoreDescending unsorted in
  log recommender qid
    ("Ranked " ++ JS.natToString (length matches) ++ " experts, top match: "
     ++ topName matches) None ;;
  ret matches.

(** *** [OrchestratorAgent] *)

Record OrchestratorAgent := { this_queryId : string; this_taskId : string }.

(** The constructor. *)
Definition OrchestratorAgent_new : M OrchestratorAgent :=
  u1 <- liftExt (uuidv4 O) ;;
  u2 <- liftExt (uuidv4 O) ;;
  ret {| this_queryId := "query_" ++ JS.slice0 U 8 u1;
         this_taskId := "task_" ++ JS.slice0 U 8 u2 |}.

(** [crypto.createHash('sha256').update(rawQuery.trim().toLowerCase()).digest('hex')] *)
Definition computeQueryHash (rawQuery : string) : string :=
  sha256_hex O (JS.toLowerCase U (JS.trim U rawQuery)).

Definition unexpired (hash : string) (now : Date) (c : SearchCacheEntry)
  : bool :=
  String.eqb (queryHash c) hash && (now <? expiresAt c)%Z.

(** Step 1 of [processQuery]:
    [findOne({ queryHash, expiresAt: { $gt: new Date() } })]. *)
Definition findCachedResult (hash : string) : M (option SearchCacheEntry) :=
  now <- newDate ;;
  readDb (fun d => find (unexpired hash now) (cache_search_results d)).

Definition cacheHitMessage (t : Date) : AgentMessage :=
  {| agent := orchestrator;
     message := "Retrieved optimized results from lightning cache.";
     data := None;
     timestamp := t |}.

(** The [if (cachedResult)] branch. *)
Definition cacheHit (cachedResult : SearchCacheEntry) : M PipelineResult :=
  t <- newDate ;;
  ret {| r_queryId := r_queryId (result cachedResult);
         r_matches := r_matches (result cachedResult);
         r_conversation :=
           cacheHitMessage t :: r_conversation (result cachedResult) |}.

Definition newQuery (self : OrchestratorAgent) (rawQuery : string) (t : Date)
  : Query :=
  {| queryId := this_queryId self; rawQuery := rawQuery;
     parsedRequirements := None; agentConversation := []; results := [];
     status := Processing; q_createdAt := t; q_completedAt := None |}.

Definition newTask (self : OrchestratorAgent) (t : Date) : AgentTask :=
  {| taskId := this_taskId self; t_queryId := this_queryId self;
     agents := ["orchestrator"; "analyst"; "scout"; "verifier"; "recommender"];
     t_status := InProgress; steps := []; startedAt := t;
     t_completedAt := None |}.

(** The two [insertOne] calls: the Query Record and the Task Record. *)
Definition createRecords (self : OrchestratorAgent) (rawQuery : string)
  : M unit :=
  t <- newDate ;;
  writeDb (fun d =>
    with_queries d (queries d ++ [newQuery self rawQuery t])%list) ;;
  t' <- newDate ;;
  writeDb (fun d =>
    with_agent_tasks d (agent_tasks d ++ [newTask self t'])%list).

(** Steps 1 to 4 of the full inference: the four agents in sequence. *)
Definition runStages (self : OrchestratorAgent) (rawQuery : string)
  : M (Requirements * list ExpertMatch) :=
  requirements <- QueryAnalystAgent_execute (this_queryId self) rawQuery ;;
  candidates <- ProfileScoutAgent_execute (this_queryId self)
                  (Some requirements) rawQuery ;;
  verifiedCandidates <- VerifierAgent_execute (this_queryId self) candidates ;;
  matches <- RecommenderAgent_execute (this_queryId self)
               verifiedCandidates rawQuery (Some requirements) ;;
  ret (requirements, matches).

(** [m.expert._id ? String(m.expert._id) : ''] *)
Definition matchId (m : ExpertMatch) : string :=
  if JS.truthyOpt (_id (expert m)) then orDefault (_id (expert m)) "" else "".

Definition completeQuery (requirements : Requirements)
  (matchIds : list string) (t : Date) (q : Query) : Query :=
  {| queryId := queryId q; rawQuery := rawQuery q;
     parsedRequirements := Some requirements;
     agentConversation := agentConversation q;
     results := matchIds; status := Completed;
     q_createdAt := q_createdAt q; q_completedAt := Some t |}.

Definition completeTask (t : Date) (k : AgentTask) : AgentTask :=
  {| taskId := taskId k; t_queryId := t_queryId k; agents := agents k;
     t_status := TaskCompleted; steps := steps k; startedAt := startedAt k;
     t_completedAt := Some t |}.

Definition hasTaskId (tid : string) (k : AgentTask) : bool :=
  String.eqb (taskId k) tid.

(** [{ ...m, expert: { ...m.expert, _id: m.expert._id ? String(m.expert._id) : undefined } }] *)
Definition safeMatch (m : ExpertMatch) : ExpertMatch :=
  let e := expert m in
  {| expert :=
       {| _id := if JS.truthyOpt (_id e) then _id e else None;
          name := name e; email := email e; title := title e;
          department := department e; bio := bio e; skills := skills e;
          skillVector := skillVector e; linkedIn := linkedIn e;
          github := github e; stackoverflow := stackoverflow e;
          availability := availability e; renownLevel := renownLevel e;
          qualityMetrics := qualityMetrics e; sources := sources e;
          metrics := metrics e; matchCount := matchCount e;
          createdAt := createdAt e; updatedAt := updatedAt e;
          vectorSearchScore := vectorSearchScore e;
          verified := verified e;
          verificationDetails := verificationDetails e |};
     matchScore := matchScore m;
     reasoning := reasoning m;
     matchedBy := matchedBy m |}.

Definition hasQueryHash (hash : string) (c : SearchCacheEntry) : bool :=
  String.eqb (queryHash c) hash.

(** From "Update query status" to [return finalResult]. *)
Definition finish (self : OrchestratorAgent) (rawQuery hash : string)
  (requirements : Requirements) (matches : list ExpertMatch)
  : M PipelineResult :=
  let matchIds := map matchId matches in
  t <- newDate ;;
  writeDb (fun d =>
    with_queries d
      (updateFirst (hasQueryId (this_queryId self))
         (completeQuery requirements matchIds t) (queries d))) ;;
  t' <- newDate ;;
  writeDb (fun d =>
    with_agent_tasks d
      (updateFirst (hasTaskId (this_taskId self)) (completeTask t')
         (agent_tasks d))) ;;
  query <- readDb (fun d => find (hasQueryId (this_queryId self)) (queries d)) ;;
  let conversation :=
    match query with
    | Some q => agentConversation q
    | None => []
    end in
  let finalResult :=
    {| r_queryId := this_queryId self;
       r_matches := map safeMatch matches;
       r_conversation := conversation |} in
  created <- newDate ;;
  now <- newDate ;;
  writeDb (fun d =>
    with_cache_search_results d
      (upsertFirst (hasQueryHash hash)
         {| queryHash := hash; originalQuery := rawQuery;
            result := finalResult; sc_createdAt := created;
            expiresAt := (now + 60 * 60 * 1000)%Z |}
         (cache_search_results d))) ;;
  ret finalResult.

Definition failQuery (q : Query) : Query :=
  {| queryId := queryId q; rawQuery := rawQuery q;
     parsedRequirements := parsedRequirements q;
     agentConversation := agentConversation q;
     results := results q; status := Failed;
     q_createdAt := q_createdAt q; q_completedAt := q_completedAt q |}.

(** The [catch] block of [processQuery]. *)
Definition onError (self : OrchestratorAgent) (error : Exn)
  : M PipelineResult :=
  writeDb (fun d =>
    with_queries d
      (updateFirst (hasQueryId (this_queryId self)) failQuery (queries d))) ;;
  throw error.

(** The cache-miss path, from "Create query record" on. *)
Definition fullInference (self : OrchestratorAgent) (rawQuery hash : string)
  : M PipelineResult :=
  createRecords self rawQuery ;;
  staged <- runStages self rawQuery ;;
  finish self rawQuery hash (fst staged) (snd staged).

(** [OrchestratorAgent.processQuery] *)
Definition processQuery (self : OrchestratorAgent) (rawQuery : string)
  : M PipelineResult :=
  getDb ;;
  let hash := computeQueryHash rawQuery in
  try_catch
    (cachedResult <- findCachedResult hash ;;
     match cachedResult with
     | Some c => cacheHit c
     | None => fullInference self rawQuery hash
     end)
    (onError self).

End Program.

(** ** The keyword matching as the specification words it

    Section 4.3 of the specification has the fallback run the alternation
    "against skill-name, title, and bio fields".  This is that reading, to be
    compared with [matchesTextQuery], which is what the code runs. *)
Definition matchesKeywordSpec {E : Type} (O : Oracles E)
  (query : option (list RegExpObject)) (e : Expert) : bool :=
  match query with
  | None => true
  | Some rs =>
      existsb (fun r =>
                 existsb (fun s => regex_test O r (es_name s)) (skills e)
                 || regex_test O r (title e)
                 || regex_test O r (bio e))
        rs
  end.

(** ** A concrete outside, for running the model

    The state of the outside is a counter that every clock reading, random
    draw and identifier advances.  The store never faults.  The regular
    expressions are those without metacharacters, for which matching with
    flag [i] is a case-insensitive substring search. *)
Module Demo.

Definition isLiteralChar (c : ascii) : bool :=
  let n := nat_of_ascii c in
  ((48 <=? n)%nat && (n <=? 57)%nat) || ((65 <=? n)%nat && (n <=? 90)%nat)
  || ((97 <=? n)%nat && (n <=? 122)%nat) || (n =? 32)%nat.

Definition literalPattern (p : string) : bool :=
  forallb isLiteralChar (list_ascii_of_string p).

Fixpoint containsb (needle s : string) : bool :=
  String.prefix needle s
  || match s with
     | EmptyString => false
     | String _ r => containsb needle r
     end.

Definition literalTest (r : RegExpObject) (s : string) : bool :=
  containsb (ASCII.toLowerCase (source r)) (ASCII.toLowerCase s).

(** The variable parts of the outside: the provider credentials, what the
    completion provider answers (its text, or the rejection of the
    request), what the document parser makes of a text, and what the
    vector index answers. *)
Record Setup := {
  fireworksKey : option string;
  completion : Completion string;
  voyageKey : option string;
  embeddingAnswer : Completion (HttpResponse VoyageResponse);
  parse : string -> Completion ParsedJson;
  vectorIndex : Completion (list (Expert * number))
}.

Definition completionResponse (c : string) : HttpResponse FireworksResponse :=
  {| ok := true; statusText := "OK"; body_text := Return c;
     body_json :=
       Return {| fw_id := "cmpl-1";
                 choices :=
                   [ {| choice_message :=
                          Some {| role := assistant; content := c |};
                        finish_reason := "stop" |} ] |} |}.

(** A runtime for the demonstrations.  White space, counting and cutting
    are those of JavaScript on every text; the case mappings are those of
    the code points up to U+00FF, and leave the others as they are. *)

(** A code point given by the one, two or three bytes of its encoding. *)
Definition b1 (a : nat) : string := String (ascii_of_nat a) "".

Definition b2 (a b : nat) : string :=
  String (ascii_of_nat a) (String (ascii_of_nat b) "").

Definition b3 (a b c : nat) : string :=
  String (ascii_of_nat a) (String (ascii_of_nat b) (String (ascii_of_nat c) "")).

(** The code points of a text, each as the bytes of its encoding: a byte
    from 128 to 191 continues the code point begun before it. *)
Definition isContinuation (c : ascii) : bool :=
  let n := nat_of_ascii c in ((128 <=? n)%nat && (n <? 192)%nat).

Definition flush (cur : string) : list string :=
  match cur with
  | EmptyString => []
  | _ => [cur]
  end.

Fixpoint codePointsFrom (cur : string) (s : string) : list string :=
  match s with
  | EmptyString => flush cur
  | String c r =>
      if isContinuation c then codePointsFrom (cur ++ String c "") r
      else (flush cur ++ codePointsFrom (String c "") r)%list
  end.

Definition codePoints (s : string) : list string := codePointsFrom "" s.

(** The UTF-16 code units of a code point: two beyond U+FFFF, whose
    encoding begins with a byte from 240. *)
Definition units (p : string) : nat :=
  match p with
  | EmptyString => 0
  | String c _ => if (240 <=? nat_of_ascii c)%nat then 2 else 1
  end.

(** [WhiteSpace] and [LineTerminator]. *)
Definition spaces : list string :=
  [ b1 9; b1 10; b1 11; b1 12; b1 13; b1 32; b2 194 160; b3 225 154 128;
    b3 226 128 128; b3 226 128 129; b3 226 128 130; b3 226 128 131;
    b3 226 128 132; b3 226 128 133; b3 226 128 134; b3 226 128 135;
    b3 226 128 136; b3 226 128 137; b3 226 128 138; b3 226 128 168;
    b3 226 128 169; b3 226 128 175; b3 226 129 159; b3 227 128 128;
    b3 239 187 191 ].

Definition isSpace (p : string) : bool := existsb (String.eqb p) spaces.

Fixpoint dropSpaces (l : list string) : list string :=
  match l with
  | [] => []
  | p :: r => if isSpace p then dropSpaces r else l
  end.

Definition trim (s : string) : string :=
  String.concat "" (rev (dropSpaces (rev (dropSpaces (codePoints s))))).

Fixpoint splitFrom (cur : string) (inRun : bool) (l : list string)
  : list string :=
  match l with
  | [] => [cur]
  | p :: r =>
      if isSpace p
      then if inRun then splitFrom cur true r
           else cur :: splitFrom "" true r
      else splitFrom (cur ++ p) false r
  end.

Definition splitWhitespace (s : string) : list string :=
  splitFrom "" false (codePoints s).

(** The case mappings of the code points up to U+00FF. *)
Definition lower (p : string) : string :=
  match list_ascii_of_string p with
  | [c] => String (ASCII.toLowerCaseChar c) ""
  | [c; d] =>
      let n := nat_of_ascii d in
      if ((nat_of_ascii c =? 195)%nat && (128 <=? n)%nat && (n <=? 158)%nat
          && negb (n =? 151)%nat)
      then b2 195 (n + 32) else p
  | _ => p
  end.

Definition upper (p : string) : string :=
  match list_ascii_of_string p with
  | [c] => String (ASCII.toUpperCaseChar c) ""
  | [c; d] =>
      let m := nat_of_ascii c in
      let n := nat_of_ascii d in
      if ((m =? 195)%nat && (160 <=? n)%nat && (n <=? 190)%nat
          && negb (n =? 183)%nat)
      then b2 195 (n - 32)
      else if ((m =? 195)%nat && (n =? 159)%nat) then "SS"
      else if ((m =? 195)%nat && (n =? 191)%nat) then b2 197 184
      else if ((m =? 194)%nat && (n =? 181)%nat) then b2 206 156
      else p
  | _ => p
  end.

Fixpoint take (n : nat) (l : list string) : list string :=
  match l with
  | [] => []
  | p :: r => if (units p <=? n)%nat then p :: take (n - units p) r else []
  end.

(** The runtime of the demonstrations. *)
Definition latin1 : JS.Unicode :=
  {| JS.u_toLowerCase := fun s => String.concat "" (map lower (codePoints s));
     JS.u_toUpperCase := fun s => String.concat "" (map upper (codePoints s));
     JS.u_trim := trim;
     JS.u_splitWhitespace := splitWhitespace;
     JS.u_length := fun s => list_sum (map units (codePoints s));
     JS.u_charAt0 := fun s => hd "" (codePoints s);
     JS.u_slice1 := fun s => String.concat "" (tl (codePoints s));
     JS.u_slice0 := fun n s => String.concat "" (take n (codePoints s)) |}.

Definition oracles (s : Setup) : Oracles nat :=
  {| unicode := latin1;
     FIREWORKS_API_KEY := fireworksKey s;
     VOYAGE_API_KEY := voyageKey s;
     Date_now := fun e => ((1000 * Z.of_nat e)%Z, S e);
     Math_random := fun e => ((1 # 2)%Q, S e);
     uuidv4 := fun e => ("3f2a9c1e-7b64-4d0a-9e55-0c1d2e3f4a5b", S e);
     sha256_hex := fun s => "sha256:" ++ s;
     JSON_parse := parse s;
     RegExp_valid := literalPattern;
     regex_test := literalTest;
     fireworks_fetch := fun _ e =>
       (match completion s with
        | Return c => Return (completionResponse c)
        | Throw x => Throw x
        end, S e);
     voyage_fetch := fun _ e => (embeddingAnswer s, S e);
     store_fault := fun e => (None, e);
     vectorSearch := fun _ _ e => (vectorIndex s, S e) |}.

Definition notJson (_ : string) : Completion ParsedJson :=
  Throw (SyntaxError "Unexpected token in JSON").

(** No completion credential, no embedding credential, no vector index. *)
Definition offline : Setup :=
  {| fireworksKey := None;
     completion := Throw (Error "fetch failed");
     voyageKey := None;
   embeddingAnswer := Throw (Error "fetch failed");
     parse := notJson;
     vectorIndex := Throw (Error "$vectorSearch stage is only allowed on MongoDB Atlas") |}.

(** A completion provider that answers in prose, never in JSON. *)
Definition prose : Setup :=
  {| fireworksKey := Some "fw-key";
     completion := Return "Strong match on the requested skills
Available this week";
     voyageKey := None;
   embeddingAnswer := Throw (Error "fetch failed");
     parse := notJson;
     vectorIndex := Throw (Error "$vectorSearch stage is only allowed on MongoDB Atlas") |}.

(** A completion provider whose JSON has a text where the array of skills
    should be, next to a well-formed constraint and summary. *)
Definition looseJsonText : string :=
  let q := JS.dquote in
  "{" ++ q ++ "skills" ++ q ++ ":" ++ q ++ "Kubernetes" ++ q ++ ","
  ++ q ++ "constraints" ++ q ++ ":[{" ++ q ++ "type" ++ q ++ ":" ++ q
  ++ "renown" ++ q ++ "," ++ q ++ "value" ++ q ++ ":" ++ q ++ "popular" ++ q
  ++ "}]," ++ q ++ "summary" ++ q ++ ":" ++ q ++ "A well-known Kubernetes person"
  ++ q ++ "}".

Definition looseJson : Setup :=
  {| fireworksKey := Some "fw-key";
     completion := Return looseJsonText;
     voyageKey := None;
   embeddingAnswer := Throw (Error "fetch failed");
     parse := fun s =>
       if String.eqb s looseJsonText then
         Return {| p_skills := None;
                   p_constraints :=
                     Some [ {| c_type := "renown"; c_value := "popular" |} ];
                   p_intent := None;
                   p_summary := Some "A well-known Kubernetes person" |}
       else notJson s;
     vectorIndex := Throw (Error "$vectorSearch stage is only allowed on MongoDB Atlas") |}.

(** An embedding provider that is configured and answers. *)
Definition embeddingResponse : HttpResponse VoyageResponse :=
  {| ok := true; statusText := "OK";
     body_text := Return "embedding";
     body_json := Return {| vy_data := [ [0.25; -0.5; 0.125]%Q ] |} |}.

Definition embedded : Setup :=
  {| fireworksKey := None;
     completion := Throw (Error "fetch failed");
     voyageKey := Some "pa-key";
     embeddingAnswer := Return embeddingResponse;
     parse := notJson;
     vectorIndex := Throw (Error "$vectorSearch stage is only allowed on MongoDB Atlas") |}.

(** An embedding provider that is configured and unreachable. *)
Definition unreachable : Setup :=
  {| fireworksKey := None;
     completion := Throw (Error "fetch failed");
     voyageKey := Some "pa-key";
     embeddingAnswer := Throw (Error "fetch failed");
     parse := notJson;
     vectorIndex := Throw (Error "$vectorSearch stage is only allowed on MongoDB Atlas") |}.

Definition profile (id nm ttl about : string) (sk : list string)
  (st : AvailabilityStatus) (renown : option RenownLevel) : Expert :=
  {| _id := Some id; name := nm; email := nm ++ "@example.com";
     title := ttl; department := "Engineering"; bio := about;
     skills := map (fun s => {| es_name := s; es_level := Senior;
                                es_yearsExp := 5 |}) sk;
     skillVector := None; linkedIn := None; github := None;
     stackoverflow := None;
     availability := Some {| av_timezone := "UTC"; av_hoursPerWeek := 20;
                             av_status := st |};
     renownLevel := renown; qualityMetrics := None; sources := None;
     metrics := None; matchCount := 0; createdAt := 0%Z; updatedAt := 0%Z;
     vectorSearchScore := None; verified := None;
     verificationDetails := None |}.

Definition ada : Expert :=
  profile "65a1" "Ada" "Staff Engineer" "Builds user interfaces"
    ["React"; "Leadership"] Available (Some Established).

Definition bo : Expert :=
  profile "65a2" "Bo" "React Lead" "Ten years of React consulting"
    ["Python"] Busy None.

Definition emptyDb : Db :=
  {| experts := []; queries := []; agent_tasks := [];
     cache_embeddings := []; cache_search_results := [] |}.

Definition store (es : list Expert) : Db :=
  {| experts := es; queries := []; agent_tasks := [];
     cache_embeddings := []; cache_search_results := [] |}.

Definition world (d : Db) : World nat := {| db := d; ext := 0%nat |}.

Definition agent1 : OrchestratorAgent :=
  {| this_queryId := "query_3f2a9c1e"; this_taskId := "task_3f2a9c1e" |}.

Definition agent2 : OrchestratorAgent :=
  {| this_queryId := "query_77aa10b2"; this_taskId := "task_5c0d9e41" |}.

Definition reactRequirements : Requirements :=
  {| req_skills := [ {| skill_name := "React"; weight := 0.8%Q |} ];
     req_constraints := [];
     intent := "technical_hire";
     summary := "React people" |}.

Definition popularOnly : Requirements :=
  {| req_skills := [];
     req_constraints := [ {| c_type := "renown"; c_value := "popular" |} ];
     intent := "technical_hire"; summary := "" |}.

Definition hiddenOnly : Requirements :=
  {| req_skills := [];
     req_constraints := [ {| c_type := "renown"; c_value := "hidden" |} ];
     intent := "technical_hire"; summary := "" |}.

(** A store whose result cache holds one entry for "react developer". *)
Definition cachedEntry : SearchCacheEntry :=
  {| queryHash := "sha256:react developer";
     originalQuery := "React developer";
     result := {| r_queryId := "query_0a1b2c3d";
                  r_matches :=
                    [ {| expert := ada; matchScore := 0.95%Q;
                         reasoning := ["Strong match on the requested skills"];
                         matchedBy := recommender |} ];
                  r_conversation :=
                    [ {| agent := analyst;
                         message := "Analyzing query requirements...";
                         data := None; timestamp := 100%Z |} ] |};
     sc_createdAt := 200%Z;
     expiresAt := 3600200%Z |}.

Definition cachedStore : Db :=
  {| experts := [ada; bo]; queries := []; agent_tasks := [];
     cache_embeddings := []; cache_search_results := [cachedEntry] |}.

(** A first invocation that runs the whole pipeline. *)
Definition firstRun : Completion PipelineResult * World nat :=
  processQuery (oracles prose) agent1 " React developer "
    (world (store [ada; bo])).

Definition firstResult : PipelineResult :=
  match fst firstRun with
  | Return r => r
  | Throw _ =>
      {| r_queryId := "none"; r_matches := []; r_conversation := [] |}
  end.

(** Six candidates, with ties of score among them. *)
Definition sixCandidates : list Expert := [bo; ada; bo; ada; bo; ada].

End Demo.

(** ** What a stage may change

    Between the moment the orchestrator has created its two records and the
    moment a stage is done, the experts, the task records and the result
    cache are the same, and the query records are the same in number, in
    identifier and in status: the stages only append conversation entries
    and fill the embedding cache. *)
Definition StageFrame (d d' : Db) : Prop :=
  experts d' = experts d
  /\ agent_tasks d' = agent_tasks d
  /\ cache_search_results d' = cache_search_results d
  /\ map queryId (queries d') = map queryId (queries d)
  /\ map status (queries d') = map status (queries d).

Definition Preserves {E A : Type} (m : M E A) : Prop :=
  forall w, StageFrame (db w) (db (snd (m w))).

(** ** Assumptions on the outside that some properties need *)

(** The store answers every call. *)
Definition StoreUp {E : Type} (O : Oracles E) : Prop :=
  forall e, fst (store_fault O e) = None.

(** The completion provider is configured and answers every request with a
    response that is [ok] and has a body of the declared shape. *)
Definition CompletionUp {E : Type} (O : Oracles E) : Prop :=
  JS.truthyOpt (FIREWORKS_API_KEY O) = true
  /\ forall request e,
       exists response data,
         fst (fireworks_fetch O request e) = Return response
         /\ ok response = true
         /\ body_json response = Return data.

(** The similarity search, whenever it is asked, raises an error or yields
    no document once the scout's filter for [requirements] and its limit are
    applied. *)
Definition NoVectorResults {E : Type} (O : Oracles E)
  (requirements : option Requirements) : Prop :=
  forall docs stage e,
    match fst (vectorSearch O docs stage e) with
    | Throw _ => True
    | Return found => aggregateResult (matchStageOf O requirements) found = []
    end.

(** Descending order of score. *)
Definition scoreDescending (a b : ExpertMatch) : Prop :=
  (matchScore b <= matchScore a)%Q.

(** The expressions that [new RegExp(s, 'i')] makes of the skill names. *)
Definition caseInsensitive (skillNames : list string) : list RegExpObject :=
  map (fun s => {| source := s; flags := "i" |}) skillNames.

(** The filter document of the text search for skill names that all compile. *)
Definition keywordQuery (skillNames : list string)
  : option (list RegExpObject) :=
  if (0 <? length skillNames)%nat then Some (caseInsensitive skillNames)
  else None.

(** ** Further notions used by the properties below *)

(** [l] without its leading white space. *)
Fixpoint dropWhiteSpace (l : list ascii) : list ascii :=
  match l with
  | [] => []
  | c :: r => if ASCII.isWhiteSpace c then dropWhiteSpace r else l
  end.

Definition allWhiteSpace (s : string) : Prop :=
  Forall (fun c => ASCII.isWhiteSpace c = true) (list_ascii_of_string s).

(** A computation respects a relation on the store when the store it leaves
    is related to the store it found, whatever its completion. *)
Definition Respects {E A : Type} (R : Db -> Db -> Prop) (m : M E A) : Prop :=
  forall w, R (db w) (db (snd (m w))).

(** A query record with [new] entries behind its conversation. *)
Definition appendConversation (new : list AgentMessage) (q : Query) : Query :=
  {| queryId := queryId q; rawQuery := rawQuery q;
     parsedRequirements := parsedRequirements q;
     agentConversation := (agentConversation q ++ new)%list;
     results := results q; status := status q;
     q_createdAt := q_createdAt q; q_completedAt := q_completedAt q |}.

(** The store [d'] is the store [d] where the query record found under
    [qid] has got the entries [new] behind its conversation, and where the
    embedding cache may have changed. *)
Definition Logged (qid : string) (new : list AgentMessage) (d d' : Db) : Prop :=
  experts d' = experts d
  /\ agent_tasks d' = agent_tasks d
  /\ cache_search_results d' = cache_search_results d
  /\ queries d'
     = updateFirst (hasQueryId qid) (appendConversation new) (queries d).

(** The entries of [new] are all written by [a]. *)
Definition writtenBy (a : AgentType) (new : list AgentMessage) : Prop :=
  Forall (fun m => agent m = a) new.

(** The query records and the task records that do not carry the
    identifiers of an invocation. *)
Definition otherQueries (qid : string) (l : list Query) : list Query :=
  filter (fun q => negb (hasQueryId qid q)) l.

Definition otherTasks (tid : string) (l : list AgentTask) : list AgentTask :=
  filter (fun k => negb (hasTaskId tid k)) l.

(** What an invocation may not do to the store: touch an expert, touch a
    record of another invocation, or drop a record. *)
Definition Isolated (self : OrchestratorAgent) (d d' : Db) : Prop :=
  experts d' = experts d
  /\ otherQueries (this_queryId self) (queries d')
     = otherQueries (this_queryId self) (queries d)
  /\ otherTasks (this_taskId self) (agent_tasks d')
     = otherTasks (this_taskId self) (agent_tasks d)
  /\ (length (queries d) <= length (queries d'))%nat
  /\ (length (agent_tasks d) <= length (agent_tasks d'))%nat.

(** Each cache holds at most one entry per hash. *)
Definition UniqueKeys (d : Db) : Prop :=
  NoDup (map queryHash (cache_search_results d))
  /\ NoDup (map textHash (cache_embeddings d)).

(** The entries that the stages of one run write: by the Analyst, then by
    the Scout, then by the Verifier, then by the Recommender. *)
Definition stageOrdered (new : list AgentMessage) : Prop :=
  exists nA nS nV nR,
    new = (nA ++ nS ++ nV ++ nR)%list
    /\ writtenBy analyst nA /\ writtenBy scout nS
    /\ writtenBy verifier nV /\ writtenBy recommender nR.

(** The test of the loop of [calculateSkillMatch]:
    [expertSkills.includes(req.name.toLowerCase())]. *)
Definition holdsSkill {E : Type} (O : Oracles E) (e : Expert) (req : Skill)
  : bool :=
  JS.includes (map (fun s => JS.toLowerCase (unicode O) (es_name s)) (skills e))
    (JS.toLowerCase (unicode O) (skill_name req)).

(** The outside of [Demo.oracles], with a store that rejects the call made
    at instant [n] and answers every other; each call on the store takes
    one instant. *)
Definition outageAt (n : nat) (s : Demo.Setup) : Oracles nat :=
  let O := Demo.oracles s in
  {| unicode := unicode O;
     FIREWORKS_API_KEY := FIREWORKS_API_KEY O;
     VOYAGE_API_KEY := VOYAGE_API_KEY O;
     Date_now := Date_now O;
     Math_random := Math_random O;
     uuidv4 := uuidv4 O;
     sha256_hex := sha256_hex O;
     JSON_parse := JSON_parse O;
     RegExp_valid := RegExp_valid O;
     regex_test := regex_test O;
     fireworks_fetch := fireworks_fetch O;
     voyage_fetch := voyage_fetch O;
     store_fault := fun e =>
       (if (e =? n)%nat then Some (Error "connection closed") else None, S e);
     vectorSearch := vectorSearch O |}.

(** ** The ranking, whatever the arithmetic of the score

    [RecommenderAgent.execute] with the score of a candidate as a
    parameter.  The code computes the score in double-precision arithmetic;
    [computeMatchScore] is that formula in exact arithmetic, and
    [RecommenderAgent_execute] is the instance at [computeMatchScore].  What
    is proved of [RecommenderAgent_executeWith] for every [score] holds of
    the ranking whatever numbers the arithmetic of the loop gives. *)

Section RankerWith.

Context {E : Type}.
Variable O : Oracles E.
Variable score : Expert -> number.

Fixpoint rankLoopWith (rawQuery : string) (candidates : list Expert)
  (matches : list ExpertMatch) : M E (list ExpertMatch) :=
  match candidates with
  | [] => ret matches
  | e :: rest =>
      explanation <- generateExplanation O rawQuery e (score e) ;;
      rankLoopWith rawQuery rest
        (matches ++ [ {| expert := e; matchScore := score e;
                         reasoning := explanation;
                         matchedBy := recommender |} ])%list
  end.

Definition RecommenderAgent_executeWith (qid : string)
  (candidates : list Expert) (rawQuery : string) : M E (list ExpertMatch) :=
  log O recommender qid "Ranking and explaining matches..." None ;;
  unsorted <- rankLoopWith rawQuery (firstn 5 candidates) [] ;;
  let matches := sort byScoreDescending unsorted in
  log O recommender qid
    ("Ranked " ++ JS.natToString (length matches) ++ " experts, top match: "
     ++ topName matches) None ;;
  ret matches.

End RankerWith.

(** ** [app/api/search/route.ts] *)

(** The [query] property of the request body: no such property, a string,
    or a value of another type. *)
Inductive QueryField :=
| Absent
| Text (s : string)
| NotText.

(** What [request.json()] resolves to: [null], or a value, of which the
    handler reads [query]. *)
Inductive RequestBody :=
| NullBody
| ValueBody (query : QueryField).

(** The documents that the handler answers with. *)
Inductive ResponseBody :=
| Failure (error : string) (details : option string)
| Success (result : PipelineResult).

(** [NextResponse.json(body, { status })]; the status is 200 when none is
    given. *)
Record NextResponse := { nr_body : ResponseBody; nr_status : nat }.

(** [String(error)] *)
Definition String_of (error : Exn) : string :=
  let '(nm, msg) :=
    match error with
    | Error msg => ("Error", msg)
    | SyntaxError msg => ("SyntaxError", msg)
    | TypeError msg => ("TypeError", msg)
    end in
  if JS.truthy msg then nm ++ ": " ++ msg else nm.

(** [const { query } = body] *)
Definition destructureQuery (body : RequestBody) : Completion QueryField :=
  match body with
  | NullBody =>
      Throw (TypeError
               "Cannot destructure property 'query' of 'body' as it is null.")
  | ValueBody query => Return query
  end.

Definition queryRequired : NextResponse :=
  {| nr_body := Failure "Query is required" None; nr_status := 400 |}.

Definition searchFailed (error : Exn) : NextResponse :=
  {| nr_body := Failure "Search failed" (Some (String_of error));
     nr_status := 500 |}.

Section Route.

Context {E : Type}.
Variable O : Oracles E.

(** [POST], on what [request.json()] completes with. *)
Definition POST (json : Completion RequestBody) : M E NextResponse :=
  try_catch
    (body <- lift json ;;
     query <- lift (destructureQuery body) ;;
     match query with
     | Text s =>
         if negb (JS.truthy s) then ret queryRequired
         else
           orchestrator <- OrchestratorAgent_new O ;;
           result <- processQuery O orchestrator s ;;
           ret {| nr_body := Success result; nr_status := 200 |}
     | _ => ret queryRequired
     end)
    (fun error => ret (searchFailed error)).

End Route.

(** * Properties *)

(** ** Reasoning in the monad *)

Section MonadFacts.

Context {E : Type}.

Lemma bind_Return {A B : Type} (m : M E A) (k : A -> M E B) w a w' :
  m w = (Return a, w') -> bind m k w = k a w'.
Proof. intros H. unfold bind. now rewrite H. Qed.

Lemma bind_Throw {A B : Type} (m : M E A) (k : A -> M E B) w e w' :
  m w = (Throw e, w') -> bind m k w = (Throw e, w').
Proof. intros H. unfold bind. now rewrite H. Qed.

Lemma bind_inv {A B : Type} (m : M E A) (k : A -> M E B) w r w' :
  bind m k w = (r, w') ->
  (exists a wa, m w = (Return a, wa) /\ k a wa = (r, w'))
  \/ (exists e, m w = (Throw e, w') /\ r = Throw e).
Proof.
  unfold bind. destruct (m w) as [[a|e] wa]; intros H.
  - left. now exists a, wa.
  - right. exists e. now inversion H.
Qed.

Lemma bind_Return_inv {A B : Type} (m : M E A) (k : A -> M E B) w b w' :
  bind m k w = (Return b, w') ->
  exists a wa, m w = (Return a, wa) /\ k a wa = (Return b, w').
Proof.
  intros H. apply bind_inv in H. destruct H as [H | (e & _ & H)].
  - exact H.
  - discriminate.
Qed.

Lemma try_catch_Return {A : Type} (m : M E A) h w a w' :
  m w = (Return a, w') -> try_catch m h w = (Return a, w').
Proof. intros H. unfold try_catch. now rewrite H. Qed.

Lemma try_catch_Throw {A : Type} (m : M E A) h w e w' :
  m w = (Throw e, w') -> try_catch m h w = h e w'.
Proof. intros H. unfold try_catch. now rewrite H. Qed.

End MonadFacts.

(** ** Lists *)

Lemma In_firstn {A : Type} (n : nat) (l : list A) (x : A) :
  In x (firstn n l) -> In x l.
Proof.
  intros H. rewrite <- (firstn_skipn n l). apply in_or_app. now left.
Qed.

(** ** Numbers *)

Lemma Qlt_bool_iff (x y : Q) : Qlt_bool x y = true <-> (x < y)%Q.
Proof.
  unfold Qlt_bool. rewrite negb_true_iff. split; intros H.
  - apply Qnot_le_lt. intros Hle. apply Qle_bool_iff in Hle. congruence.
  - destruct (Qle_bool y x) eqn:Hb; [|reflexivity].
    apply Qle_bool_iff in Hb. apply Qlt_not_le in H. contradiction.
Qed.

(** ** The Ranker's score *)

(** The loop of [calculateSkillMatch] keeps the matched weight between zero
    and the total weight. *)
Lemma skillLoop_bounds (U : JS.Unicode) (expertSkills : list string)
  (l : list Skill) (t m : Q) :
  (forall s, In s l -> 0 < weight s)%Q ->
  (0 <= m /\ m <= t)%Q ->
  let '(t', m') :=
    fold_left
      (fun '(total, matched) req =>
         (total + weight req,
          if JS.includes expertSkills (JS.toLowerCase U (skill_name req))
          then matched + weight req
          else matched)%Q)
      l (t, m) in
  (0 <= m' /\ m' <= t' /\ t <= t')%Q.
Proof.
  revert t m. induction l as [|s l IH]; intros t m Hw Hm; simpl.
  - lra.
  - assert (Hs : (0 < weight s)%Q) by (apply Hw; now left).
    specialize (IH (t + weight s)%Q
      (if JS.includes expertSkills (JS.toLowerCase U (skill_name s))
       then (m + weight s)%Q else m)).
    destruct (fold_left _ l _) as [t' m'].
    destruct IH as (H1 & H2 & H3).
    + intros; apply Hw; now right.
    + destruct (JS.includes _ _); lra.
    + lra.
Qed.

Lemma calculateSkillMatch_bounds {E : Type} (O : Oracles E) (e : Expert)
  (requirements : option Requirements) :
  (forall r s, requirements = Some r -> In s (req_skills r) -> 0 < weight s)%Q ->
  (0 <= calculateSkillMatch O e requirements <= 1)%Q.
Proof.
  intros Hw. unfold calculateSkillMatch.
  destruct requirements as [r|]; [|lra].
  destruct (length (req_skills r) =? 0)%nat; [lra|].
  pose proof (skillLoop_bounds (unicode O)
                (map (fun s => JS.toLowerCase (unicode O) (es_name s))
                   (skills e))
                (req_skills r) 0 0 (fun s => Hw r s eq_refl)) as H.
  destruct (fold_left _ _ _) as [t m].
  destruct H as (H1 & H2 & H3); [lra|].
  destruct (Qlt_bool 0 t) eqn:Ht; [|lra].
  apply Qlt_bool_iff in Ht. split.
  - apply Qle_shift_div_l; [assumption|lra].
  - apply Qle_shift_div_r; [assumption|lra].
Qed.

Lemma calculateRenownMatch_bounds {E : Type} (O : Oracles E) (e : Expert)
  (requirements : option Requirements) :
  (0 <= calculateRenownMatch O e requirements <= 1)%Q.
Proof.
  unfold calculateRenownMatch.
  destruct (renownConstraint requirements); [|lra].
  destruct (String.eqb _ "popular"); [destruct (actualRenown e); lra|].
  destruct (String.eqb _ "hidden"); [destruct (actualRenown e); lra|lra].
Qed.

(** The table of [calculateRenownMatch], by the constraint that
    [requirements?.constraints.find] returns and the classification that the
    function reads. *)
Lemma calculateRenownMatch_table {E : Type} (O : Oracles E) (e : Expert)
  (requirements : option Requirements) :
  calculateRenownMatch O e requirements
  = match renownConstraint requirements with
    | None => 0.5
    | Some c =>
        if String.eqb (JS.toLowerCase (unicode O) (c_value c)) "popular" then
          match actualRenown e with
          | Famous => 1.0 | Established => 0.8 | Rising => 0.4 | Hidden => 0.1
          end
        else if String.eqb (JS.toLowerCase (unicode O) (c_value c)) "hidden" then
          match actualRenown e with
          | Hidden => 1.0 | Rising => 0.7 | _ => 0.2
          end
        else 0.5
    end%Q.
Proof. reflexivity. Qed.

(** C4.  Renown lookup table.  When the renown constraint of the requirement
    set (the first constraint of type [renown]) has the value "popular",
    [calculateRenownMatch] is 1.0 for a candidate classified famous, 0.8 for
    established, 0.4 for rising and 0.1 otherwise; when it has the value
    "hidden", 1.0 for a candidate classified hidden, 0.7 for rising and 0.2
    otherwise; without a renown constraint it is 0.5.  The classification is
    the one the function reads, [expert.renownLevel || 'hidden'], which is
    the candidate's own classification whenever it has one; the value of the
    constraint is compared after lower-casing. *)
Theorem renownMatch_lookup_table {E : Type} (O : Oracles E) (e : Expert)
  (requirements : option Requirements) :
  (forall c,
      renownConstraint requirements = Some c ->
      JS.toLowerCase (unicode O) (c_value c) = "popular" ->
      calculateRenownMatch O e requirements
      = match actualRenown e with
        | Famous => 1.0
        | Established => 0.8
        | Rising => 0.4
        | Hidden => 0.1
        end%Q)
  /\ (forall c,
      renownConstraint requirements = Some c ->
      JS.toLowerCase (unicode O) (c_value c) = "hidden" ->
      calculateRenownMatch O e requirements
      = match actualRenown e with
        | Hidden => 1.0
        | Rising => 0.7
        | Established | Famous => 0.2
        end%Q)
  /\ (renownConstraint requirements = None ->
      calculateRenownMatch O e requirements = 0.5%Q)
  /\ (forall level, renownLevel e = Some level -> actualRenown e = level).
Proof.
  rewrite calculateRenownMatch_table.
  split; [|split; [|split]].
  - intros c Hc Hv. rewrite Hc, Hv. reflexivity.
  - intros c Hc Hv. rewrite Hc, Hv. simpl. destruct (actualRenown e); reflexivity.
  - intros Hc. rewrite Hc. reflexivity.
  - intros level Hlevel. unfold actualRenown. now rewrite Hlevel.
Qed.

Lemma renownMatch_lookup_table_witness :
  let O := Demo.oracles Demo.offline in
  calculateRenownMatch O Demo.ada (Some Demo.popularOnly) = 0.8%Q
  /\ calculateRenownMatch O Demo.ada (Some Demo.hiddenOnly) = 0.2%Q
  /\ calculateRenownMatch O Demo.ada (Some Demo.reactRequirements) = 0.5%Q.
Proof.
  intros O. split; [|split].
  - exact (proj1 (renownMatch_lookup_table O Demo.ada (Some Demo.popularOnly))
             _ eq_refl eq_refl).
  - exact (proj1 (proj2 (renownMatch_lookup_table O Demo.ada
                           (Some Demo.hiddenOnly)))
             _ eq_refl eq_refl).
  - exact (proj1 (proj2 (proj2 (renownMatch_lookup_table O Demo.ada
                                  (Some Demo.reactRequirements)))) eq_refl).
Defined.

(** C9.  A candidate without a renown classification is read as hidden: with
    a renown constraint of value "hidden" [calculateRenownMatch] is 1.0, with
    one of value "popular" it is 0.1. *)
Theorem absent_renown_is_hidden {E : Type} (O : Oracles E) (e : Expert)
  (requirements : option Requirements) (c : Constraint) :
  renownLevel e = None ->
  renownConstraint requirements = Some c ->
  actualRenown e = Hidden
  /\ (c_value c = "hidden" -> calculateRenownMatch O e requirements = 1.0%Q)
  /\ (c_value c = "popular" -> calculateRenownMatch O e requirements = 0.1%Q).
Proof.
  intros Hnone Hc.
  assert (Ha : actualRenown e = Hidden) by (unfold actualRenown; now rewrite Hnone).
  rewrite calculateRenownMatch_table, Hc, Ha.
  split; [reflexivity|].
  split; intros Hv; rewrite Hv; reflexivity.
Qed.

Lemma absent_renown_is_hidden_witness :
  let O := Demo.oracles Demo.offline in
  calculateRenownMatch O Demo.bo (Some Demo.hiddenOnly) = 1.0%Q
  /\ calculateRenownMatch O Demo.bo (Some Demo.popularOnly) = 0.1%Q.
Proof.
  intros O. split.
  - exact (proj1 (proj2 (absent_renown_is_hidden O Demo.bo
                           (Some Demo.hiddenOnly) _ eq_refl eq_refl)) eq_refl).
  - exact (proj2 (proj2 (absent_renown_is_hidden O Demo.bo
                           (Some Demo.popularOnly) _ eq_refl eq_refl)) eq_refl).
Defined.

(** C5.  Score bounds.  For every candidate and every requirement set whose
    skill weights lie in (0,1], the score
    [min(1, 0.7 * skillMatch + 0.3 * renownMatch + availabilityBonus)]
    lies in [0,1]. *)
Theorem matchScore_bounds {E : Type} (O : Oracles E) (e : Expert)
  (requirements : option Requirements) :
  (forall r s, requirements = Some r -> In s (req_skills r) ->
               0 < weight s /\ weight s <= 1)%Q ->
  (0 <= computeMatchScore O e requirements
   /\ computeMatchScore O e requirements <= 1)%Q.
Proof.
  intros Hw. unfold computeMatchScore.
  pose proof (calculateSkillMatch_bounds O e requirements
                (fun r s Hr Hs => proj1 (Hw r s Hr Hs))) as Hs.
  pose proof (calculateRenownMatch_bounds O e requirements) as Hr.
  split.
  - apply Q.min_glb; [lra|]. destruct (isAvailable e); lra.
  - apply Q.le_min_l.
Qed.

Lemma matchScore_bounds_witness :
  let O := Demo.oracles Demo.offline in
  (0 <= computeMatchScore O Demo.ada (Some Demo.reactRequirements)
   /\ computeMatchScore O Demo.ada (Some Demo.reactRequirements) <= 1)%Q.
Proof.
  intros O.
  apply (matchScore_bounds O Demo.ada (Some Demo.reactRequirements)).
  intros r s Hr Hs. injection Hr as <-.
  destruct Hs as [<- | []]. simpl. split; reflexivity || discriminate.
Defined.

(** ** The Analyst's fallback *)

Section Analyst.

Context {E : Type}.
Variable O : Oracles E.

(** The result of [parseQuery], by the outcome of its completion request
    and of [JSON.parse]. *)
Lemma parseQuery_cases (rawQuery : string) (w : World E) :
  parseQuery O rawQuery w
  = match parseQuery_chat O rawQuery w with
    | (Throw _, w') => (Return (defaultResult O rawQuery), w')
    | (Return response, w') =>
        match JSON_parse O response with
        | Throw _ => (Return (defaultResult O rawQuery), w')
        | Return parsed =>
            (Return
               {| req_skills :=
                    orDefault (p_skills parsed) (heuristicSkills O rawQuery);
                  req_constraints := orDefault (p_constraints parsed) [];
                  intent := orDefault (p_intent parsed) "technical_hire";
                  summary := orDefault (p_summary parsed) rawQuery |}, w')
        end
    end.
Proof.
  unfold parseQuery, try_catch, bind, lift, ret.
  destruct (parseQuery_chat O rawQuery w) as [[response|e] w']; [|reflexivity].
  destruct (JSON_parse O response); reflexivity.
Qed.

Lemma heuristicSkills_length (rawQuery : string) :
  (length (heuristicSkills O rawQuery) <= 3)%nat.
Proof.
  unfold heuristicSkills. rewrite length_map. apply firstn_le_length.
Qed.

Lemma heuristicSkills_In (rawQuery : string) (s : Skill) :
  In s (heuristicSkills O rawQuery) ->
  weight s = 0.8%Q
  /\ exists token,
       In token (JS.splitWhitespace (unicode O)
                   (JS.toLowerCase (unicode O) rawQuery))
       /\ (3 < JS.length (unicode O) token)%nat
       /\ JS.includes stopWords token = false
       /\ skill_name s
          = JS.toUpperCase (unicode O) (JS.charAt0 (unicode O) token)
            ++ JS.slice1 (unicode O) token.
Proof.
  unfold heuristicSkills. intros H.
  apply in_map_iff in H. destruct H as (token & <- & Hin).
  split; [reflexivity|]. exists token.
  apply In_firstn in Hin.
  apply filter_In in Hin. destruct Hin as (Hin & Hstop).
  apply filter_In in Hin. destruct Hin as (Hin & Hlen).
  repeat split.
  - exact Hin.
  - now apply Nat.ltb_lt.
  - now apply negb_true_iff.
Qed.

(** C8 (amended).  Fallback of the Analyst.  [parseQuery] never throws.
    When the completion request fails, or its answer does not parse,
    [parseQuery] returns the heuristic result: at most three skills of
    weight 0.8, each the capitalised form of a lower-cased word of the raw
    query that is longer than three code units and is no stop-word, with no
    constraint and the raw query as summary; lower-casing, splitting,
    counting and capitalising are those of the runtime, Unicode included.
    When the answer parses and its [skills] is not an array, the skills
    are the heuristic ones, while
    the constraints, the intent and the summary are each taken from the
    parsed answer when present.  For "Kubernetes expert" the heuristic
    skills are exactly Kubernetes with weight 0.8. *)
Theorem parseQuery_fallback (rawQuery : string) (w w' : World E)
  (c : Completion string) :
  parseQuery_chat O rawQuery w = (c, w') ->
  (exists r, parseQuery O rawQuery w = (Return r, w'))
  /\ (forall e, c = Throw e ->
        parseQuery O rawQuery w = (Return (defaultResult O rawQuery), w'))
  /\ (forall response e,
        c = Return response -> JSON_parse O response = Throw e ->
        parseQuery O rawQuery w = (Return (defaultResult O rawQuery), w'))
  /\ (forall response parsed,
        c = Return response -> JSON_parse O response = Return parsed ->
        p_skills parsed = None ->
        parseQuery O rawQuery w
        = (Return
             {| req_skills := heuristicSkills O rawQuery;
                req_constraints := orDefault (p_constraints parsed) [];
                intent := orDefault (p_intent parsed) "technical_hire";
                summary := orDefault (p_summary parsed) rawQuery |}, w'))
  /\ (req_skills (defaultResult O rawQuery) = heuristicSkills O rawQuery
      /\ req_constraints (defaultResult O rawQuery) = []
      /\ summary (defaultResult O rawQuery) = rawQuery
      /\ (length (heuristicSkills O rawQuery) <= 3)%nat
      /\ forall s, In s (heuristicSkills O rawQuery) ->
           weight s = 0.8%Q
           /\ exists token,
                In token (JS.splitWhitespace (unicode O)
                            (JS.toLowerCase (unicode O) rawQuery))
                /\ (3 < JS.length (unicode O) token)%nat
                /\ JS.includes stopWords token = false
                /\ skill_name s
                   = JS.toUpperCase (unicode O) (JS.charAt0 (unicode O) token)
                     ++ JS.slice1 (unicode O) token)
  /\ heuristicSkills O "Kubernetes expert"
     = [ {| skill_name := "Kubernetes"; weight := 0.8%Q |} ].
Proof.
  intros Hchat.
  pose proof (parseQuery_cases rawQuery w) as Hcases. rewrite Hchat in Hcases.
  split; [|split; [|split; [|split; [|split]]]].
  - destruct c as [response|e]; [destruct (JSON_parse O response)|];
      rewrite Hcases; eexists; reflexivity.
  - intros e ->. exact Hcases.
  - intros response e -> Hp. now rewrite Hp in Hcases.
  - intros response parsed -> Hp Hs. rewrite Hp, Hs in Hcases. exact Hcases.
  - repeat split; try reflexivity.
    + apply heuristicSkills_length.
    + apply (heuristicSkills_In rawQuery s H).
    + apply (heuristicSkills_In rawQuery s H).
  - reflexivity.
Qed.

End Analyst.

Lemma parseQuery_fallback_witness :
  parseQuery (Demo.oracles Demo.offline) "Kubernetes expert"
    (Demo.world Demo.emptyDb)
  = (Return {| req_skills := [ {| skill_name := "Kubernetes"; weight := 0.8%Q |} ];
               req_constraints := [];
               intent := "technical_hire";
               summary := "Kubernetes expert" |},
     Demo.world Demo.emptyDb)
  /\ parseQuery (Demo.oracles Demo.prose) "Kubernetes expert"
       (Demo.world Demo.emptyDb)
     = (Return (defaultResult (Demo.oracles Demo.prose) "Kubernetes expert"),
        {| db := Demo.emptyDb; ext := 1%nat |})
  /\ parseQuery (Demo.oracles Demo.looseJson) "Kubernetes expert"
       (Demo.world Demo.emptyDb)
     = (Return {| req_skills :=
                    heuristicSkills (Demo.oracles Demo.looseJson)
                      "Kubernetes expert";
                  req_constraints :=
                    [ {| c_type := "renown"; c_value := "popular" |} ];
                  intent := "technical_hire";
                  summary := "A well-known Kubernetes person" |},
        {| db := Demo.emptyDb; ext := 1%nat |})
  /\ parseQuery (Demo.oracles Demo.offline) "née ZÜRICH"
       (Demo.world Demo.emptyDb)
     = (Return {| req_skills := [ {| skill_name := "Zürich"; weight := 0.8%Q |} ];
                  req_constraints := [];
                  intent := "technical_hire";
                  summary := "née ZÜRICH" |},
        Demo.world Demo.emptyDb).
Proof.
  split; [|split; [|split]].
  - exact (proj1 (proj2 (parseQuery_fallback (Demo.oracles Demo.offline)
                           "Kubernetes expert" (Demo.world Demo.emptyDb)
                           (Demo.world Demo.emptyDb)
                           (Throw (Error "FIREWORKS_API_KEY not set"))
                           eq_refl))
             (Error "FIREWORKS_API_KEY not set") eq_refl).
  - exact (proj1 (proj2 (proj2 (parseQuery_fallback (Demo.oracles Demo.prose)
                           "Kubernetes expert" (Demo.world Demo.emptyDb)
                           {| db := Demo.emptyDb; ext := 1%nat |}
                           (Return "Strong match on the requested skills
Available this week")
                           eq_refl)))
             _ (SyntaxError "Unexpected token in JSON") eq_refl eq_refl).
  - exact (proj1 (proj2 (proj2 (proj2 (parseQuery_fallback
                           (Demo.oracles Demo.looseJson)
                           "Kubernetes expert" (Demo.world Demo.emptyDb)
                           {| db := Demo.emptyDb; ext := 1%nat |}
                           (Return Demo.looseJsonText)
                           eq_refl))))
             Demo.looseJsonText
             {| p_skills := None;
                p_constraints :=
                  Some [ {| c_type := "renown"; c_value := "popular" |} ];
                p_intent := None;
                p_summary := Some "A well-known Kubernetes person" |}
             eq_refl eq_refl eq_refl).
  - exact (proj1 (proj2 (parseQuery_fallback (Demo.oracles Demo.offline)
                           "née ZÜRICH" (Demo.world Demo.emptyDb)
                           (Demo.world Demo.emptyDb)
                           (Throw (Error "FIREWORKS_API_KEY not set"))
                           eq_refl))
             (Error "FIREWORKS_API_KEY not set") eq_refl).
Defined.

(** C8 as stated fails on an answer that parses and whose [skills] is not an
    array: with the provider of [Demo.looseJson] the constraints and the
    summary of the result are those of the answer, not the empty list and
    the raw query of the heuristic result. *)
Lemma parseQuery_nonarray_counterexample :
  let O := Demo.oracles Demo.looseJson in
  let w := Demo.world Demo.emptyDb in
  (exists parsed,
      fst (parseQuery_chat O "Kubernetes expert" w) = Return Demo.looseJsonText
      /\ JSON_parse O Demo.looseJsonText = Return parsed
      /\ p_skills parsed = None)
  /\ fst (parseQuery O "Kubernetes expert" w)
     = Return {| req_skills := [ {| skill_name := "Kubernetes"; weight := 0.8%Q |} ];
                 req_constraints := [ {| c_type := "renown"; c_value := "popular" |} ];
                 intent := "technical_hire";
                 summary := "A well-known Kubernetes person" |}
  /\ fst (parseQuery O "Kubernetes expert" w)
     <> Return (defaultResult O "Kubernetes expert").
Proof.
  cbv zeta. split; [|split].
  - eexists. split; [vm_compute; reflexivity|]. split; vm_compute; reflexivity.
  - vm_compute. reflexivity.
  - vm_compute. discriminate.
Qed.

(** ** The embedding cache *)

Section Embedding.

Context {E : Type}.
Variable O : Oracles E.

Lemma randomVector_spec (n : nat) (w : World E) :
  exists v w',
    randomVector O n w = (Return v, w') /\ length v = n /\ db w' = db w.
Proof.
  revert w. induction n as [|n IH]; intros w.
  - exists [], w. repeat split.
  - simpl. unfold bind, liftExt.
    destruct (Math_random O (ext w)) as [r e'].
    destruct (IH {| db := db w; ext := e' |}) as (v & w' & Hv & Hlen & Hdb).
    rewrite Hv. exists ((r * 2 - 1)%Q :: v), w'. simpl.
    repeat split; [now rewrite Hlen | exact Hdb].
Qed.

Lemma mockEmbedding_spec (w : World E) :
  exists v w',
    mockEmbedding O w = (Return v, w')
    /\ length v = 1024%nat /\ db w' = db w.
Proof. apply randomVector_spec. Qed.

#[local] Opaque mockEmbedding.

(** The [try] block either throws with the store as it found it, or returns
    a cached vector with the store as it found it, or returns a vector of
    the provider after storing it. *)
Lemma embedViaCache_outcome (txt : string) (w : World E) :
  match embedViaCache O txt w with
  | (Throw _, w') => db w' = db w
  | (Return v, w') =>
      (exists c, find (hasTextHash (sha256_hex O txt)) (cache_embeddings (db w))
                 = Some c /\ v = embedding c /\ db w' = db w)
      \/ (exists t,
            ProviderVector O v
            /\ db w' = with_cache_embeddings (db w)
                         (upsertFirst (hasTextHash (sha256_hex O txt))
                            (storedEmbedding O txt v t)
                            (cache_embeddings (db w))))
  end.
Proof.
  cbv beta zeta delta [embedViaCache bind getDb readDb writeDb storeCall
    callExt newDate liftExt lift ret throw].
  destruct (store_fault O (ext w)) as [[x|] e1]; [reflexivity|].
  cbn [db ext].
  destruct (store_fault O e1) as [[x|] e2]; [reflexivity|].
  cbn [db ext].
  destruct (find _ (cache_embeddings (db w))) as [c|] eqn:Hfind.
  { left. now exists c. }
  cbn [db ext].
  destruct (voyage_fetch O _ e2) as [[response|x] e3] eqn:Hfetch; [|reflexivity].
  destruct (ok response) eqn:Hok; cbn [negb]; [|reflexivity].
  destruct (body_json response) as [data|x] eqn:Hjson; [|reflexivity].
  destruct (firstEmbedding data) as [v|x] eqn:Hfirst; [|reflexivity].
  cbn [db ext].
  destruct (Date_now O e3) as [t e4].
  cbn [db ext].
  destruct (store_fault O e4) as [[x|] e5]; [reflexivity|].
  cbn [db ext].
  right. exists t. split; [|reflexivity].
  unfold ProviderVector. do 5 eexists. repeat split; eassumption.
Qed.

(** Every run of [generateEmbedding] returns a vector, and leaves the store
    as it found it unless it stores a vector of the provider. *)
Lemma generateEmbedding_outcome (txt : string) (w : World E) :
  exists v w',
    generateEmbedding O txt w = (Return v, w')
    /\ (db w' = db w
        \/ exists t,
             ProviderVector O v
             /\ db w' = with_cache_embeddings (db w)
                          (upsertFirst (hasTextHash (sha256_hex O txt))
                             (storedEmbedding O txt v t)
                             (cache_embeddings (db w)))).
Proof.
  assert (Hmock : forall w0, db w0 = db w ->
            exists v w', mockEmbedding O w0 = (Return v, w') /\ db w' = db w).
  { intros w0 H0. destruct (mockEmbedding_spec w0) as (v & w' & Hm & _ & Hdb).
    exists v, w'. split; [exact Hm | congruence]. }
  unfold generateEmbedding.
  destruct (JS.truthyOpt (VOYAGE_API_KEY O)).
  - unfold try_catch.
    pose proof (embedViaCache_outcome txt w) as Hout.
    destruct (embedViaCache O txt w) as [[v|x] w1].
    + exists v, w1. split; [reflexivity|].
      destruct Hout as [(c & _ & _ & Hdb) | Hout]; [now left | now right].
    + destruct (Hmock w1 Hout) as (v & w' & Hm & Hdb).
      exists v, w'. split; [exact Hm | now left].
  - destruct (Hmock w eq_refl) as (v & w' & Hm & Hdb).
    exists v, w'. split; [exact Hm | now left].
Qed.

Lemma Forall_updateFirst {A : Type} (P : A -> Prop) (p : A -> bool)
  (f : A -> A) (l : list A) :
  (forall x, P x -> P (f x)) -> Forall P l -> Forall P (updateFirst p f l).
Proof.
  intros Hf. induction 1 as [|x l Hx Hl IH]; simpl; [constructor|].
  destruct (p x); constructor; auto.
Qed.

Lemma Forall_upsertFirst {A : Type} (P : A -> Prop) (p : A -> bool)
  (doc : A) (l : list A) :
  P doc -> Forall P l -> Forall P (upsertFirst p doc l).
Proof.
  intros Hdoc Hl. unfold upsertFirst. destruct (existsb p l).
  - apply Forall_updateFirst; auto.
  - apply Forall_app. split; [exact Hl | now constructor].
Qed.

(** C10.  The embedding cache never receives a fallback vector.  Without a
    provider credential [generateEmbedding] is [mockEmbedding]: no call on
    the store, a vector of 1024 elements, the store as it was.  When the
    [try] block throws (the provider call or an access to the cache failed)
    the store is as it was and the result is the mock vector, again of 1024
    elements and without a write.  In every run a vector is returned, and the
    embedding cache is either unchanged or extended by an upsert of the
    returned vector, which then is a vector of a successful provider
    response; so a property that all provider vectors have holds of every
    entry of the cache after the run if it held before. *)
Theorem generateEmbedding_cache_clean (txt : string) (w : World E)
  (Genuine : list number -> Prop) :
  (forall v, ProviderVector O v -> Genuine v) ->
  Forall (fun c => Genuine (embedding c)) (cache_embeddings (db w)) ->
  (JS.truthyOpt (VOYAGE_API_KEY O) = false ->
     generateEmbedding O txt w = mockEmbedding O w
     /\ exists v w', mockEmbedding O w = (Return v, w')
                     /\ length v = 1024%nat /\ db w' = db w)
  /\ (forall x w1,
        JS.truthyOpt (VOYAGE_API_KEY O) = true ->
        embedViaCache O txt w = (Throw x, w1) ->
        db w1 = db w
        /\ generateEmbedding O txt w = mockEmbedding O w1
        /\ exists v w', mockEmbedding O w1 = (Return v, w')
                        /\ length v = 1024%nat /\ db w' = db w)
  /\ (exists v w',
        generateEmbedding O txt w = (Return v, w')
        /\ (cache_embeddings (db w') = cache_embeddings (db w)
            \/ exists t,
                 ProviderVector O v
                 /\ cache_embeddings (db w')
                    = upsertFirst (hasTextHash (sha256_hex O txt))
                        (storedEmbedding O txt v t) (cache_embeddings (db w)))
        /\ Forall (fun c => Genuine (embedding c)) (cache_embeddings (db w'))).
Proof.
  intros Hgen Hall. split; [|split].
  - intros Hkey. unfold generateEmbedding. rewrite Hkey.
    split; [reflexivity | apply mockEmbedding_spec].
  - intros x w1 Hkey Hthrow.
    pose proof (embedViaCache_outcome txt w) as Hout. rewrite Hthrow in Hout.
    split; [exact Hout|]. split.
    + unfold generateEmbedding, try_catch. now rewrite Hkey, Hthrow.
    + destruct (mockEmbedding_spec w1) as (v & w' & Hm & Hlen & Hdb).
      exists v, w'. repeat split; [exact Hm | exact Hlen | congruence].
  - destruct (generateEmbedding_outcome txt w) as (v & w' & Hrun & Hdb).
    exists v, w'. split; [exact Hrun|].
    destruct Hdb as [Hdb | (t & Hv & Hdb)]; rewrite Hdb.
    + split; [now left | exact Hall].
    + split.
      * right. now exists t.
      * apply Forall_upsertFirst; [|exact Hall]. apply Hgen, Hv.
Qed.

End Embedding.

Lemma generateEmbedding_cache_clean_witness :
  (generateEmbedding (Demo.oracles Demo.offline) "React developer"
     (Demo.world Demo.emptyDb)
   = mockEmbedding (Demo.oracles Demo.offline) (Demo.world Demo.emptyDb))
  /\ (generateEmbedding (Demo.oracles Demo.unreachable) "React developer"
        (Demo.world Demo.emptyDb)
      = mockEmbedding (Demo.oracles Demo.unreachable)
          {| db := Demo.emptyDb; ext := 1%nat |})
  /\ (exists v w',
        generateEmbedding (Demo.oracles Demo.embedded) "React developer"
          (Demo.world Demo.emptyDb) = (Return v, w')
        /\ Forall (fun c => embedding c = [0.25; -0.5; 0.125]%Q)
             (cache_embeddings (db w'))).
Proof.
  assert (Hgen : forall v,
             ProviderVector (Demo.oracles Demo.embedded) v ->
             v = [0.25; -0.5; 0.125]%Q).
  { intros v (request & e & response & e' & data & Hf & _ & Hj & Hv).
    injection Hf as <- _. injection Hj as <-. now injection Hv as <-. }
  split; [|split].
  - exact (proj1 (proj1 (generateEmbedding_cache_clean
                           (Demo.oracles Demo.offline) "React developer"
                           (Demo.world Demo.emptyDb) (fun _ => True)
                           (fun _ _ => I) (Forall_nil _)) eq_refl)).
  - exact (proj1 (proj2 (proj1 (proj2 (generateEmbedding_cache_clean
                           (Demo.oracles Demo.unreachable) "React developer"
                           (Demo.world Demo.emptyDb) (fun _ => True)
                           (fun _ _ => I) (Forall_nil _)))
             (Error "fetch failed") {| db := Demo.emptyDb; ext := 1%nat |}
             eq_refl eq_refl))).
  - destruct (proj2 (proj2 (generateEmbedding_cache_clean
                           (Demo.oracles Demo.embedded) "React developer"
                           (Demo.world Demo.emptyDb) _ Hgen (Forall_nil _))))
      as (v & w' & Hrun & _ & Hall).
    exists v, w'. split; [exact Hrun | exact Hall].
Defined.

(** ** What the stages leave alone *)

Lemma map_updateFirst {A B : Type} (g : A -> B) (p : A -> bool) (f : A -> A)
  (l : list A) :
  (forall x, g (f x) = g x) -> map g (updateFirst p f l) = map g l.
Proof.
  intros Hg. induction l as [|x l IH]; simpl; [reflexivity|].
  destruct (p x); simpl; [now rewrite Hg | now rewrite IH].
Qed.

Lemma StageFrame_refl (d : Db) : StageFrame d d.
Proof. repeat split. Qed.

Lemma StageFrame_trans (d1 d2 d3 : Db) :
  StageFrame d1 d2 -> StageFrame d2 d3 -> StageFrame d1 d3.
Proof.
  intros (A1 & A2 & A3 & A4 & A5) (B1 & B2 & B3 & B4 & B5).
  repeat split; congruence.
Qed.

Lemma StageFrame_eq (d d' : Db) : d' = d -> StageFrame d d'.
Proof. intros ->. apply StageFrame_refl. Qed.

Lemma StageFrame_pushConversation (d : Db) (qid : string) (m : AgentMessage) :
  StageFrame d
    (with_queries d
       (updateFirst (hasQueryId qid) (fun q => pushConversation q m) (queries d))).
Proof.
  repeat split; simpl; apply map_updateFirst; reflexivity.
Qed.

Lemma StageFrame_with_cache_embeddings (d : Db) (l : list EmbeddingCacheEntry) :
  StageFrame d (with_cache_embeddings d l).
Proof. repeat split. Qed.

Section Frames.

Context {E : Type}.
Variable O : Oracles E.

Lemma Preserves_ret {A : Type} (a : A) : Preserves (@ret E A a).
Proof. intros w. apply StageFrame_refl. Qed.

Lemma Preserves_throw {A : Type} (e : Exn) : Preserves (@throw E A e).
Proof. intros w. apply StageFrame_refl. Qed.

Lemma Preserves_lift {A : Type} (c : Completion A) : Preserves (@lift E A c).
Proof. intros w. apply StageFrame_refl. Qed.

Lemma Preserves_liftExt {A : Type} (f : E -> A * E) : Preserves (liftExt f).
Proof.
  intros w. unfold liftExt. destruct (f (ext w)). apply StageFrame_refl.
Qed.

Lemma Preserves_callExt {A : Type} (f : E -> Completion A * E) :
  Preserves (callExt f).
Proof.
  intros w. unfold callExt. destruct (f (ext w)). apply StageFrame_refl.
Qed.

Lemma Preserves_bind {A B : Type} (m : M E A) (k : A -> M E B) :
  Preserves m -> (forall a, Preserves (k a)) -> Preserves (bind m k).
Proof.
  intros Hm Hk w. unfold bind. specialize (Hm w).
  destruct (m w) as [[a|e] w1]; simpl in *; [|exact Hm].
  eapply StageFrame_trans; [exact Hm | apply Hk].
Qed.

Lemma Preserves_try_catch {A : Type} (m : M E A) (h : Exn -> M E A) :
  Preserves m -> (forall e, Preserves (h e)) -> Preserves (try_catch m h).
Proof.
  intros Hm Hh w. unfold try_catch. specialize (Hm w).
  destruct (m w) as [[a|e] w1]; simpl in *; [exact Hm|].
  eapply StageFrame_trans; [exact Hm | apply Hh].
Qed.

Lemma Preserves_storeCall : Preserves (storeCall O).
Proof.
  intros w. unfold storeCall. destruct (store_fault O (ext w)) as [[e|] e'];
    apply StageFrame_refl.
Qed.

Lemma Preserves_readDb {A : Type} (f : Db -> A) : Preserves (readDb O f).
Proof.
  apply Preserves_bind; [apply Preserves_storeCall|].
  intros _ w. apply StageFrame_refl.
Qed.

Lemma Preserves_writeDb (f : Db -> Db) :
  (forall d, StageFrame d (f d)) -> Preserves (writeDb O f).
Proof.
  intros Hf. apply Preserves_bind; [apply Preserves_storeCall|].
  intros _ w. apply Hf.
Qed.

Lemma Preserves_log agentType qid msg payload :
  Preserves (log O agentType qid msg payload).
Proof.
  unfold log, getDb, newDate.
  apply Preserves_bind; [apply Preserves_storeCall | intros _].
  apply Preserves_bind; [apply Preserves_liftExt | intros t].
  apply Preserves_writeDb. intros d. apply StageFrame_pushConversation.
Qed.

Lemma Preserves_chat messages options : Preserves (chat O messages options).
Proof.
  unfold chat. destruct (JS.truthyOpt _); [|apply Preserves_throw].
  apply Preserves_bind; [apply Preserves_callExt | intros response].
  destruct (negb (ok response)).
  - apply Preserves_bind; [apply Preserves_lift | intros; apply Preserves_throw].
  - apply Preserves_bind; [apply Preserves_lift | intros; apply Preserves_ret].
Qed.

Lemma Preserves_parseQuery rawQuery : Preserves (parseQuery O rawQuery).
Proof.
  unfold parseQuery, parseQuery_chat.
  apply Preserves_try_catch; [|intros; apply Preserves_ret].
  apply Preserves_bind; [apply Preserves_chat | intros response].
  apply Preserves_bind; [apply Preserves_lift | intros; apply Preserves_ret].
Qed.

Lemma Preserves_generateExplanation query e score :
  Preserves (generateExplanation O query e score).
Proof.
  unfold generateExplanation.
  apply Preserves_bind; [apply Preserves_chat | intros; apply Preserves_ret].
Qed.

Lemma Preserves_generateEmbedding txt : Preserves (generateEmbedding O txt).
Proof.
  intros w. destruct (generateEmbedding_outcome O txt w)
    as (v & w' & Hrun & [Hdb | (t & _ & Hdb)]); rewrite Hrun; simpl; rewrite Hdb.
  - apply StageFrame_refl.
  - apply StageFrame_with_cache_embeddings.
Qed.

Lemma Preserves_QueryAnalystAgent_execute qid rawQuery :
  Preserves (QueryAnalystAgent_execute O qid rawQuery).
Proof.
  unfold QueryAnalystAgent_execute.
  apply Preserves_bind; [apply Preserves_log | intros _].
  apply Preserves_bind; [apply Preserves_parseQuery | intros requirements].
  apply Preserves_bind; [apply Preserves_log | intros; apply Preserves_ret].
Qed.

Lemma Preserves_aggregate stage matchStage :
  Preserves (aggregate O stage matchStage).
Proof.
  unfold aggregate.
  apply Preserves_bind; [apply Preserves_storeCall | intros _].
  apply Preserves_bind; [|intros; apply Preserves_ret].
  intros w. apply (Preserves_callExt (vectorSearch O (experts (db w)) stage)).
Qed.

Lemma Preserves_vectorAttempt qid requirements queryEmbedding :
  Preserves (vectorAttempt O qid requirements queryEmbedding).
Proof.
  unfold vectorAttempt. cbv zeta.
  apply Preserves_bind.
  - destruct (renownConstraint requirements) as [c|]; [|apply Preserves_ret].
    destruct (renownFilter _); [|apply Preserves_ret].
    apply Preserves_bind; [apply Preserves_log | intros; apply Preserves_ret].
  - intros matchStage.
    apply Preserves_bind; [apply Preserves_aggregate | intros results].
    destruct (0 <? length results)%nat; [|apply Preserves_ret].
    apply Preserves_bind; [apply Preserves_log | intros; apply Preserves_ret].
Qed.

Lemma Preserves_textSearch qid requirements :
  Preserves (textSearch O qid requirements).
Proof.
  unfold textSearch. cbv zeta.
  apply Preserves_bind; [apply Preserves_lift | intros query].
  apply Preserves_bind; [apply Preserves_readDb | intros found].
  apply Preserves_bind; [apply Preserves_log | intros; apply Preserves_ret].
Qed.

Lemma Preserves_ProfileScoutAgent_execute qid requirements rawQuery :
  Preserves (ProfileScoutAgent_execute O qid requirements rawQuery).
Proof.
  unfold ProfileScoutAgent_execute, getDb, generateQueryEmbedding.
  apply Preserves_bind; [apply Preserves_log | intros _].
  apply Preserves_bind; [apply Preserves_storeCall | intros _].
  apply Preserves_bind; [apply Preserves_generateEmbedding | intros v].
  apply Preserves_bind.
  - apply Preserves_try_catch; [apply Preserves_vectorAttempt|].
    intros; apply Preserves_ret.
  - intros [results|]; [apply Preserves_ret | apply Preserves_textSearch].
Qed.

Lemma Preserves_VerifierAgent_execute qid candidates :
  Preserves (VerifierAgent_execute O qid candidates).
Proof.
  unfold VerifierAgent_execute. cbv zeta.
  apply Preserves_bind; [apply Preserves_log | intros _].
  apply Preserves_bind; [apply Preserves_log | intros; apply Preserves_ret].
Qed.

Lemma Preserves_rankLoop rawQuery requirements candidates matches :
  Preserves (rankLoop O rawQuery requirements candidates matches).
Proof.
  revert matches. induction candidates as [|e rest IH]; intros matches; simpl.
  - apply Preserves_ret.
  - apply Preserves_bind; [apply Preserves_generateExplanation|].
    intros explanation. apply IH.
Qed.

Lemma Preserves_RecommenderAgent_execute qid candidates rawQuery requirements :
  Preserves (RecommenderAgent_execute O qid candidates rawQuery requirements).
Proof.
  unfold RecommenderAgent_execute.
  apply Preserves_bind; [apply Preserves_log | intros _].
  apply Preserves_bind; [apply Preserves_rankLoop | intros unsorted].
  cbv zeta.
  apply Preserves_bind; [apply Preserves_log | intros; apply Preserves_ret].
Qed.

Lemma Preserves_runStages self rawQuery : Preserves (runStages O self rawQuery).
Proof.
  unfold runStages.
  apply Preserves_bind; [apply Preserves_QueryAnalystAgent_execute|].
  intros requirements.
  apply Preserves_bind; [apply Preserves_ProfileScoutAgent_execute|].
  intros candidates.
  apply Preserves_bind; [apply Preserves_VerifierAgent_execute|].
  intros verifiedCandidates.
  apply Preserves_bind; [apply Preserves_RecommenderAgent_execute|].
  intros; apply Preserves_ret.
Qed.

End Frames.

(** ** The orchestrator *)

Lemma find_updateFirst {A : Type} (p : A -> bool) (f : A -> A) (l : list A) (x : A) :
  find p l = Some x -> p (f x) = true ->
  find p (updateFirst p f l) = Some (f x).
Proof.
  intros Hfind Hfx. induction l as [|y l IH]; simpl in *; [discriminate|].
  destruct (p y) eqn:Hy; simpl.
  - injection Hfind as ->. now rewrite Hfx.
  - rewrite Hy. now apply IH.
Qed.

Lemma find_app_new {A : Type} (p : A -> bool) (l : list A) (x : A) :
  existsb p l = false -> p x = true -> find p (l ++ [x]) = Some x.
Proof.
  induction l as [|y l IH]; simpl; intros Hl Hx.
  - now rewrite Hx.
  - apply orb_false_iff in Hl. destruct Hl as (Hy & Hl).
    rewrite Hy. now apply IH.
Qed.

Lemma find_app_old {A : Type} (p : A -> bool) (l l' : list A) (x : A) :
  find p l = Some x -> find p (l ++ l') = Some x.
Proof.
  induction l as [|y l IH]; simpl; [discriminate|].
  destruct (p y); [trivial | exact IH].
Qed.

Lemma existsb_find {A : Type} (p : A -> bool) (l : list A) :
  existsb p l = true -> exists x, find p l = Some x.
Proof.
  induction l as [|y l IH]; simpl; [discriminate|].
  destruct (p y); [now exists y | exact IH].
Qed.

Lemma find_upsertFirst {A : Type} (p : A -> bool) (doc : A) (l : list A) :
  p doc = true -> find p (upsertFirst p doc l) = Some doc.
Proof.
  intros Hdoc. unfold upsertFirst. destruct (existsb p l) eqn:Hex.
  - destruct (existsb_find p l Hex) as (x & Hx).
    now apply (find_updateFirst p (fun _ => doc) l x).
  - now apply find_app_new.
Qed.

(** The first document that satisfies [p] is also the first that satisfies
    [p] and [q], when it satisfies [q]. *)
Lemma find_refine {A : Type} (p q : A -> bool) (l : list A) (x : A) :
  find p l = Some x -> q x = true ->
  find (fun y => p y && q y) l = Some x.
Proof.
  induction l as [|y l IH]; simpl; [discriminate|].
  destruct (p y) eqn:Hy; simpl.
  - intros [= ->] Hq. now rewrite Hq.
  - exact IH.
Qed.

Lemma find_same_keys {A : Type} (key : A -> string) (k : string)
  (l l' : list A) (x : A) :
  map key l' = map key l ->
  find (fun y => String.eqb (key y) k) l = Some x ->
  exists x', find (fun y => String.eqb (key y) k) l' = Some x'.
Proof.
  revert l'. induction l as [|y l IH]; intros [|y' l']; simpl;
    try discriminate.
  intros [= Hy Hl]. rewrite Hy.
  destruct (String.eqb (key y) k); [now exists y' | now apply IH].
Qed.

Section Orchestrator.

Context {E : Type}.
Variable O : Oracles E.

Lemma storeCall_ok (w : World E) (e' : E) :
  store_fault O (ext w) = (None, e') ->
  storeCall O w = (Return tt, {| db := db w; ext := e' |}).
Proof. intros H. unfold storeCall. now rewrite H. Qed.

Lemma storeCall_db (w : World E) : db (snd (storeCall O w)) = db w.
Proof.
  unfold storeCall. now destruct (store_fault O (ext w)) as [[e|] e'].
Qed.

Lemma newDate_eq (w : World E) (t : Date) (e' : E) :
  Date_now O (ext w) = (t, e') ->
  newDate O w = (Return t, {| db := db w; ext := e' |}).
Proof. intros H. unfold newDate, liftExt. now rewrite H. Qed.

(** The cache check changes no collection. *)
Lemma cacheCheck_db (hash : string) (w w' : World E)
  (r : Completion (option SearchCacheEntry)) :
  (getDb O ;; findCachedResult O hash) w = (r, w') -> db w' = db w.
Proof.
  cbv beta delta [bind getDb storeCall findCachedResult newDate liftExt
    readDb].
  destruct (store_fault O (ext w)) as [[x|] e1]; [now intros [= _ <-]|].
  cbn [db ext]. destruct (Date_now O e1) as [now e2]. cbn [db ext].
  destruct (store_fault O e2) as [[x|] e3]; now intros [= _ <-].
Qed.

(** The cache-hit path, step by step: [getDb] resolves, the clock is read
    for the guard, [findOne] resolves with the first unexpired entry of this
    hash, the clock is read for the marker. *)
Lemma processQuery_hit (self : OrchestratorAgent) (rawQuery : string)
  (w : World E) (e1 e2 e3 e4 : E) (now t : Date) (c : SearchCacheEntry) :
  store_fault O (ext w) = (None, e1) ->
  Date_now O e1 = (now, e2) ->
  store_fault O e2 = (None, e3) ->
  find (unexpired (computeQueryHash O rawQuery) now)
    (cache_search_results (db w)) = Some c ->
  Date_now O e3 = (t, e4) ->
  processQuery O self rawQuery w
  = (Return {| r_queryId := r_queryId (result c);
               r_matches := r_matches (result c);
               r_conversation :=
                 cacheHitMessage t :: r_conversation (result c) |},
     {| db := db w; ext := e4 |}).
Proof.
  intros H1 H2 H3 Hfind H4.
  cbv beta zeta delta [processQuery bind getDb storeCall findCachedResult
    newDate liftExt readDb try_catch].
  rewrite H1. cbn [db ext]. rewrite H2. cbn [db ext]. rewrite H3.
  cbn [db ext]. rewrite Hfind.
  cbv beta delta [cacheHit bind newDate liftExt ret]. cbn [db ext].
  rewrite H4. reflexivity.
Qed.

Lemma onError_throws (self : OrchestratorAgent) (error : Exn) (w : World E) :
  exists e' w', onError O self error w = (Throw e', w').
Proof.
  cbv beta delta [onError bind writeDb storeCall throw].
  destruct (store_fault O (ext w)) as [[x|] e1]; eexists _, _; reflexivity.
Qed.

(** [createRecords], when it returns, has appended one query record and one
    task record and nothing else. *)
Lemma createRecords_inv (self : OrchestratorAgent) (rawQuery : string)
  (w w' : World E) :
  createRecords O self rawQuery w = (Return tt, w') ->
  exists t t',
    db w' = with_agent_tasks
              (with_queries (db w) (queries (db w) ++ [newQuery self rawQuery t]))
              (agent_tasks (db w) ++ [newTask self t']).
Proof.
  cbv beta delta [createRecords bind writeDb storeCall newDate liftExt].
  destruct (Date_now O (ext w)) as [t e1]. cbn [db ext].
  destruct (store_fault O e1) as [[x|] e2]; [discriminate|]. cbn [db ext].
  destruct (Date_now O e2) as [t' e3]. cbn [db ext].
  destruct (store_fault O e3) as [[x|] e4]; [discriminate|]. cbn [db ext].
  intros [= <-]. now exists t, t'.
Qed.

(** [finish], when it returns, has put its result in the result cache under
    the hash, expiring one hour after a clock reading. *)
Lemma finish_inv (self : OrchestratorAgent) (rawQuery hash : string)
  (requirements : Requirements) (matches : list ExpertMatch)
  (w w' : World E) (r : PipelineResult) :
  finish O self rawQuery hash requirements matches w = (Return r, w') ->
  r_queryId r = this_queryId self
  /\ r_matches r = map safeMatch matches
  /\ exists created now,
       cache_search_results (db w')
       = upsertFirst (hasQueryHash hash)
           {| queryHash := hash; originalQuery := rawQuery; result := r;
              sc_createdAt := created;
              expiresAt := (now + 60 * 60 * 1000)%Z |}
           (cache_search_results (db w)).
Proof.
  cbv beta zeta delta [finish bind writeDb readDb storeCall newDate liftExt ret].
  destruct (Date_now O (ext w)) as [t1 e1]. cbn [db ext].
  destruct (store_fault O e1) as [[x|] e2]; [discriminate|]. cbn [db ext].
  destruct (Date_now O e2) as [t2 e3]. cbn [db ext].
  destruct (store_fault O e3) as [[x|] e4]; [discriminate|]. cbn [db ext].
  destruct (store_fault O e4) as [[x|] e5]; [discriminate|]. cbn [db ext].
  destruct (Date_now O e5) as [created e6]. cbn [db ext].
  destruct (Date_now O e6) as [now e7]. cbn [db ext].
  destruct (store_fault O e7) as [[x|] e8]; [discriminate|]. cbn [db ext].
  intros [= <- <-]. cbn.
  split; [reflexivity|]. split; [reflexivity|].
  now exists created, now.
Qed.

(** An invocation that misses the cache and returns has run the full
    inference to its end. *)
Lemma processQuery_miss_inv (self : OrchestratorAgent) (rawQuery : string)
  (w w' : World E) (r : PipelineResult) :
  fst ((getDb O ;; findCachedResult O (computeQueryHash O rawQuery)) w)
  = Return None ->
  processQuery O self rawQuery w = (Return r, w') ->
  exists requirements matches w1,
    finish O self rawQuery (computeQueryHash O rawQuery) requirements matches w1
    = (Return r, w').
Proof.
  unfold processQuery. cbv zeta.
  unfold bind at 1 2.
  destruct (getDb O w) as [[[]|x] wa]; [|discriminate].
  intros Hmiss. unfold try_catch, bind at 1.
  destruct (findCachedResult O (computeQueryHash O rawQuery) wa)
    as [found wb]. cbn [fst] in Hmiss. subst found.
  destruct (fullInference O self rawQuery (computeQueryHash O rawQuery) wb)
    as [[r'|x] wc] eqn:Hfull.
  - intros [= <- <-]. unfold fullInference in Hfull.
    apply bind_Return_inv in Hfull. destruct Hfull as ([] & w1 & _ & Hfull).
    apply bind_Return_inv in Hfull. destruct Hfull as (staged & w2 & _ & Hfull).
    now exists (fst staged), (snd staged), w2.
  - destruct (onError_throws self x wc) as (e' & w'' & ->). discriminate.
Qed.

End Orchestrator.

Section Pipeline.

Context {E : Type}.
Variable O : Oracles E.

(** C7.  Cache hit.  When the cache check of [processQuery] succeeds --
    [getDb] resolves, the clock reads [now], [findOne] resolves with an entry
    [c] of this query hash whose expiry is later than [now] -- the invocation
    returns the payload of [c] with one orchestrator entry in front of its
    conversation and nothing else changed; every collection of the store,
    and so every Query Record and Task Record, is as it was; the outside has
    only seen the two store calls and two clock readings, so no stage ran. *)
Theorem cache_hit_bypasses_pipeline (self : OrchestratorAgent)
  (rawQuery : string) (w : World E) (e1 e2 e3 e4 : E) (now t : Date)
  (c : SearchCacheEntry) :
  store_fault O (ext w) = (None, e1) ->
  Date_now O e1 = (now, e2) ->
  store_fault O e2 = (None, e3) ->
  find (unexpired (computeQueryHash O rawQuery) now)
    (cache_search_results (db w)) = Some c ->
  Date_now O e3 = (t, e4) ->
  (In c (cache_search_results (db w))
   /\ queryHash c = computeQueryHash O rawQuery
   /\ (now < expiresAt c)%Z)
  /\ exists w',
       processQuery O self rawQuery w
       = (Return {| r_queryId := r_queryId (result c);
                    r_matches := r_matches (result c);
                    r_conversation :=
                      {| agent := orchestrator;
                         message := "Retrieved optimized results from lightning cache.";
                         data := None;
                         timestamp := t |} :: r_conversation (result c) |},
          w')
       /\ db w' = db w
       /\ queries (db w') = queries (db w)
       /\ agent_tasks (db w') = agent_tasks (db w)
       /\ ext w' = e4.
Proof.
  intros H1 H2 H3 Hfind H4. split.
  - destruct (find_some _ _ Hfind) as (Hin & Hun).
    unfold unexpired in Hun. apply andb_true_iff in Hun.
    destruct Hun as (Hh & Ht).
    split; [exact Hin|]. split; [now apply String.eqb_eq | now apply Z.ltb_lt].
  - exists {| db := db w; ext := e4 |}.
    split; [exact (processQuery_hit O self rawQuery w e1 e2 e3 e4 now t c
                     H1 H2 H3 Hfind H4)|].
    repeat split.
Qed.

(** C1.  Cache determinism.  Two query texts that are equal after trimming
    and lower-casing, as the runtime trims and lower-cases (Unicode white
    space and case included), have the same query hash.  If a first invocation misses
    the cache and returns [r1], the result cache then holds under that hash
    an entry whose payload is [r1]; and a second invocation, for the other
    text, that finds this entry under the hash while its expiry is later than
    the clock reading of its cache check, returns the matches of [r1]
    unchanged, the identifier of [r1], and the conversation of [r1] behind
    one orchestrator entry. *)
Theorem cache_determinism (self1 self2 : OrchestratorAgent) (q1 q2 : string) :
  JS.toLowerCase (unicode O) (JS.trim (unicode O) q1)
  = JS.toLowerCase (unicode O) (JS.trim (unicode O) q2) ->
  computeQueryHash O q1 = computeQueryHash O q2
  /\ forall (w0 w1 : World E) (r1 : PipelineResult),
       fst ((getDb O ;; findCachedResult O (computeQueryHash O q1)) w0)
       = Return None ->
       processQuery O self1 q1 w0 = (Return r1, w1) ->
       exists created now0,
         let c := {| queryHash := computeQueryHash O q1;
                     originalQuery := q1;
                     result := r1;
                     sc_createdAt := created;
                     expiresAt := (now0 + 60 * 60 * 1000)%Z |} in
         find (hasQueryHash (computeQueryHash O q1))
           (cache_search_results (db w1)) = Some c
         /\ forall (w2 : World E) (e1 e2 e3 e4 : E) (now t : Date),
              find (hasQueryHash (computeQueryHash O q1))
                (cache_search_results (db w2)) = Some c ->
              store_fault O (ext w2) = (None, e1) ->
              Date_now O e1 = (now, e2) ->
              store_fault O e2 = (None, e3) ->
              (now < expiresAt c)%Z ->
              Date_now O e3 = (t, e4) ->
              processQuery O self2 q2 w2
              = (Return {| r_queryId := r_queryId r1;
                           r_matches := r_matches r1;
                           r_conversation :=
                             cacheHitMessage t :: r_conversation r1 |},
                 {| db := db w2; ext := e4 |}).
Proof.
  intros Hnorm.
  assert (Hhash : computeQueryHash O q1 = computeQueryHash O q2)
    by (unfold computeQueryHash; now rewrite Hnorm).
  split; [exact Hhash|].
  intros w0 w1 r1 Hmiss Hrun.
  destruct (processQuery_miss_inv O self1 q1 w0 w1 r1 Hmiss Hrun)
    as (requirements & matches & wa & Hfinish).
  destruct (finish_inv O self1 q1 _ requirements matches wa w1 r1 Hfinish)
    as (_ & _ & created & now0 & Hcache).
  exists created, now0. cbv zeta. split.
  - rewrite Hcache. apply find_upsertFirst.
    unfold hasQueryHash. cbn. apply String.eqb_refl.
  - intros w2 e1 e2 e3 e4 now t Hentry H1 H2 H3 Hfresh H4.
    assert (Hfind : find (unexpired (computeQueryHash O q2) now)
                      (cache_search_results (db w2))
                    = Some {| queryHash := computeQueryHash O q1;
                              originalQuery := q1; result := r1;
                              sc_createdAt := created;
                              expiresAt := (now0 + 60 * 60 * 1000)%Z |}).
    { rewrite <- Hhash.
      apply (find_refine (hasQueryHash (computeQueryHash O q1))
               (fun c => (now <? expiresAt c)%Z)); [exact Hentry|].
      now apply Z.ltb_lt. }
    exact (processQuery_hit O self2 q2 w2 e1 e2 e3 e4 now t _
             H1 H2 H3 Hfind H4).
Qed.

(** [runStages] throws exactly when one of the four stages throws, the ones
    before it having returned. *)
Lemma runStages_throws_iff (self : OrchestratorAgent) (rawQuery : string)
  (w w' : World E) (error : Exn) :
  runStages O self rawQuery w = (Throw error, w') <->
  QueryAnalystAgent_execute O (this_queryId self) rawQuery w = (Throw error, w')
  \/ exists requirements wa,
       QueryAnalystAgent_execute O (this_queryId self) rawQuery w
       = (Return requirements, wa)
       /\ (ProfileScoutAgent_execute O (this_queryId self) (Some requirements)
             rawQuery wa = (Throw error, w')
           \/ exists candidates wb,
                ProfileScoutAgent_execute O (this_queryId self)
                  (Some requirements) rawQuery wa = (Return candidates, wb)
                /\ (VerifierAgent_execute O (this_queryId self) candidates wb
                    = (Throw error, w')
                    \/ exists verifiedCandidates wc,
                         VerifierAgent_execute O (this_queryId self)
                           candidates wb = (Return verifiedCandidates, wc)
                         /\ RecommenderAgent_execute O (this_queryId self)
                              verifiedCandidates rawQuery (Some requirements) wc
                            = (Throw error, w'))).
Proof.
  unfold runStages. split.
  - intros H. apply bind_inv in H.
    destruct H as [(requirements & wa & Ha & H) | (e & Ha & [= ->])];
      [|now left].
    right. exists requirements, wa. split; [exact Ha|].
    apply bind_inv in H.
    destruct H as [(candidates & wb & Hb & H) | (e & Hb & [= ->])];
      [|now left].
    right. exists candidates, wb. split; [exact Hb|].
    apply bind_inv in H.
    destruct H as [(verifiedCandidates & wc & Hc & H) | (e & Hc & [= ->])];
      [|now left].
    right. exists verifiedCandidates, wc. split; [exact Hc|].
    apply bind_inv in H.
    destruct H as [(matches & wd & Hd & H) | (e & Hd & [= ->])];
      [discriminate | exact Hd].
  - intros [Ha | (requirements & wa & Ha & H)].
    + now apply bind_Throw.
    + rewrite (bind_Return _ _ _ _ _ Ha).
      destruct H as [Hb | (candidates & wb & Hb & H)];
        [now apply bind_Throw|].
      rewrite (bind_Return _ _ _ _ _ Hb).
      destruct H as [Hc | (verifiedCandidates & wc & Hc & Hd)];
        [now apply bind_Throw|].
      rewrite (bind_Return _ _ _ _ _ Hc).
      now apply bind_Throw.
Qed.

Lemma find_app_some {A : Type} (p : A -> bool) (l : list A) (x : A) :
  p x = true -> exists y, find p (l ++ [x]) = Some y.
Proof.
  intros Hx. destruct (existsb p l) eqn:Hex.
  - destruct (existsb_find p l Hex) as (y & Hy).
    exists y. now apply find_app_old.
  - exists x. now apply find_app_new.
Qed.

(** C2 (amended).  Failure of a stage.  When the invocation has missed the
    cache and inserted its Query Record and its Task Record, and the
    sequence of the four stages throws [error] (the Analyst, the Scout, the
    Verifier or the Recommender, see [runStages_throws_iff]), and the store
    takes the update of the [catch] block, then [processQuery] throws the
    same [error]; the Query Record found under the invocation's identifier
    has status failed; the task records are those of the start followed by
    the invocation's Task Record as it was inserted, in progress; and the
    result cache is the one of the start. *)
Theorem stage_failure_marks_query_failed (self : OrchestratorAgent)
  (rawQuery : string) (w0 w1 w2 w3 : World E) (error : Exn) (e4 : E) :
  (getDb O ;; findCachedResult O (computeQueryHash O rawQuery)) w0
  = (Return None, w1) ->
  createRecords O self rawQuery w1 = (Return tt, w2) ->
  runStages O self rawQuery w2 = (Throw error, w3) ->
  store_fault O (ext w3) = (None, e4) ->
  exists w4,
    processQuery O self rawQuery w0 = (Throw error, w4)
    /\ (exists q,
          find (hasQueryId (this_queryId self)) (queries (db w4)) = Some q
          /\ status q = Failed)
    /\ (exists t,
          agent_tasks (db w4) = (agent_tasks (db w0) ++ [newTask self t])%list
          /\ t_status (newTask self t) = InProgress)
    /\ cache_search_results (db w4) = cache_search_results (db w0).
Proof.
  intros Hcheck Hcreate Hstages Hstore.
  pose proof (cacheCheck_db O _ _ _ _ Hcheck) as Hdb1.
  destruct (createRecords_inv O self rawQuery w1 w2 Hcreate) as (t & t' & Hdb2).
  pose proof (Preserves_runStages O self rawQuery w2) as Hframe.
  rewrite Hstages in Hframe. cbn [snd] in Hframe.
  destruct Hframe as (_ & Htasks & Hcache & Hids & _).
  exists {| db := with_queries (db w3)
                    (updateFirst (hasQueryId (this_queryId self)) failQuery
                       (queries (db w3)));
            ext := e4 |}.
  split; [|split; [|split]].
  - apply bind_inv in Hcheck.
    destruct Hcheck as [([] & wa & Hget & Hfind) | (e & _ & [=])].
    unfold processQuery. rewrite (bind_Return _ _ _ _ _ Hget). cbv zeta.
    unfold try_catch. rewrite (bind_Return _ _ _ _ _ Hfind).
    unfold fullInference. rewrite (bind_Return _ _ _ _ _ Hcreate).
    rewrite (bind_Throw _ _ _ _ _ Hstages).
    cbv beta delta [onError bind writeDb storeCall throw].
    rewrite Hstore. reflexivity.
  - cbn [db queries with_queries].
    assert (Hnew : exists q, find (hasQueryId (this_queryId self))
                               (queries (db w2)) = Some q).
    { rewrite Hdb2. cbn [queries with_agent_tasks with_queries].
      apply find_app_some. unfold hasQueryId. cbn. apply String.eqb_refl. }
    destruct Hnew as (q2 & Hq2).
    destruct (find_same_keys queryId (this_queryId self) _ _ q2 Hids Hq2)
      as (q3 & Hq3).
    exists (failQuery q3). split; [|reflexivity].
    apply find_updateFirst; [exact Hq3|].
    apply (find_some _ _ Hq3).
  - exists t'. split; [|reflexivity].
    cbn [db agent_tasks with_queries]. rewrite Htasks, Hdb2, Hdb1. reflexivity.
  - cbn [db cache_search_results with_queries].
    rewrite Hcache, Hdb2, Hdb1. reflexivity.
Qed.

End Pipeline.

Lemma cache_hit_bypasses_pipeline_witness :
  exists w',
    processQuery (Demo.oracles Demo.offline) Demo.agent1 "  React Developer "
      (Demo.world Demo.cachedStore)
    = (Return {| r_queryId := "query_0a1b2c3d";
                 r_matches := r_matches (result Demo.cachedEntry);
                 r_conversation :=
                   {| agent := orchestrator;
                      message := "Retrieved optimized results from lightning cache.";
                      data := None;
                      timestamp := 1000%Z |}
                   :: r_conversation (result Demo.cachedEntry) |},
       w')
    /\ db w' = Demo.cachedStore.
Proof.
  destruct (proj2 (cache_hit_bypasses_pipeline (Demo.oracles Demo.offline)
                     Demo.agent1 "  React Developer "
                     (Demo.world Demo.cachedStore)
                     0%nat 1%nat 1%nat 2%nat 0%Z 1000%Z Demo.cachedEntry
                     eq_refl eq_refl eq_refl eq_refl eq_refl))
    as (w' & Hrun & Hdb & _).
  exists w'. split; [exact Hrun | exact Hdb].
Defined.

Lemma cache_determinism_witness :
  fst Demo.firstRun = Return Demo.firstResult
  /\ processQuery (Demo.oracles Demo.prose) Demo.agent2 "react DEVELOPER"
       (snd Demo.firstRun)
     = (Return {| r_queryId := r_queryId Demo.firstResult;
                  r_matches := r_matches Demo.firstResult;
                  r_conversation :=
                    cacheHitMessage 1043000%Z
                    :: r_conversation Demo.firstResult |},
        {| db := db (snd Demo.firstRun); ext := 1044%nat |})
  /\ computeQueryHash (Demo.oracles Demo.prose) (Demo.b2 194 160 ++ " CAFÉ ")
     = computeQueryHash (Demo.oracles Demo.prose) "café".
Proof.
  assert (Hcafe : computeQueryHash (Demo.oracles Demo.prose)
                    (Demo.b2 194 160 ++ " CAFÉ ")
                  = computeQueryHash (Demo.oracles Demo.prose) "café").
  { apply (cache_determinism (Demo.oracles Demo.prose) Demo.agent1 Demo.agent2
             (Demo.b2 194 160 ++ " CAFÉ ") "café").
    vm_compute. reflexivity. }
  refine ((fun H => conj (proj1 H) (conj (proj2 H) Hcafe)) _).
  assert (Hrun : processQuery (Demo.oracles Demo.prose) Demo.agent1
                   " React developer "
                   (Demo.world (Demo.store [Demo.ada; Demo.bo]))
                 = (Return Demo.firstResult, snd Demo.firstRun))
    by (vm_compute; reflexivity).
  split; [vm_compute; reflexivity|].
  destruct (proj2 (cache_determinism (Demo.oracles Demo.prose)
                     Demo.agent1 Demo.agent2
                     " React developer " "react DEVELOPER" eq_refl)
              (Demo.world (Demo.store [Demo.ada; Demo.bo]))
              (snd Demo.firstRun) Demo.firstResult eq_refl Hrun)
    as (created & now0 & Hentry & Hsecond).
  cbv zeta in Hentry, Hsecond.
  apply (Hsecond (snd Demo.firstRun) 1042%nat 1043%nat 1043%nat 1044%nat
           1042000%Z 1043000%Z Hentry);
    try (vm_compute; reflexivity).
  apply (f_equal (option_map expiresAt)) in Hentry.
  assert (Hexp : option_map expiresAt
                   (find (hasQueryHash
                            (computeQueryHash (Demo.oracles Demo.prose)
                               " React developer "))
                      (cache_search_results (db (snd Demo.firstRun))))
                 = Some 4641000%Z) by (vm_compute; reflexivity).
  rewrite Hexp in Hentry. cbn [option_map expiresAt] in Hentry.
  injection Hentry as Hnow. cbn [expiresAt]. lia.
Defined.

Lemma stage_failure_marks_query_failed_witness :
  let O := Demo.oracles Demo.offline in
  let w0 := Demo.world (Demo.store [Demo.ada; Demo.bo]) in
  exists w4,
    processQuery O Demo.agent1 "React developer" w0
    = (Throw (Error "FIREWORKS_API_KEY not set"), w4)
    /\ (exists q,
          find (hasQueryId "query_3f2a9c1e") (queries (db w4)) = Some q
          /\ status q = Failed)
    /\ (exists t,
          agent_tasks (db w4) = [newTask Demo.agent1 t]
          /\ t_status (newTask Demo.agent1 t) = InProgress)
    /\ cache_search_results (db w4) = [].
Proof.
  intros O w0.
  pose (w1 := snd ((getDb O ;;
                    findCachedResult O (computeQueryHash O "React developer"))
                     w0)).
  pose (w2 := snd (createRecords O Demo.agent1 "React developer" w1)).
  pose (w3 := snd (runStages O Demo.agent1 "React developer" w2)).
  assert (H1 : (getDb O ;;
                findCachedResult O (computeQueryHash O "React developer")) w0
               = (Return None, w1)) by (vm_compute; reflexivity).
  assert (H2 : createRecords O Demo.agent1 "React developer" w1
               = (Return tt, w2)) by (vm_compute; reflexivity).
  assert (H3 : runStages O Demo.agent1 "React developer" w2
               = (Throw (Error "FIREWORKS_API_KEY not set"), w3))
    by (vm_compute; reflexivity).
  assert (H4 : store_fault O (ext w3) = (None, 1035%nat))
    by (vm_compute; reflexivity).
  exact (stage_failure_marks_query_failed O Demo.agent1 "React developer"
           w0 w1 w2 w3 _ _ H1 H2 H3 H4).
Defined.

(** C2 as stated fails when the store rejects the status update of the
    [catch] block: here the Recommender throws for want of its credential,
    the store rejects the call that follows, and [processQuery] throws the
    error of the store, not the error of the stage, while the Query Record
    of the invocation keeps the status processing. *)
Lemma stage_failure_counterexample :
  let O := outageAt 1056 Demo.offline in
  let w0 := Demo.world (Demo.store [Demo.ada; Demo.bo]) in
  let w1 := snd ((getDb O ;;
                  findCachedResult O (computeQueryHash O "React developer"))
                   w0) in
  let w2 := snd (createRecords O Demo.agent1 "React developer" w1) in
  let run := processQuery O Demo.agent1 "React developer" w0 in
  fst (runStages O Demo.agent1 "React developer" w2)
  = Throw (Error "FIREWORKS_API_KEY not set")
  /\ fst run = Throw (Error "connection closed")
  /\ fst run <> Throw (Error "FIREWORKS_API_KEY not set")
  /\ option_map status
       (find (hasQueryId "query_3f2a9c1e") (queries (db (snd run))))
     = Some Processing.
Proof.
  cbv zeta. repeat split; try (vm_compute; reflexivity).
  vm_compute. discriminate.
Qed.

(** ** The Ranker *)

Lemma sortInsert_perm {A : Type} (compareFn : A -> A -> number) (x : A)
  (l : list A) : Permutation (sortInsert compareFn x l) (x :: l).
Proof.
  induction l as [|y l IH]; simpl; [apply Permutation_refl|].
  destruct (Qlt_bool 0 (compareFn x y)); [|apply Permutation_refl].
  eapply perm_trans; [apply perm_skip, IH | apply perm_swap].
Qed.

Lemma sort_perm {A : Type} (compareFn : A -> A -> number) (l : list A) :
  Permutation (sort compareFn l) l.
Proof.
  induction l as [|x l IH]; simpl; [constructor|].
  eapply perm_trans; [apply sortInsert_perm | now apply perm_skip].
Qed.

Lemma byScoreDescending_pos (x y : ExpertMatch) :
  Qlt_bool 0 (byScoreDescending x y) = true <-> (matchScore x < matchScore y)%Q.
Proof.
  rewrite Qlt_bool_iff. unfold byScoreDescending. split; intros H; lra.
Qed.

Lemma byScoreDescending_nonpos (x y : ExpertMatch) :
  Qlt_bool 0 (byScoreDescending x y) = false -> (matchScore y <= matchScore x)%Q.
Proof.
  intros H. apply Qnot_lt_le. intros Hlt.
  apply byScoreDescending_pos in Hlt. congruence.
Qed.

Lemma sortInsert_sorted (x : ExpertMatch) (l : list ExpertMatch) :
  StronglySorted scoreDescending l ->
  StronglySorted scoreDescending (sortInsert byScoreDescending x l).
Proof.
  induction 1 as [|y l Hl IH Hy]; simpl.
  - repeat constructor.
  - destruct (Qlt_bool 0 (byScoreDescending x y)) eqn:Hc.
    + constructor; [exact IH|].
      apply (Permutation_Forall (Permutation_sym (sortInsert_perm _ x l))).
      constructor; [|exact Hy].
      apply byScoreDescending_pos in Hc. unfold scoreDescending. lra.
    + apply byScoreDescending_nonpos in Hc.
      constructor; [now constructor|].
      constructor; [exact Hc|].
      eapply Forall_impl; [|exact Hy].
      unfold scoreDescending. intros z Hz. lra.
Qed.

Lemma sort_sorted (l : list ExpertMatch) :
  StronglySorted scoreDescending (sort byScoreDescending l).
Proof.
  induction l as [|x l IH]; simpl; [constructor | now apply sortInsert_sorted].
Qed.

(** Insertion moves [x] only past matches of a strictly greater score, so
    the matches of any one score keep their order. *)
Lemma sortInsert_stable (v : number) (x : ExpertMatch) (l : list ExpertMatch) :
  filter (fun m => Qeq_bool (matchScore m) v) (sortInsert byScoreDescending x l)
  = filter (fun m => Qeq_bool (matchScore m) v) (x :: l).
Proof.
  induction l as [|y l IH]; [reflexivity|].
  cbn [sortInsert].
  destruct (Qlt_bool 0 (byScoreDescending x y)) eqn:Hc; [|reflexivity].
  apply byScoreDescending_pos in Hc.
  cbn [filter] in *. rewrite IH.
  destruct (Qeq_bool (matchScore y) v) eqn:Hy;
    destruct (Qeq_bool (matchScore x) v) eqn:Hx; try reflexivity.
  apply Qeq_bool_iff in Hx, Hy. lra.
Qed.

Lemma sort_stable (v : number) (l : list ExpertMatch) :
  filter (fun m => Qeq_bool (matchScore m) v) (sort byScoreDescending l)
  = filter (fun m => Qeq_bool (matchScore m) v) l.
Proof.
  induction l as [|x l IH]; [reflexivity|].
  cbn [sort]. rewrite sortInsert_stable. cbn [filter]. now rewrite IH.
Qed.

Lemma firstn_5_length {A : Type} (l : list A) : (length (firstn 5 l) <= 5)%nat.
Proof. apply firstn_le_length. Qed.

Section Ranker.

Context {E : Type}.
Variable O : Oracles E.

Lemma bind_ext {A B : Type} (m : M E A) (k1 k2 : A -> M E B) (w : World E) :
  (forall a w', k1 a w' = k2 a w') -> bind m k1 w = bind m k2 w.
Proof.
  intros H. unfold bind. destruct (m w) as [[a|x] w']; [apply H | reflexivity].
Qed.

(** [RecommenderAgent_execute] is the ranking with the score of the
    formula. *)
Lemma rankLoop_rankLoopWith (rawQuery : string)
  (requirements : option Requirements) (candidates : list Expert)
  (acc : list ExpertMatch) (w : World E) :
  rankLoop O rawQuery requirements candidates acc w
  = rankLoopWith O (fun e => computeMatchScore O e requirements)
      rawQuery candidates acc w.
Proof.
  revert acc w. induction candidates as [|e rest IH]; intros acc w;
    [reflexivity|].
  cbn [rankLoop rankLoopWith]. cbv zeta.
  apply bind_ext. intros explanation w1. apply IH.
Qed.

Lemma execute_executeWith (qid : string) (candidates : list Expert)
  (rawQuery : string) (requirements : option Requirements) (w : World E) :
  RecommenderAgent_execute O qid candidates rawQuery requirements w
  = RecommenderAgent_executeWith O (fun e => computeMatchScore O e requirements)
      qid candidates rawQuery w.
Proof.
  unfold RecommenderAgent_execute, RecommenderAgent_executeWith.
  apply bind_ext. intros _ w1. unfold bind at 1 3.
  now rewrite rankLoop_rankLoopWith.
Qed.

(** What the loop appends: one match per candidate, in the order of the
    candidates, each with the score of its candidate. *)
Lemma rankLoopWith_spec (score : Expert -> number) (rawQuery : string)
  (candidates : list Expert) (acc ms : list ExpertMatch) (w w' : World E) :
  rankLoopWith O score rawQuery candidates acc w = (Return ms, w') ->
  exists new,
    ms = (acc ++ new)%list
    /\ map expert new = candidates
    /\ Forall (fun m => matchScore m = score (expert m)
                        /\ matchedBy m = recommender) new.
Proof.
  revert acc w. induction candidates as [|e rest IH]; intros acc w; simpl.
  - intros [= <- <-]. exists []. rewrite app_nil_r. repeat split. constructor.
  - intros H. apply bind_Return_inv in H.
    destruct H as (explanation & w1 & _ & H).
    apply IH in H. destruct H as (new & -> & Hmap & Hall).
    eexists (_ :: new). rewrite <- app_assoc. split; [reflexivity|].
    split; [simpl; now rewrite Hmap|].
    constructor; [split; reflexivity | exact Hall].
Qed.

Lemma executeWith_spec (score : Expert -> number) (qid : string)
  (candidates : list Expert) (rawQuery : string)
  (w w' : World E) (ms : list ExpertMatch) :
  RecommenderAgent_executeWith O score qid candidates rawQuery w
  = (Return ms, w') ->
  exists unsorted,
    ms = sort byScoreDescending unsorted
    /\ map expert unsorted = firstn 5 candidates
    /\ Forall (fun m => matchScore m = score (expert m)
                        /\ matchedBy m = recommender) unsorted.
Proof.
  unfold RecommenderAgent_executeWith. intros H.
  apply bind_Return_inv in H. destruct H as ([] & w1 & _ & H).
  apply bind_Return_inv in H. destruct H as (unsorted & w2 & Hloop & H).
  cbv zeta in H.
  apply bind_Return_inv in H. destruct H as ([] & w3 & _ & H).
  injection H as <- _.
  apply rankLoopWith_spec in Hloop. destruct Hloop as (new & -> & Hmap & Hall).
  now exists new.
Qed.

Lemma map_expert_filter (score : Expert -> number) (v : number)
  (l : list ExpertMatch) :
  Forall (fun m => matchScore m = score (expert m)
                   /\ matchedBy m = recommender) l ->
  map expert (filter (fun m => Qeq_bool (matchScore m) v) l)
  = filter (fun e => Qeq_bool (score e) v) (map expert l).
Proof.
  induction 1 as [|m l (Hm & _) Hl IH]; [reflexivity|].
  cbn [filter map]. rewrite <- Hm.
  destruct (Qeq_bool (matchScore m) v); cbn [map]; now rewrite IH.
Qed.

Lemma storeCall_returns (w : World E) :
  StoreUp O -> exists w', storeCall O w = (Return tt, w') /\ db w' = db w.
Proof.
  intros Hup. unfold storeCall. specialize (Hup (ext w)).
  destruct (store_fault O (ext w)) as [f e']. cbn [fst] in Hup. subst f.
  eexists. split; reflexivity.
Qed.

Lemma log_returns agentType qid msg payload (w : World E) :
  StoreUp O -> exists w', log O agentType qid msg payload w = (Return tt, w').
Proof.
  intros Hup. unfold log, getDb.
  destruct (storeCall_returns w Hup) as (w1 & H1 & _).
  rewrite (bind_Return _ _ _ _ _ H1).
  unfold newDate, liftExt, bind at 1.
  destruct (Date_now O (ext w1)) as [t e2].
  unfold writeDb.
  destruct (storeCall_returns {| db := db w1; ext := e2 |} Hup) as (w3 & H3 & _).
  rewrite (bind_Return _ _ _ _ _ H3). eexists. reflexivity.
Qed.

Lemma chat_returns messages options (w : World E) :
  CompletionUp O -> exists s w', chat O messages options w = (Return s, w').
Proof.
  intros (Hkey & Hfetch). unfold chat. rewrite Hkey.
  unfold bind at 1, callExt.
  match goal with
  | |- context [fireworks_fetch O ?req (ext w)] =>
      destruct (Hfetch req (ext w)) as (response & data & Hr & Hok & Hdata);
      destruct (fireworks_fetch O req (ext w)) as [c e']
  end.
  cbn [fst] in Hr. subst c. rewrite Hok. cbn [negb].
  unfold bind, lift, ret. rewrite Hdata. eexists _, _. reflexivity.
Qed.

Lemma rankLoopWith_returns (score : Expert -> number) rawQuery candidates acc
  (w : World E) :
  CompletionUp O ->
  exists ms w',
    rankLoopWith O score rawQuery candidates acc w = (Return ms, w').
Proof.
  intros Hup. revert acc w.
  induction candidates as [|e rest IH]; intros acc w; simpl.
  - eexists _, _. reflexivity.
  - unfold generateExplanation.
    match goal with
    | |- context [chat O ?msgs ?opts] =>
        destruct (chat_returns msgs opts w Hup) as (s & w1 & Hchat)
    end.
    unfold bind at 1 2. rewrite Hchat. unfold ret at 1. apply IH.
Qed.

(** C6.  Ranking.  The ranking of [RecommenderAgent.execute] has the
    properties of the claim for every way [score] of computing the score of
    a candidate, so whatever the rounding of the arithmetic: it does on a
    candidate list what it does on its first five candidates; when it
    returns, the matches are at most five; their experts are the first five
    candidates, permuted; each carries the score given to its expert; they
    are in descending order of the scores they carry; and for every score
    the matches of that score come in the order of their candidates in the
    input.  It does return when the store answers and the completion
    provider answers every request. *)
Theorem ranking_top5_sorted_stable (score : Expert -> number) (qid : string)
  (candidates : list Expert) (rawQuery : string) (w : World E) :
  RecommenderAgent_executeWith O score qid candidates rawQuery w
  = RecommenderAgent_executeWith O score qid (firstn 5 candidates) rawQuery w
  /\ (forall ms w',
        RecommenderAgent_executeWith O score qid candidates rawQuery w
        = (Return ms, w') ->
        (length ms <= 5)%nat
        /\ Permutation (map expert ms) (firstn 5 candidates)
        /\ Forall (fun m => matchScore m = score (expert m)
                            /\ matchedBy m = recommender) ms
        /\ StronglySorted scoreDescending ms
        /\ forall v,
             map expert (filter (fun m => Qeq_bool (matchScore m) v) ms)
             = filter (fun e => Qeq_bool (score e) v) (firstn 5 candidates))
  /\ (StoreUp O -> CompletionUp O ->
      exists ms w',
        RecommenderAgent_executeWith O score qid candidates rawQuery w
        = (Return ms, w')).
Proof.
  split; [|split].
  - unfold RecommenderAgent_executeWith.
    now rewrite (firstn_firstn candidates 5 5).
  - intros ms w' Hrun.
    destruct (executeWith_spec _ _ _ _ _ _ _ Hrun)
      as (unsorted & -> & Hmap & Hall).
    pose proof (sort_perm byScoreDescending unsorted) as Hperm.
    split; [|split; [|split; [|split]]].
    + rewrite (Permutation_length Hperm), <- (length_map expert), Hmap.
      apply firstn_5_length.
    + rewrite <- Hmap. now apply Permutation_map.
    + apply (Permutation_Forall (Permutation_sym Hperm)), Hall.
    + apply sort_sorted.
    + intros v. rewrite sort_stable, <- Hmap. now apply map_expert_filter.
  - intros Hstore Hchat. unfold RecommenderAgent_executeWith.
    destruct (log_returns recommender qid "Ranking and explaining matches..."
                None w Hstore) as (w1 & H1).
    rewrite (bind_Return _ _ _ _ _ H1).
    destruct (rankLoopWith_returns score rawQuery (firstn 5 candidates) []
                w1 Hchat) as (unsorted & w2 & H2).
    rewrite (bind_Return _ _ _ _ _ H2). cbv zeta.
    match goal with
    | |- context [log O recommender qid ?msg None] =>
        destruct (log_returns recommender qid msg None w2 Hstore) as (w3 & H3)
    end.
    rewrite (bind_Return _ _ _ _ _ H3). eexists _, _. reflexivity.
Qed.

End Ranker.

Lemma StoreUp_demo (s : Demo.Setup) : StoreUp (Demo.oracles s).
Proof. intros e. reflexivity. Qed.

Lemma CompletionUp_prose : CompletionUp (Demo.oracles Demo.prose).
Proof.
  split; [reflexivity|]. intros request e.
  eexists _, _. repeat split.
Qed.

Lemma ranking_top5_sorted_stable_witness :
  exists ms w',
    RecommenderAgent_execute (Demo.oracles Demo.prose) "query_3f2a9c1e"
      Demo.sixCandidates "React developer" (Some Demo.reactRequirements)
      (Demo.world Demo.emptyDb) = (Return ms, w')
    /\ (length ms <= 5)%nat
    /\ Permutation (map expert ms) [Demo.bo; Demo.ada; Demo.bo; Demo.ada; Demo.bo]
    /\ StronglySorted scoreDescending ms
    /\ map expert (filter (fun m => Qeq_bool (matchScore m) 0.15%Q) ms)
       = [Demo.bo; Demo.bo; Demo.bo].
Proof.
  pose proof (ranking_top5_sorted_stable (Demo.oracles Demo.prose)
                (fun e => computeMatchScore (Demo.oracles Demo.prose) e
                            (Some Demo.reactRequirements))
                "query_3f2a9c1e" Demo.sixCandidates "React developer"
                (Demo.world Demo.emptyDb))
    as (_ & Hspec & Hreturns).
  destruct (Hreturns (StoreUp_demo Demo.prose) CompletionUp_prose)
    as (ms & w' & Hrun).
  destruct (Hspec ms w' Hrun) as (Hlen & Hperm & _ & Hsorted & Hstable).
  exists ms, w'. rewrite execute_executeWith. repeat split; try assumption.
  exact (Hstable 0.15%Q).
Defined.

(** ** The Scout's fallback *)

Section Scout.

Context {E : Type}.
Variable O : Oracles E.

Lemma compileAll_valid (skillNames : list string) :
  (forall s, In s skillNames -> RegExp_valid O s = true) ->
  compileAll O skillNames = Return (caseInsensitive skillNames).
Proof.
  induction skillNames as [|s rest IH]; intros Hvalid; [reflexivity|].
  cbn [compileAll]. unfold RegExp_new.
  rewrite (Hvalid s (or_introl eq_refl)).
  rewrite IH; [reflexivity|]. intros s' Hs'. apply Hvalid. now right.
Qed.

Lemma textQuery_valid (skillNames : list string) :
  (forall s, In s skillNames -> RegExp_valid O s = true) ->
  textQuery O skillNames = Return (keywordQuery skillNames).
Proof.
  intros Hvalid. unfold textQuery, keywordQuery.
  destruct (0 <? length skillNames)%nat; [|reflexivity].
  now rewrite compileAll_valid.
Qed.

(** What the [$match] stage of a returning attempt is. *)
Lemma matchStage_returns (qid : string) (requirements : option Requirements)
  (w w' : World E) (matchStage : option (list RenownLevel)) :
  match renownConstraint requirements with
  | Some c =>
      let renownValue := JS.toLowerCase (unicode O) (c_value c) in
      match renownFilter renownValue with
      | Some levels =>
          log O scout qid ("Applying renown filter: " ++ renownValue) None ;;
          ret (Some levels)
      | None => ret None
      end
  | None => ret None
  end w = (Return matchStage, w') ->
  matchStage = matchStageOf O requirements.
Proof.
  unfold matchStageOf.
  destruct (renownConstraint requirements) as [c|]; cbv zeta.
  - destruct (renownFilter (JS.toLowerCase (unicode O) (c_value c))) as [levels|].
    + intros H. apply bind_Return_inv in H.
      destruct H as ([] & w1 & _ & H). now injection H as <- _.
    + now intros [= <- _].
  - now intros [= <- _].
Qed.

(** With a similarity search that raises or yields nothing, the [try] block
    never reaches its [return]. *)
Lemma vectorAttempt_fruitless (qid : string) (requirements : option Requirements)
  (queryEmbedding : list number) (w w' : World E)
  (r : option (list Expert)) :
  NoVectorResults O requirements ->
  vectorAttempt O qid requirements queryEmbedding w = (Return r, w') ->
  r = None.
Proof.
  intros Hno. unfold vectorAttempt. cbv zeta. intros H.
  apply bind_Return_inv in H. destruct H as (matchStage & w1 & Hstage & H).
  apply matchStage_returns in Hstage. subst matchStage.
  apply bind_Return_inv in H. destruct H as (results & w2 & Hagg & H).
  unfold aggregate in Hagg.
  apply bind_Return_inv in Hagg. destruct Hagg as ([] & w3 & _ & Hagg).
  apply bind_Return_inv in Hagg. destruct Hagg as (found & w4 & Hsearch & Hagg).
  injection Hagg as <- _.
  unfold callExt in Hsearch.
  match type of Hsearch with
  | context [vectorSearch O ?docs ?stage ?e] =>
      specialize (Hno docs stage e);
      destruct (vectorSearch O docs stage e) as [c e']
  end.
  injection Hsearch as -> _. cbn [fst] in Hno. rewrite Hno in H.
  cbn in H. now injection H as <- _.
Qed.

Lemma step_frame {A : Type} (m : M E A) (w w' : World E) (r : Completion A) :
  Preserves m -> m w = (r, w') -> experts (db w') = experts (db w).
Proof.
  intros Hm Hrun. specialize (Hm w). rewrite Hrun in Hm. apply Hm.
Qed.


End Scout.

Lemma NoVectorResults_offline (requirements : option Requirements) :
  NoVectorResults (Demo.oracles Demo.offline) requirements.
Proof. intros docs stage e. exact I. Qed.



(** * Further properties of the code *)

(** ** Normalisation of the query text *)

Lemma list_ascii_app (s1 s2 : string) :
  list_ascii_of_string (s1 ++ s2)
  = (list_ascii_of_string s1 ++ list_ascii_of_string s2)%list.
Proof. induction s1 as [|c s1 IH]; simpl; [reflexivity | now rewrite IH]. Qed.

Lemma trimStart_list (s : string) :
  list_ascii_of_string (ASCII.trimStart s) = dropWhiteSpace (list_ascii_of_string s).
Proof.
  induction s as [|c s IH]; simpl; [reflexivity|].
  destruct (ASCII.isWhiteSpace c); [exact IH | reflexivity].
Qed.

Lemma trimEnd_list (s : string) :
  list_ascii_of_string (ASCII.trimEnd s)
  = rev (dropWhiteSpace (rev (list_ascii_of_string s))).
Proof.
  unfold ASCII.trimEnd, ASCII.reverse.
  rewrite list_ascii_of_string_of_list_ascii, trimStart_list.
  now rewrite list_ascii_of_string_of_list_ascii.
Qed.

Lemma trim_list (s : string) :
  list_ascii_of_string (ASCII.trim s)
  = rev (dropWhiteSpace (rev (dropWhiteSpace (list_ascii_of_string s)))).
Proof. unfold ASCII.trim. now rewrite trimEnd_list, trimStart_list. Qed.

Lemma string_eq_by_list (s t : string) :
  list_ascii_of_string s = list_ascii_of_string t -> s = t.
Proof.
  intros H. rewrite <- (string_of_list_ascii_of_string s),
    <- (string_of_list_ascii_of_string t). now rewrite H.
Qed.

Lemma dropWhiteSpace_idem (l : list ascii) :
  dropWhiteSpace (dropWhiteSpace l) = dropWhiteSpace l.
Proof.
  induction l as [|c l IH]; simpl; [reflexivity|].
  destruct (ASCII.isWhiteSpace c) eqn:Hc; [exact IH|]. simpl. now rewrite Hc.
Qed.

Lemma dropWhiteSpace_pad (p l : list ascii) :
  Forall (fun c => ASCII.isWhiteSpace c = true) p ->
  dropWhiteSpace (p ++ l) = dropWhiteSpace l.
Proof.
  induction 1 as [|c p Hc Hp IH]; simpl; [reflexivity|]. now rewrite Hc.
Qed.

Lemma dropWhiteSpace_keep (l : list ascii) (c : ascii) :
  ASCII.isWhiteSpace c = false ->
  dropWhiteSpace (l ++ [c]) = (dropWhiteSpace l ++ [c])%list.
Proof.
  intros Hc. induction l as [|d l IH]; simpl; [now rewrite Hc|].
  destruct (ASCII.isWhiteSpace d); [exact IH | reflexivity].
Qed.

(** Trimming the end of a list that does not start with white space gives a
    list that does not start with white space. *)
Lemma dropWhiteSpace_trimmedEnd (l : list ascii) :
  dropWhiteSpace l = l ->
  dropWhiteSpace (rev (dropWhiteSpace (rev l))) = rev (dropWhiteSpace (rev l)).
Proof.
  destruct l as [|c r]; [reflexivity|].
  simpl. destruct (ASCII.isWhiteSpace c) eqn:Hc.
  - intros H. exfalso.
    assert (Hlen : (length (dropWhiteSpace r) <= length r)%nat).
    { clear. induction r as [|d r IH]; simpl; [lia|].
      destruct (ASCII.isWhiteSpace d); simpl; lia. }
    rewrite H in Hlen. simpl in Hlen. lia.
  - intros _. rewrite (dropWhiteSpace_keep _ _ Hc), rev_app_distr. simpl.
    now rewrite Hc.
Qed.

Lemma trim_idempotent (s : string) : ASCII.trim (ASCII.trim s) = ASCII.trim s.
Proof.
  apply string_eq_by_list. rewrite (trim_list (ASCII.trim s)), trim_list.
  rewrite dropWhiteSpace_trimmedEnd by apply dropWhiteSpace_idem.
  rewrite rev_involutive.
  apply dropWhiteSpace_trimmedEnd, dropWhiteSpace_idem.
Qed.

Lemma Forall_reversed {A : Type} (P : A -> Prop) (l : list A) :
  Forall P l -> Forall P (rev l).
Proof.
  intros H. apply Forall_forall. intros x Hx. apply in_rev in Hx.
  revert x Hx. now apply Forall_forall.
Qed.

Lemma trim_pad (p q s : string) :
  allWhiteSpace p -> allWhiteSpace q -> ASCII.trim (p ++ s ++ q) = ASCII.trim s.
Proof.
  intros Hp Hq. apply string_eq_by_list. rewrite !trim_list, !list_ascii_app.
  rewrite (dropWhiteSpace_pad _ _ Hp).
  set (ls := list_ascii_of_string s). set (lq := list_ascii_of_string q).
  assert (Hcases : forall l, 
    rev (dropWhiteSpace (rev (dropWhiteSpace (l ++ lq))))
    = rev (dropWhiteSpace (rev (dropWhiteSpace l)))).
  { induction l as [|c l IH]; simpl.
    - assert (Hd : dropWhiteSpace lq = []).
      { rewrite <- (app_nil_r lq). now rewrite (dropWhiteSpace_pad lq [] Hq). }
      now rewrite Hd.
    - destruct (ASCII.isWhiteSpace c); [exact IH|].
      change (c :: l ++ lq)%list with ((c :: l) ++ lq)%list.
      rewrite rev_app_distr.
      now rewrite (dropWhiteSpace_pad _ _ (Forall_reversed _ _ Hq)). }
  apply Hcases.
Qed.

Lemma isWhiteSpace_toLowerCaseChar (c : ascii) :
  ASCII.isWhiteSpace (ASCII.toLowerCaseChar c) = ASCII.isWhiteSpace c.
Proof. destruct c as [[] [] [] [] [] [] [] []]; reflexivity. Qed.

Lemma toLowerCaseChar_idem (c : ascii) :
  ASCII.toLowerCaseChar (ASCII.toLowerCaseChar c) = ASCII.toLowerCaseChar c.
Proof. destruct c as [[] [] [] [] [] [] [] []]; reflexivity. Qed.

Lemma toLowerCaseChar_upper (c : ascii) :
  ASCII.toLowerCaseChar (ASCII.toUpperCaseChar c) = ASCII.toLowerCaseChar c.
Proof. destruct c as [[] [] [] [] [] [] [] []]; reflexivity. Qed.

Lemma toLowerCase_list (s : string) :
  list_ascii_of_string (ASCII.toLowerCase s)
  = map ASCII.toLowerCaseChar (list_ascii_of_string s).
Proof. induction s as [|c s IH]; simpl; [reflexivity | now rewrite IH]. Qed.

Lemma toUpperCase_list (s : string) :
  list_ascii_of_string (ASCII.toUpperCase s)
  = map ASCII.toUpperCaseChar (list_ascii_of_string s).
Proof. induction s as [|c s IH]; simpl; [reflexivity | now rewrite IH]. Qed.

Lemma dropWhiteSpace_map_lower (l : list ascii) :
  dropWhiteSpace (map ASCII.toLowerCaseChar l)
  = map ASCII.toLowerCaseChar (dropWhiteSpace l).
Proof.
  induction l as [|c l IH]; simpl; [reflexivity|].
  rewrite isWhiteSpace_toLowerCaseChar.
  destruct (ASCII.isWhiteSpace c); [exact IH | reflexivity].
Qed.

Lemma toLowerCase_trim (s : string) :
  ASCII.toLowerCase (ASCII.trim s) = ASCII.trim (ASCII.toLowerCase s).
Proof.
  apply string_eq_by_list.
  rewrite toLowerCase_list, !trim_list, toLowerCase_list.
  now rewrite dropWhiteSpace_map_lower, <- map_rev, dropWhiteSpace_map_lower,
    <- map_rev.
Qed.

Lemma toLowerCase_idem (s : string) :
  ASCII.toLowerCase (ASCII.toLowerCase s) = ASCII.toLowerCase s.
Proof.
  induction s as [|c s IH]; simpl; [reflexivity|].
  now rewrite toLowerCaseChar_idem, IH.
Qed.

Lemma toLowerCase_toUpperCase (s : string) :
  ASCII.toLowerCase (ASCII.toUpperCase s) = ASCII.toLowerCase s.
Proof.
  induction s as [|c s IH]; simpl; [reflexivity|].
  now rewrite toLowerCaseChar_upper, IH.
Qed.

(** Texts of the ASCII range stay in it. *)
Lemma isAscii_list (s : string) :
  ASCII.isAscii s = forallb ASCII.isAsciiChar (list_ascii_of_string s).
Proof. induction s as [|c s IH]; [reflexivity|]. simpl. now rewrite IH. Qed.

Lemma isAscii_app (s1 s2 : string) :
  ASCII.isAscii (s1 ++ s2) = ASCII.isAscii s1 && ASCII.isAscii s2.
Proof.
  induction s1 as [|c s1 IH]; [reflexivity|]. simpl.
  now rewrite IH, andb_assoc.
Qed.

Lemma isWhiteSpace_isAsciiChar (c : ascii) :
  ASCII.isWhiteSpace c = true -> ASCII.isAsciiChar c = true.
Proof. destruct c as [[] [] [] [] [] [] [] []]; cbv; congruence. Qed.

Lemma allWhiteSpace_isAscii (p : string) :
  allWhiteSpace p -> ASCII.isAscii p = true.
Proof.
  unfold allWhiteSpace. rewrite isAscii_list. intros H.
  apply forallb_forall. intros c Hc.
  apply isWhiteSpace_isAsciiChar. rewrite Forall_forall in H. now apply H.
Qed.

Lemma isAsciiChar_toLowerCaseChar (c : ascii) :
  ASCII.isAsciiChar (ASCII.toLowerCaseChar c) = ASCII.isAsciiChar c.
Proof. destruct c as [[] [] [] [] [] [] [] []]; reflexivity. Qed.

Lemma isAsciiChar_toUpperCaseChar (c : ascii) :
  ASCII.isAsciiChar (ASCII.toUpperCaseChar c) = ASCII.isAsciiChar c.
Proof. destruct c as [[] [] [] [] [] [] [] []]; reflexivity. Qed.

Lemma isAscii_toLowerCase (s : string) :
  ASCII.isAscii (ASCII.toLowerCase s) = ASCII.isAscii s.
Proof.
  induction s as [|c s IH]; [reflexivity|]. simpl.
  now rewrite isAsciiChar_toLowerCaseChar, IH.
Qed.

Lemma isAscii_toUpperCase (s : string) :
  ASCII.isAscii (ASCII.toUpperCase s) = ASCII.isAscii s.
Proof.
  induction s as [|c s IH]; [reflexivity|]. simpl.
  now rewrite isAsciiChar_toUpperCaseChar, IH.
Qed.

Lemma forallb_dropWhiteSpace (p : ascii -> bool) (l : list ascii) :
  forallb p l = true -> forallb p (dropWhiteSpace l) = true.
Proof.
  induction l as [|c l IH]; [reflexivity|]. intros H. simpl.
  destruct (ASCII.isWhiteSpace c); [|exact H].
  simpl in H. apply andb_true_iff in H. now apply IH.
Qed.

Lemma forallb_rev {A : Type} (p : A -> bool) (l : list A) :
  forallb p l = true -> forallb p (rev l) = true.
Proof.
  intros H. apply forallb_forall. intros x Hx. apply in_rev in Hx.
  rewrite forallb_forall in H. now apply H.
Qed.

Lemma isAscii_trim (s : string) :
  ASCII.isAscii s = true -> ASCII.isAscii (ASCII.trim s) = true.
Proof.
  rewrite !isAscii_list, trim_list. intros H.
  now apply forallb_rev, forallb_dropWhiteSpace, forallb_rev,
    forallb_dropWhiteSpace.
Qed.

Section Hash.
Context {E : Type}.
Variable O : Oracles E.

(** On a text of the ASCII range the normalisation of [processQuery] is
    computed. *)
Lemma computeQueryHash_ascii (q : string) :
  ASCII.isAscii q = true ->
  computeQueryHash O q = sha256_hex O (ASCII.toLowerCase (ASCII.trim q)).
Proof.
  intros Hq. unfold computeQueryHash, JS.trim, JS.toLowerCase.
  now rewrite Hq, (isAscii_trim q Hq).
Qed.

(** X1.  On a text of the ASCII range, the query hash does not see case or
    surrounding white space: the text with white space of that range added
    in front and behind, the trimmed text, the lower-cased text and the
    upper-cased text all have the hash of the text itself. *)
Theorem queryHash_ignores_case_and_padding (q pad1 pad2 : string) :
  ASCII.isAscii q = true ->
  allWhiteSpace pad1 -> allWhiteSpace pad2 ->
  computeQueryHash O (pad1 ++ q ++ pad2) = computeQueryHash O q
  /\ computeQueryHash O (JS.trim (unicode O) q) = computeQueryHash O q
  /\ computeQueryHash O (JS.toLowerCase (unicode O) q) = computeQueryHash O q
  /\ computeQueryHash O (JS.toUpperCase (unicode O) q) = computeQueryHash O q.
Proof.
  intros Hq H1 H2.
  unfold JS.trim at 1, JS.toLowerCase at 1, JS.toUpperCase at 1. rewrite Hq.
  rewrite !computeQueryHash_ascii; try assumption.
  - repeat split.
    + now rewrite trim_pad.
    + now rewrite trim_idempotent.
    + now rewrite <- toLowerCase_trim, toLowerCase_idem.
    + now rewrite toLowerCase_trim, toLowerCase_toUpperCase, <- toLowerCase_trim.
  - now rewrite isAscii_toUpperCase.
  - now rewrite isAscii_toLowerCase.
  - now apply isAscii_trim.
  - rewrite !isAscii_app, Hq.
    now rewrite (allWhiteSpace_isAscii pad1 H1), (allWhiteSpace_isAscii pad2 H2).
Qed.
End Hash.

Lemma queryHash_ignores_case_and_padding_witness :
  computeQueryHash (Demo.oracles Demo.offline) "  React Developer "
  = computeQueryHash (Demo.oracles Demo.offline) "React Developer".
Proof.
  refine (proj1 (queryHash_ignores_case_and_padding (Demo.oracles Demo.offline)
                   "React Developer" "  " " " eq_refl _ _));
    repeat constructor.
Defined.

(** ** Relations that every step of the pipeline respects *)

Section RespectsFacts.

Context {E : Type}.
Variable O : Oracles E.
Variable R : Db -> Db -> Prop.
Hypothesis R_refl : forall d, R d d.
Hypothesis R_trans : forall d1 d2 d3, R d1 d2 -> R d2 d3 -> R d1 d3.

Lemma Respects_ret {A : Type} (x : A) : Respects R (@ret E A x).
Proof. intros w. apply R_refl. Qed.

Lemma Respects_throw {A : Type} (e : Exn) : Respects R (@throw E A e).
Proof. intros w. apply R_refl. Qed.

Lemma Respects_lift {A : Type} (c : Completion A) : Respects R (@lift E A c).
Proof. intros w. apply R_refl. Qed.

Lemma Respects_liftExt {A : Type} (f : E -> A * E) : Respects R (liftExt f).
Proof. intros w. unfold liftExt. destruct (f (ext w)). apply R_refl. Qed.

Lemma Respects_callExt {A : Type} (f : E -> Completion A * E) :
  Respects R (callExt f).
Proof. intros w. unfold callExt. destruct (f (ext w)). apply R_refl. Qed.

Lemma Respects_bind {A B : Type} (m : M E A) (k : A -> M E B) :
  Respects R m -> (forall x, Respects R (k x)) -> Respects R (bind m k).
Proof.
  intros Hm Hk w. unfold bind. specialize (Hm w).
  destruct (m w) as [[x|e] w1]; cbn [snd] in *; [|exact Hm].
  eapply R_trans; [exact Hm | apply Hk].
Qed.

Lemma Respects_try_catch {A : Type} (m : M E A) (h : Exn -> M E A) :
  Respects R m -> (forall e, Respects R (h e)) -> Respects R (try_catch m h).
Proof.
  intros Hm Hh w. unfold try_catch. specialize (Hm w).
  destruct (m w) as [[x|e] w1]; cbn [snd] in *; [exact Hm|].
  eapply R_trans; [exact Hm | apply Hh].
Qed.

Lemma Respects_storeCall : Respects R (storeCall O).
Proof.
  intros w. unfold storeCall.
  destruct (store_fault O (ext w)) as [[e|] e']; apply R_refl.
Qed.

Lemma Respects_readDb {A : Type} (f : Db -> A) : Respects R (readDb O f).
Proof.
  apply Respects_bind; [apply Respects_storeCall|].
  intros _ w. apply R_refl.
Qed.

Lemma Respects_writeDb (f : Db -> Db) :
  (forall d, R d (f d)) -> Respects R (writeDb O f).
Proof.
  intros Hf. apply Respects_bind; [apply Respects_storeCall|].
  intros _ w. apply Hf.
Qed.

Lemma Respects_chat messages options : Respects R (chat O messages options).
Proof.
  unfold chat. destruct (JS.truthyOpt _); [|apply Respects_throw].
  apply Respects_bind; [apply Respects_callExt | intros response].
  destruct (negb (ok response)).
  - apply Respects_bind; [apply Respects_lift | intros; apply Respects_throw].
  - apply Respects_bind; [apply Respects_lift | intros; apply Respects_ret].
Qed.

Lemma Respects_parseQuery rawQuery : Respects R (parseQuery O rawQuery).
Proof.
  unfold parseQuery, parseQuery_chat.
  apply Respects_try_catch; [|intros; apply Respects_ret].
  apply Respects_bind; [apply Respects_chat | intros response].
  apply Respects_bind; [apply Respects_lift | intros; apply Respects_ret].
Qed.

Lemma Respects_generateExplanation query e score :
  Respects R (generateExplanation O query e score).
Proof.
  unfold generateExplanation.
  apply Respects_bind; [apply Respects_chat | intros; apply Respects_ret].
Qed.

Lemma Respects_rankLoop rawQuery requirements candidates matches :
  Respects R (rankLoop O rawQuery requirements candidates matches).
Proof.
  revert matches. induction candidates as [|e rest IH]; intros matches; simpl.
  - apply Respects_ret.
  - apply Respects_bind; [apply Respects_generateExplanation|].
    intros explanation. apply IH.
Qed.

(** The one write of the embedding gateway. *)
Hypothesis R_embed : forall d txt v t,
  R d (with_cache_embeddings d
         (upsertFirst (hasTextHash (sha256_hex O txt))
            (storedEmbedding O txt v t) (cache_embeddings d))).

Lemma Respects_generateEmbedding txt : Respects R (generateEmbedding O txt).
Proof.
  intros w. destruct (generateEmbedding_outcome O txt w)
    as (v & w' & Hrun & [Hdb | (t & _ & Hdb)]); rewrite Hrun; cbn [snd];
    rewrite Hdb; [apply R_refl | apply R_embed].
Qed.

(** The one write of [BaseAgent.log], for the agents that [Allowed] holds
    of, on the record of [qid]. *)
Variable qid : string.
Variable Allowed : AgentType -> Prop.
Hypothesis R_log : forall d m,
  Allowed (agent m) ->
  R d (with_queries d
         (updateFirst (hasQueryId qid) (fun q => pushConversation q m)
            (queries d))).

Lemma Respects_log a msg payload :
  Allowed a -> Respects R (log O a qid msg payload).
Proof.
  intros Ha. unfold log, getDb, newDate.
  apply Respects_bind; [apply Respects_storeCall | intros _].
  apply Respects_bind; [apply Respects_liftExt | intros t].
  apply Respects_writeDb. intros d. now apply R_log.
Qed.

Lemma Respects_QueryAnalystAgent_execute rawQuery :
  Allowed analyst -> Respects R (QueryAnalystAgent_execute O qid rawQuery).
Proof.
  intros Ha. unfold QueryAnalystAgent_execute.
  apply Respects_bind; [now apply Respects_log | intros _].
  apply Respects_bind; [apply Respects_parseQuery | intros requirements].
  apply Respects_bind; [now apply Respects_log | intros; apply Respects_ret].
Qed.

Lemma Respects_aggregate stage matchStage :
  Respects R (aggregate O stage matchStage).
Proof.
  unfold aggregate.
  apply Respects_bind; [apply Respects_storeCall | intros _].
  apply Respects_bind; [|intros; apply Respects_ret].
  intros w. apply (Respects_callExt (vectorSearch O (experts (db w)) stage)).
Qed.

Lemma Respects_vectorAttempt requirements queryEmbedding :
  Allowed scout ->
  Respects R (vectorAttempt O qid requirements queryEmbedding).
Proof.
  intros Ha. unfold vectorAttempt. cbv zeta.
  apply Respects_bind.
  - destruct (renownConstraint requirements) as [c|]; [|apply Respects_ret].
    destruct (renownFilter _); [|apply Respects_ret].
    apply Respects_bind; [now apply Respects_log | intros; apply Respects_ret].
  - intros matchStage.
    apply Respects_bind; [apply Respects_aggregate | intros results].
    destruct (0 <? length results)%nat; [|apply Respects_ret].
    apply Respects_bind; [now apply Respects_log | intros; apply Respects_ret].
Qed.

Lemma Respects_textSearch requirements :
  Allowed scout -> Respects R (textSearch O qid requirements).
Proof.
  intros Ha. unfold textSearch. cbv zeta.
  apply Respects_bind; [apply Respects_lift | intros query].
  apply Respects_bind; [apply Respects_readDb | intros found].
  apply Respects_bind; [now apply Respects_log | intros; apply Respects_ret].
Qed.

Lemma Respects_ProfileScoutAgent_execute requirements rawQuery :
  Allowed scout ->
  Respects R (ProfileScoutAgent_execute O qid requirements rawQuery).
Proof.
  intros Ha. unfold ProfileScoutAgent_execute, getDb, generateQueryEmbedding.
  apply Respects_bind; [now apply Respects_log | intros _].
  apply Respects_bind; [apply Respects_storeCall | intros _].
  apply Respects_bind; [apply Respects_generateEmbedding | intros v].
  apply Respects_bind.
  - apply Respects_try_catch; [now apply Respects_vectorAttempt|].
    intros; apply Respects_ret.
  - intros [results|]; [apply Respects_ret | now apply Respects_textSearch].
Qed.

Lemma Respects_VerifierAgent_execute candidates :
  Allowed verifier -> Respects R (VerifierAgent_execute O qid candidates).
Proof.
  intros Ha. unfold VerifierAgent_execute. cbv zeta.
  apply Respects_bind; [now apply Respects_log | intros _].
  apply Respects_bind; [now apply Respects_log | intros; apply Respects_ret].
Qed.

Lemma Respects_RecommenderAgent_execute candidates rawQuery requirements :
  Allowed recommender ->
  Respects R (RecommenderAgent_execute O qid candidates rawQuery requirements).
Proof.
  intros Ha. unfold RecommenderAgent_execute.
  apply Respects_bind; [now apply Respects_log | intros _].
  apply Respects_bind; [apply Respects_rankLoop | intros unsorted].
  cbv zeta.
  apply Respects_bind; [now apply Respects_log | intros; apply Respects_ret].
Qed.

End RespectsFacts.

Section RespectsPipeline.

Context {E : Type}.
Variable O : Oracles E.
Variable R : Db -> Db -> Prop.
Variable self : OrchestratorAgent.
Variable rawQuery : string.
Hypothesis R_refl : forall d, R d d.
Hypothesis R_trans : forall d1 d2 d3, R d1 d2 -> R d2 d3 -> R d1 d3.
Hypothesis R_embed : forall d txt v t,
  R d (with_cache_embeddings d
         (upsertFirst (hasTextHash (sha256_hex O txt))
            (storedEmbedding O txt v t) (cache_embeddings d))).
Hypothesis R_log : forall d m,
  agent m <> orchestrator ->
  R d (with_queries d
         (updateFirst (hasQueryId (this_queryId self))
            (fun q => pushConversation q m) (queries d))).
Hypothesis R_newQuery : forall d t,
  R d (with_queries d (queries d ++ [newQuery self rawQuery t])%list).
Hypothesis R_newTask : forall d t,
  R d (with_agent_tasks d (agent_tasks d ++ [newTask self t])%list).
Hypothesis R_completeQuery : forall d requirements matchIds t,
  R d (with_queries d
         (updateFirst (hasQueryId (this_queryId self))
            (completeQuery requirements matchIds t) (queries d))).
Hypothesis R_completeTask : forall d t,
  R d (with_agent_tasks d
         (updateFirst (hasTaskId (this_taskId self)) (completeTask t)
            (agent_tasks d))).
Hypothesis R_cache : forall d c,
  queryHash c = computeQueryHash O rawQuery ->
  R d (with_cache_search_results d
         (upsertFirst (hasQueryHash (computeQueryHash O rawQuery)) c
            (cache_search_results d))).
Hypothesis R_failQuery : forall d,
  R d (with_queries d
         (updateFirst (hasQueryId (this_queryId self)) failQuery (queries d))).

Lemma Respects_runStages : Respects R (runStages O self rawQuery).
Proof.
  unfold runStages.
  apply Respects_bind; try assumption.
  { apply (Respects_QueryAnalystAgent_execute O R R_refl R_trans
             (this_queryId self) (fun a => a <> orchestrator) R_log).
    discriminate. }
  intros requirements.
  apply Respects_bind; try assumption.
  { apply (Respects_ProfileScoutAgent_execute O R R_refl R_trans R_embed
             (this_queryId self) (fun a => a <> orchestrator) R_log).
    discriminate. }
  intros candidates.
  apply Respects_bind; try assumption.
  { apply (Respects_VerifierAgent_execute O R R_refl R_trans
             (this_queryId self) (fun a => a <> orchestrator) R_log).
    discriminate. }
  intros verifiedCandidates.
  apply Respects_bind; try assumption.
  { apply (Respects_RecommenderAgent_execute O R R_refl R_trans
             (this_queryId self) (fun a => a <> orchestrator) R_log).
    discriminate. }
  intros; now apply Respects_ret.
Qed.

Ltac respects_step :=
  first
    [ apply Respects_ret; assumption
    | apply Respects_throw; assumption
    | apply Respects_liftExt; assumption
    | apply Respects_readDb; assumption
    | apply Respects_storeCall; assumption
    | apply Respects_writeDb; [assumption | assumption | intros ?]
    | apply Respects_bind; [assumption | | intros ?]
    | apply Respects_try_catch; [assumption | | intros ?]
    | match goal with
      | |- Respects _ (match ?c with Some _ => _ | None => _ end) => destruct c
      end ].

Lemma Respects_processQuery : Respects R (processQuery O self rawQuery).
Proof.
  unfold processQuery, getDb. cbv zeta.
  respects_step; [respects_step|].
  respects_step.
  - respects_step.
    + unfold findCachedResult, newDate. repeat respects_step.
    + respects_step.
      * unfold cacheHit, newDate. repeat respects_step.
      * unfold fullInference.
        respects_step.
        { unfold createRecords, newDate. repeat respects_step.
          - apply R_newQuery.
          - apply R_newTask. }
        respects_step; [apply Respects_runStages|].
        unfold finish, newDate. cbv zeta. repeat respects_step.
        -- apply R_completeQuery.
        -- apply R_completeTask.
        -- now apply R_cache.
  - unfold onError. repeat respects_step. apply R_failQuery.
Qed.

End RespectsPipeline.

(** ** Isolation of an invocation *)

Lemma updateFirst_length {A : Type} (p : A -> bool) (f : A -> A) (l : list A) :
  length (updateFirst p f l) = length l.
Proof.
  induction l as [|x l IH]; simpl; [reflexivity|].
  destruct (p x); simpl; [reflexivity | now rewrite IH].
Qed.

Lemma filter_others_updateFirst {A : Type} (p : A -> bool) (f : A -> A)
  (l : list A) :
  (forall x, p (f x) = p x) ->
  filter (fun x => negb (p x)) (updateFirst p f l)
  = filter (fun x => negb (p x)) l.
Proof.
  intros Hp. induction l as [|x l IH]; simpl; [reflexivity|].
  destruct (p x) eqn:Hx; simpl.
  - now rewrite Hp, Hx.
  - now rewrite Hx, IH.
Qed.

Lemma filter_others_new {A : Type} (p : A -> bool) (l : list A) (x : A) :
  p x = true ->
  filter (fun y => negb (p y)) (l ++ [x]) = filter (fun y => negb (p y)) l.
Proof.
  intros Hx. rewrite filter_app. simpl. rewrite Hx. simpl. apply app_nil_r.
Qed.

Lemma Isolated_refl (self : OrchestratorAgent) (d : Db) : Isolated self d d.
Proof. repeat split; apply Nat.le_refl. Qed.

Lemma Isolated_same (self : OrchestratorAgent) (d d' : Db) :
  experts d' = experts d -> queries d' = queries d ->
  agent_tasks d' = agent_tasks d -> Isolated self d d'.
Proof.
  intros H1 H2 H3. unfold Isolated. rewrite H1, H2, H3.
  repeat split; apply Nat.le_refl.
Qed.

Lemma Isolated_trans (self : OrchestratorAgent) (d1 d2 d3 : Db) :
  Isolated self d1 d2 -> Isolated self d2 d3 -> Isolated self d1 d3.
Proof.
  intros (A1 & A2 & A3 & A4 & A5) (B1 & B2 & B3 & B4 & B5).
  repeat split; try congruence; lia.
Qed.

Lemma Isolated_updateQuery (self : OrchestratorAgent) (f : Query -> Query)
  (d : Db) :
  (forall q, queryId (f q) = queryId q) ->
  Isolated self d
    (with_queries d (updateFirst (hasQueryId (this_queryId self)) f (queries d))).
Proof.
  intros Hf. repeat split; cbn [queries agent_tasks with_queries].
  - unfold otherQueries. apply filter_others_updateFirst.
    intros q. unfold hasQueryId. now rewrite Hf.
  - now rewrite updateFirst_length.
  - apply Nat.le_refl.
Qed.

Section Isolation.

Context {E : Type}.
Variable O : Oracles E.

(** X2. Whatever its completion, one invocation of [processQuery] leaves
    the expert collection as it found it, leaves every query record and
    every task record that does not carry its own identifiers as it found
    them, in their order, and drops no query or task record. *)
Theorem processQuery_isolated (self : OrchestratorAgent) (rawQuery : string)
  (w : World E) :
  Isolated self (db w) (db (snd (processQuery O self rawQuery w))).
Proof.
  apply (Respects_processQuery O (Isolated self) self rawQuery).
  - apply Isolated_refl.
  - apply Isolated_trans.
  - intros d txt v t. now apply Isolated_same.
  - intros d m _. now apply Isolated_updateQuery.
  - intros d t. repeat split; cbn [queries agent_tasks with_queries].
    + unfold otherQueries. apply filter_others_new.
      unfold hasQueryId. cbn. apply String.eqb_refl.
    + rewrite length_app. lia.
    + apply Nat.le_refl.
  - intros d t. repeat split; cbn [queries agent_tasks with_agent_tasks].
    + unfold otherTasks. apply filter_others_new.
      unfold hasTaskId. cbn. apply String.eqb_refl.
    + apply Nat.le_refl.
    + rewrite length_app. lia.
  - intros d requirements matchIds t. now apply Isolated_updateQuery.
  - intros d t. repeat split; cbn [queries agent_tasks with_agent_tasks].
    + unfold otherTasks. apply filter_others_updateFirst. reflexivity.
    + apply Nat.le_refl.
    + now rewrite updateFirst_length.
  - intros d c _. now apply Isolated_same.
  - intros d. now apply Isolated_updateQuery.
Qed.

End Isolation.

(** ** One entry per hash *)

Lemma map_updateFirst_matching {A B : Type} (g : A -> B) (p : A -> bool)
  (f : A -> A) (l : list A) :
  (forall x, p x = true -> g (f x) = g x) ->
  map g (updateFirst p f l) = map g l.
Proof.
  intros Hg. induction l as [|x l IH]; simpl; [reflexivity|].
  destruct (p x) eqn:Hx; simpl; [now rewrite Hg | now rewrite IH].
Qed.

Lemma NoDup_upsertFirst {A : Type} (key : A -> string) (k : string)
  (doc : A) (l : list A) :
  key doc = k ->
  NoDup (map key l) ->
  NoDup (map key (upsertFirst (fun c => String.eqb (key c) k) doc l)).
Proof.
  intros Hdoc Hl. unfold upsertFirst.
  destruct (existsb (fun c => String.eqb (key c) k) l) eqn:Hex.
  - rewrite map_updateFirst_matching; [exact Hl|].
    intros x Hx. apply String.eqb_eq in Hx. congruence.
  - rewrite map_app. cbn [map]. rewrite Hdoc.
    apply (Permutation_NoDup (Permutation_cons_append (map key l) k)).
    constructor; [|exact Hl].
    intros Hin. apply in_map_iff in Hin. destruct Hin as (c & Hc & Hin).
    assert (Htrue : existsb (fun c => String.eqb (key c) k) l = true).
    { apply existsb_exists. exists c. split; [exact Hin|].
      now apply String.eqb_eq. }
    congruence.
Qed.

Section Uniqueness.

Context {E : Type}.
Variable O : Oracles E.

(** X3. When each cache holds at most one entry per hash, it still does
    after [processQuery], and after [generateEmbedding], whatever their
    completion: the upserts of the code never add a second entry under a
    hash that is there. *)
Theorem caches_keep_one_entry_per_hash (self : OrchestratorAgent)
  (rawQuery txt : string) (w : World E) :
  UniqueKeys (db w) ->
  UniqueKeys (db (snd (processQuery O self rawQuery w)))
  /\ UniqueKeys (db (snd (generateEmbedding O txt w))).
Proof.
  assert (Hrefl : forall d, UniqueKeys d -> UniqueKeys d) by trivial.
  assert (Htrans : forall d1 d2 d3 : Db,
             (UniqueKeys d1 -> UniqueKeys d2) ->
             (UniqueKeys d2 -> UniqueKeys d3) ->
             UniqueKeys d1 -> UniqueKeys d3) by auto.
  assert (Hembed : forall d txt' v t,
             UniqueKeys d ->
             UniqueKeys
               (with_cache_embeddings d
                  (upsertFirst (hasTextHash (sha256_hex O txt'))
                     (storedEmbedding O txt' v t) (cache_embeddings d)))).
  { intros d txt' v t (H1 & H2). split; [exact H1|].
    cbn [cache_embeddings with_cache_embeddings].
    now apply (NoDup_upsertFirst textHash). }
  intros Hw. split.
  - revert Hw.
    apply (Respects_processQuery O (fun d d' => UniqueKeys d -> UniqueKeys d')
             self rawQuery Hrefl Htrans Hembed); try (intros; assumption).
    intros d c Hc (H1 & H2). split; [|exact H2].
    cbn [cache_search_results with_cache_search_results].
    now apply (NoDup_upsertFirst queryHash).
  - revert Hw.
    apply (Respects_generateEmbedding O
             (fun d d' => UniqueKeys d -> UniqueKeys d') Hrefl Hembed).
Qed.

End Uniqueness.

Lemma caches_keep_one_entry_per_hash_witness :
  UniqueKeys (db (Demo.world Demo.cachedStore))
  /\ UniqueKeys
       (db (snd (processQuery (Demo.oracles Demo.embedded) Demo.agent2
                   "Find a React developer" (Demo.world Demo.cachedStore))))
  /\ UniqueKeys
       (db (snd (generateEmbedding (Demo.oracles Demo.embedded)
                   "Find a React developer" (Demo.world Demo.cachedStore)))).
Proof.
  assert (H : UniqueKeys (db (Demo.world Demo.cachedStore))).
  { split; vm_compute; repeat constructor; intros []. }
  split; [exact H|].
  exact (caches_keep_one_entry_per_hash (Demo.oracles Demo.embedded)
           Demo.agent2 "Find a React developer" "Find a React developer"
           (Demo.world Demo.cachedStore) H).
Defined.

(** ** The conversation trail *)

Lemma updateFirst_ext {A : Type} (p : A -> bool) (f g : A -> A) (l : list A) :
  (forall x, f x = g x) -> updateFirst p f l = updateFirst p g l.
Proof.
  intros H. induction l as [|x l IH]; simpl; [reflexivity|].
  destruct (p x); [now rewrite H | now rewrite IH].
Qed.

Lemma updateFirst_same {A : Type} (p : A -> bool) (f : A -> A) (l : list A) :
  (forall x, f x = x) -> updateFirst p f l = l.
Proof.
  intros H. induction l as [|x l IH]; simpl; [reflexivity|].
  destruct (p x); [now rewrite H | now rewrite IH].
Qed.

Lemma updateFirst_twice {A : Type} (p : A -> bool) (f g : A -> A) (l : list A) :
  (forall x, p (f x) = p x) ->
  updateFirst p g (updateFirst p f l) = updateFirst p (fun x => g (f x)) l.
Proof.
  intros Hp. induction l as [|x l IH]; simpl; [reflexivity|].
  destruct (p x) eqn:Hx; simpl.
  - now rewrite Hp, Hx.
  - now rewrite Hx, IH.
Qed.

Lemma appendConversation_nil (q : Query) : appendConversation [] q = q.
Proof. destruct q. unfold appendConversation. cbn. now rewrite app_nil_r. Qed.

Lemma appendConversation_app (n1 n2 : list AgentMessage) (q : Query) :
  appendConversation n2 (appendConversation n1 q)
  = appendConversation (n1 ++ n2) q.
Proof. unfold appendConversation. cbn. now rewrite app_assoc. Qed.

Lemma Logged_nil (qid : string) (d d' : Db) :
  experts d' = experts d -> agent_tasks d' = agent_tasks d ->
  cache_search_results d' = cache_search_results d ->
  queries d' = queries d -> Logged qid [] d d'.
Proof.
  intros H1 H2 H3 H4. repeat split; try assumption.
  rewrite H4. symmetry. apply updateFirst_same, appendConversation_nil.
Qed.

Lemma Logged_trans (qid : string) (n1 n2 : list AgentMessage) (d1 d2 d3 : Db) :
  Logged qid n1 d1 d2 -> Logged qid n2 d2 d3 -> Logged qid (n1 ++ n2) d1 d3.
Proof.
  intros (A1 & A2 & A3 & A4) (B1 & B2 & B3 & B4).
  repeat split; try congruence.
  rewrite B4, A4, updateFirst_twice by reflexivity.
  apply updateFirst_ext, appendConversation_app.
Qed.

(** The store after a step is the store before it with entries of [a]
    behind the conversation of the record of [qid]. *)
Lemma LoggedBy_facts (qid : string) (a : AgentType) :
  let R := fun d d' => exists new, writtenBy a new /\ Logged qid new d d' in
  (forall d, R d d)
  /\ (forall d1 d2 d3, R d1 d2 -> R d2 d3 -> R d1 d3)
  /\ (forall d l, R d (with_cache_embeddings d l))
  /\ (forall d m, agent m = a ->
        R d (with_queries d
               (updateFirst (hasQueryId qid) (fun q => pushConversation q m)
                  (queries d)))).
Proof.
  cbv zeta. repeat split.
  - intros d. exists []. split; [constructor | now apply Logged_nil].
  - intros d1 d2 d3 (n1 & H1 & L1) (n2 & H2 & L2). exists (n1 ++ n2)%list.
    split; [now apply Forall_app | now apply (Logged_trans qid n1 n2 d1 d2 d3)].
  - intros d l. exists []. split; [constructor | now apply Logged_nil].
  - intros d m Hm. exists [m]. split; [now constructor|].
    repeat split.
Qed.

Section Trail.

Context {E : Type}.
Variable O : Oracles E.

(** X4. Whatever the completion of the four stages, the store they leave
    is the store they found with some entries put behind the conversation
    of the query record of the invocation (the first one carrying its
    identifier), and nothing else changed outside the embedding cache;
    these entries are entries of the Analyst, followed by entries of the
    Scout, followed by entries of the Verifier, followed by entries of the
    Recommender. *)
Theorem stages_log_in_order (self : OrchestratorAgent) (rawQuery : string)
  (w : World E) :
  exists new,
    stageOrdered new
    /\ Logged (this_queryId self) new (db w)
         (db (snd (runStages O self rawQuery w))).
Proof.
  unfold runStages, bind. set (qid := this_queryId self).
  destruct (LoggedBy_facts qid analyst) as (Ar & At & Ae & Al).
  destruct (LoggedBy_facts qid scout) as (Sr & St & Se & Sl).
  destruct (LoggedBy_facts qid verifier) as (Vr & Vt & Ve & Vl).
  destruct (LoggedBy_facts qid recommender) as (Rr & Rt & Re & Rl).
  assert (Hnil : forall a, writtenBy a []) by (intros a; constructor).
  assert (Hdone : forall nA nS nV nR d',
             writtenBy analyst nA -> writtenBy scout nS ->
             writtenBy verifier nV -> writtenBy recommender nR ->
             Logged qid (nA ++ nS ++ nV ++ nR) (db w) d' ->
             exists new, stageOrdered new /\ Logged qid new (db w) d').
  { intros nA nS nV nR d' HA HS HV HR HL. eexists. split; [|exact HL].
    now exists nA, nS, nV, nR. }
  pose proof (Respects_QueryAnalystAgent_execute O _ Ar At qid (eq analyst)
                (fun d m H => Al d m (eq_sym H)) rawQuery eq_refl w) as HA.
  destruct (QueryAnalystAgent_execute O qid rawQuery w)
    as [[requirements|e] w1]; cbv beta iota zeta in *; cbn [snd] in *;
    destruct HA as (nA & HA & LA).
  2:{ apply (Hdone nA [] [] [] _ HA (Hnil _) (Hnil _) (Hnil _)).
      now rewrite !app_nil_r. }
  pose proof (Respects_ProfileScoutAgent_execute O _ Sr St
                (fun d txt v t => Se d _) qid (eq scout)
                (fun d m H => Sl d m (eq_sym H)) (Some requirements) rawQuery
                eq_refl w1) as HS.
  destruct (ProfileScoutAgent_execute O qid (Some requirements) rawQuery w1)
    as [[candidates|e] w2]; cbv beta iota zeta in *; cbn [snd] in *;
    destruct HS as (nS & HS & LS).
  2:{ apply (Hdone nA nS [] [] _ HA HS (Hnil _) (Hnil _)).
      rewrite !app_nil_r. now apply (Logged_trans qid nA nS _ (db w1)). }
  pose proof (Respects_VerifierAgent_execute O _ Vr Vt qid (eq verifier)
                (fun d m H => Vl d m (eq_sym H)) candidates eq_refl w2) as HV.
  destruct (VerifierAgent_execute O qid candidates w2)
    as [[verifiedCandidates|e] w3]; cbv beta iota zeta in *; cbn [snd] in *;
    destruct HV as (nV & HV & LV).
  2:{ apply (Hdone nA nS nV [] _ HA HS HV (Hnil _)).
      rewrite !app_nil_r.
      apply (Logged_trans qid nA (nS ++ nV) _ (db w1)); [exact LA|].
      now apply (Logged_trans qid nS nV _ (db w2)). }
  pose proof (Respects_RecommenderAgent_execute O _ Rr Rt qid (eq recommender)
                (fun d m H => Rl d m (eq_sym H)) verifiedCandidates rawQuery
                (Some requirements) eq_refl w3) as HR.
  assert (HL : forall nR d4, Logged qid nR (db w3) d4 ->
                 Logged qid (nA ++ nS ++ nV ++ nR) (db w) d4).
  { intros nR d4 LR.
    apply (Logged_trans qid nA (nS ++ nV ++ nR) _ (db w1)); [exact LA|].
    apply (Logged_trans qid nS (nV ++ nR) _ (db w2)); [exact LS|].
    now apply (Logged_trans qid nV nR _ (db w3)). }
  destruct (RecommenderAgent_execute O qid verifiedCandidates rawQuery
              (Some requirements) w3)
    as [[matches|e] w4]; cbv beta iota zeta in *; cbn [snd] in *;
    destruct HR as (nR & HR & LR);
    apply (Hdone nA nS nV nR _ HA HS HV HR); now apply HL.
Qed.
End Trail.

(** ** The records of a completed invocation *)

Lemma matchId_safeMatch (m : ExpertMatch) : matchId (safeMatch m) = matchId m.
Proof.
  unfold matchId, safeMatch. cbn [expert _id].
  destruct (JS.truthyOpt (_id (expert m))) eqn:H; [now rewrite H | reflexivity].
Qed.

Section Completion.

Context {E : Type}.
Variable O : Oracles E.

Lemma store_up (e : E) : StoreUp O -> exists e', store_fault O e = (None, e').
Proof.
  intros Hup. specialize (Hup e). destruct (store_fault O e) as [f e'].
  cbn in Hup. subst f. now exists e'.
Qed.

Lemma finish_effect (self : OrchestratorAgent) (rawQuery hash : string)
  (requirements : Requirements) (matches : list ExpertMatch) (w : World E) :
  StoreUp O ->
  exists r w' t t',
    finish O self rawQuery hash requirements matches w = (Return r, w')
    /\ r_queryId r = this_queryId self
    /\ r_matches r = map safeMatch matches
    /\ queries (db w')
       = updateFirst (hasQueryId (this_queryId self))
           (completeQuery requirements (map matchId matches) t)
           (queries (db w))
    /\ agent_tasks (db w')
       = updateFirst (hasTaskId (this_taskId self)) (completeTask t')
           (agent_tasks (db w))
    /\ r_conversation r
       = match find (hasQueryId (this_queryId self)) (queries (db w')) with
         | Some q => agentConversation q
         | None => []
         end.
Proof.
  intros Hup.
  cbv beta zeta delta [finish bind writeDb readDb storeCall newDate liftExt ret].
  destruct (Date_now O (ext w)) as [t1 e1]. cbn [db ext].
  destruct (store_up e1 Hup) as (e2 & ->). cbn [db ext].
  destruct (Date_now O e2) as [t2 e3]. cbn [db ext].
  destruct (store_up e3 Hup) as (e4 & ->). cbn [db ext].
  destruct (store_up e4 Hup) as (e5 & ->). cbn [db ext].
  destruct (Date_now O e5) as [created e6]. cbn [db ext].
  destruct (Date_now O e6) as [now e7]. cbn [db ext].
  destruct (store_up e7 Hup) as (e8 & ->). cbn [db ext].
  eexists _, _, t1, t2. split; [reflexivity|]. cbn. repeat split.
Qed.

(** X5. When the store answers, the cache has no live entry for the query
    and the four stages return, [processQuery] returns the result of the
    Recommender with the identifier of the invocation; the query record
    of the invocation is then [Completed], holds the parsed requirements,
    the identifiers of the returned matches and the very conversation that
    is returned, and the task record is [TaskCompleted]; both carry a
    completion date. *)
Theorem completed_run_closes_records (self : OrchestratorAgent)
  (rawQuery : string) (w0 w1 w2 w3 : World E)
  (requirements : Requirements) (matches : list ExpertMatch) :
  StoreUp O ->
  (getDb O ;; findCachedResult O (computeQueryHash O rawQuery)) w0
  = (Return None, w1) ->
  createRecords O self rawQuery w1 = (Return tt, w2) ->
  runStages O self rawQuery w2 = (Return (requirements, matches), w3) ->
  exists r w4 q k,
    processQuery O self rawQuery w0 = (Return r, w4)
    /\ r_queryId r = this_queryId self
    /\ r_matches r = map safeMatch matches
    /\ find (hasQueryId (this_queryId self)) (queries (db w4)) = Some q
    /\ status q = Completed
    /\ parsedRequirements q = Some requirements
    /\ results q = map matchId (r_matches r)
    /\ agentConversation q = r_conversation r
    /\ q_completedAt q <> None
    /\ find (hasTaskId (this_taskId self)) (agent_tasks (db w4)) = Some k
    /\ t_status k = TaskCompleted
    /\ t_completedAt k <> None.
Proof.
  intros Hup Hcheck Hcreate Hstages.
  destruct (createRecords_inv O self rawQuery w1 w2 Hcreate) as (t & t' & Hdb2).
  pose proof (Preserves_runStages O self rawQuery w2) as Hframe.
  rewrite Hstages in Hframe. cbn [snd] in Hframe.
  destruct Hframe as (_ & Htasks & _ & Hids & _).
  destruct (finish_effect self rawQuery (computeQueryHash O rawQuery)
              requirements matches w3 Hup)
    as (r & w4 & tq & tk & Hfin & Hid & Hms & Hqs & Hks & Hconv).
  assert (Hq : exists q, find (hasQueryId (this_queryId self))
                           (queries (db w3)) = Some q).
  { assert (Hnew : exists q, find (hasQueryId (this_queryId self))
                               (queries (db w2)) = Some q).
    { rewrite Hdb2. cbn [queries with_agent_tasks with_queries].
      apply find_app_some. unfold hasQueryId. cbn. apply String.eqb_refl. }
    destruct Hnew as (q2 & Hq2).
    exact (find_same_keys queryId (this_queryId self) _ _ q2 Hids Hq2). }
  destruct Hq as (q3 & Hq3).
  assert (Hk : exists k, find (hasTaskId (this_taskId self))
                           (agent_tasks (db w3)) = Some k).
  { rewrite Htasks, Hdb2. cbn [agent_tasks with_agent_tasks].
    apply find_app_some. unfold hasTaskId. cbn. apply String.eqb_refl. }
  destruct Hk as (k3 & Hk3).
  assert (Hq4 : find (hasQueryId (this_queryId self)) (queries (db w4))
                = Some (completeQuery requirements (map matchId matches) tq q3)).
  { rewrite Hqs. apply find_updateFirst; [exact Hq3|].
    apply (find_some _ _ Hq3). }
  exists r, w4, (completeQuery requirements (map matchId matches) tq q3),
    (completeTask tk k3).
  split.
  { apply bind_inv in Hcheck.
    destruct Hcheck as [([] & wa & Hget & Hfind) | (e & _ & [=])].
    unfold processQuery. rewrite (bind_Return _ _ _ _ _ Hget). cbv zeta.
    apply try_catch_Return. rewrite (bind_Return _ _ _ _ _ Hfind).
    unfold fullInference. rewrite (bind_Return _ _ _ _ _ Hcreate).
    rewrite (bind_Return _ _ _ _ _ Hstages). exact Hfin. }
  repeat split; try assumption; try discriminate.
  - rewrite Hms, map_map. cbn [results completeQuery].
    apply map_ext. intros m. symmetry. apply matchId_safeMatch.
  - rewrite Hconv, Hq4. reflexivity.
  - rewrite Hks. apply find_updateFirst; [exact Hk3|].
    apply (find_some _ _ Hk3).
Qed.

End Completion.

Lemma completed_run_closes_records_witness :
  let O := Demo.oracles Demo.prose in
  let w0 := Demo.world (Demo.store [Demo.ada; Demo.bo]) in
  exists r w4 q k,
    processQuery O Demo.agent1 "React developer" w0 = (Return r, w4)
    /\ r_queryId r = "query_3f2a9c1e"
    /\ length (r_matches r) = 1%nat
    /\ find (hasQueryId "query_3f2a9c1e") (queries (db w4)) = Some q
    /\ status q = Completed
    /\ results q = ["65a1"]
    /\ agentConversation q = r_conversation r
    /\ find (hasTaskId "task_3f2a9c1e") (agent_tasks (db w4)) = Some k
    /\ t_status k = TaskCompleted.
Proof.
  intros O w0.
  pose (w1 := snd ((getDb O ;;
                    findCachedResult O (computeQueryHash O "React developer"))
                     w0)).
  pose (w2 := snd (createRecords O Demo.agent1 "React developer" w1)).
  pose (run := runStages O Demo.agent1 "React developer" w2).
  pose (staged := match fst run with
                  | Return s => s
                  | Throw _ => (defaultResult O "", [])
                  end).
  assert (H1 : (getDb O ;;
                findCachedResult O (computeQueryHash O "React developer")) w0
               = (Return None, w1)) by (vm_compute; reflexivity).
  assert (H2 : createRecords O Demo.agent1 "React developer" w1
               = (Return tt, w2)) by (vm_compute; reflexivity).
  assert (H3 : runStages O Demo.agent1 "React developer" w2
               = (Return (fst staged, snd staged), snd run))
    by (vm_compute; reflexivity).
  destruct (completed_run_closes_records O Demo.agent1 "React developer"
              w0 w1 w2 (snd run) (fst staged) (snd staged)
              (StoreUp_demo Demo.prose) H1 H2 H3)
    as (r & w4 & q & k & Hrun & Hid & Hms & Hq & Hst & _ & Hres & Hconv & _
        & Hk & Hks & _).
  exists r, w4, q, k. repeat split; try assumption.
  - rewrite Hms. vm_compute. reflexivity.
  - rewrite Hres, Hms. vm_compute. reflexivity.
Defined.

(** ** Failures of the store *)

Lemma updateFirst_absent {A : Type} (p : A -> bool) (f : A -> A) (l : list A) :
  existsb p l = false -> updateFirst p f l = l.
Proof.
  induction l as [|x l IH]; simpl; [reflexivity|].
  destruct (p x); [discriminate|]. intros H. now rewrite IH.
Qed.

Lemma with_queries_same (d : Db) : with_queries d (queries d) = d.
Proof. now destruct d. Qed.

Section Outage.

Context {E : Type}.
Variable O : Oracles E.

(** X6. When a stage fails and the store then rejects the status update of
    the [catch] block, [processQuery] rejects with the error of the store,
    not with the error of the stage, and writes nothing more: the query
    record created by the invocation stays [Processing] and its task record
    stays as created. *)
Theorem store_failure_while_marking_failed (self : OrchestratorAgent)
  (rawQuery : string) (w0 w1 w2 w3 : World E) (error x : Exn) (e4 : E) :
  (getDb O ;; findCachedResult O (computeQueryHash O rawQuery)) w0
  = (Return None, w1) ->
  createRecords O self rawQuery w1 = (Return tt, w2) ->
  runStages O self rawQuery w2 = (Throw error, w3) ->
  store_fault O (ext w3) = (Some x, e4) ->
  processQuery O self rawQuery w0 = (Throw x, {| db := db w3; ext := e4 |})
  /\ map status (queries (db w3))
     = (map status (queries (db w0)) ++ [Processing])%list
  /\ exists t,
       agent_tasks (db w3) = (agent_tasks (db w0) ++ [newTask self t])%list.
Proof.
  intros Hcheck Hcreate Hstages Hstore.
  pose proof (cacheCheck_db O _ _ _ _ Hcheck) as Hdb1.
  destruct (createRecords_inv O self rawQuery w1 w2 Hcreate) as (t & t' & Hdb2).
  pose proof (Preserves_runStages O self rawQuery w2) as Hframe.
  rewrite Hstages in Hframe. cbn [snd] in Hframe.
  destruct Hframe as (_ & Htasks & _ & _ & Hstatus).
  split; [|split].
  - apply bind_inv in Hcheck.
    destruct Hcheck as [([] & wa & Hget & Hfind) | (e & _ & [=])].
    unfold processQuery. rewrite (bind_Return _ _ _ _ _ Hget). cbv zeta.
    unfold try_catch. rewrite (bind_Return _ _ _ _ _ Hfind).
    unfold fullInference. rewrite (bind_Return _ _ _ _ _ Hcreate).
    rewrite (bind_Throw _ _ _ _ _ Hstages).
    cbv beta delta [onError bind writeDb storeCall throw].
    rewrite Hstore. reflexivity.
  - rewrite Hstatus, Hdb2, Hdb1. cbn [queries with_agent_tasks with_queries].
    now rewrite map_app.
  - exists t'. rewrite Htasks, Hdb2, Hdb1. reflexivity.
Qed.

(** X7. A failure of the store before the records are created leaves no
    record of the invocation.  When [getDb] rejects, [processQuery] rejects
    with that error and the store is as it was.  When the lookup in the
    result cache rejects, the [catch] block runs.  If the store takes its
    status update, [processQuery] rejects with the error of the lookup, and
    the only write is that update on a record carrying the identifier of
    the invocation, which changes nothing when there is none.  If the store
    rejects the update too, [processQuery] rejects with the error of the
    update and the store is as it was. *)
Theorem failure_before_the_records (self : OrchestratorAgent)
  (rawQuery : string) (w : World E) (x : Exn) :
  (forall e1,
     store_fault O (ext w) = (Some x, e1) ->
     processQuery O self rawQuery w = (Throw x, {| db := db w; ext := e1 |}))
  /\ (forall e1 now e2 e3,
        store_fault O (ext w) = (None, e1) ->
        Date_now O e1 = (now, e2) ->
        store_fault O e2 = (Some x, e3) ->
        (forall e4,
           store_fault O e3 = (None, e4) ->
           processQuery O self rawQuery w
           = (Throw x,
              {| db := with_queries (db w)
                         (updateFirst (hasQueryId (this_queryId self))
                            failQuery (queries (db w)));
                 ext := e4 |})
           /\ (existsb (hasQueryId (this_queryId self)) (queries (db w))
               = false ->
               processQuery O self rawQuery w
               = (Throw x, {| db := db w; ext := e4 |})))
        /\ (forall x' e4,
              store_fault O e3 = (Some x', e4) ->
              processQuery O self rawQuery w
              = (Throw x', {| db := db w; ext := e4 |}))).
Proof.
  split.
  - intros e1 H1.
    cbv beta zeta delta [processQuery bind getDb storeCall].
    now rewrite H1.
  - intros e1 now e2 e3 H1 H2 H3. split.
    + intros e4 H4.
      assert (Hrun : processQuery O self rawQuery w
                     = (Throw x,
                        {| db := with_queries (db w)
                                   (updateFirst
                                      (hasQueryId (this_queryId self))
                                      failQuery (queries (db w)));
                           ext := e4 |})).
      { cbv beta zeta delta [processQuery bind getDb storeCall try_catch
                               findCachedResult newDate liftExt readDb onError
                               writeDb throw].
        rewrite H1. cbn [db ext]. rewrite H2. cbn [db ext]. rewrite H3.
        cbn [db ext]. rewrite H4. reflexivity. }
      split; [exact Hrun|]. intros Hnone. rewrite Hrun.
      now rewrite (updateFirst_absent _ _ _ Hnone), with_queries_same.
    + intros x' e4 H4.
      cbv beta zeta delta [processQuery bind getDb storeCall try_catch
                             findCachedResult newDate liftExt readDb onError
                             writeDb throw].
      rewrite H1. cbn [db ext]. rewrite H2. cbn [db ext]. rewrite H3.
      cbn [db ext]. rewrite H4. reflexivity.
Qed.

End Outage.

Lemma store_failure_while_marking_failed_witness :
  let O := outageAt 1056 Demo.offline in
  let w0 := Demo.world (Demo.store [Demo.ada; Demo.bo]) in
  exists w4,
    processQuery O Demo.agent1 "React developer" w0
    = (Throw (Error "connection closed"), w4)
    /\ map status (queries (db w4)) = [Processing].
Proof.
  intros O w0.
  pose (w1 := snd ((getDb O ;;
                    findCachedResult O (computeQueryHash O "React developer"))
                     w0)).
  pose (w2 := snd (createRecords O Demo.agent1 "React developer" w1)).
  pose (w3 := snd (runStages O Demo.agent1 "React developer" w2)).
  assert (H1 : (getDb O ;;
                findCachedResult O (computeQueryHash O "React developer")) w0
               = (Return None, w1)) by (vm_compute; reflexivity).
  assert (H2 : createRecords O Demo.agent1 "React developer" w1
               = (Return tt, w2)) by (vm_compute; reflexivity).
  assert (H3 : runStages O Demo.agent1 "React developer" w2
               = (Throw (Error "FIREWORKS_API_KEY not set"), w3))
    by (vm_compute; reflexivity).
  assert (H4 : store_fault O (ext w3)
               = (Some (Error "connection closed"), 1057%nat))
    by (vm_compute; reflexivity).
  destruct (store_failure_while_marking_failed O Demo.agent1 "React developer"
              w0 w1 w2 w3 _ _ _ H1 H2 H3 H4) as (Hrun & Hst & _).
  eexists. split; [exact Hrun|]. exact Hst.
Defined.

Lemma failure_before_the_records_witness :
  let w := Demo.world (Demo.store [Demo.ada; Demo.bo]) in
  processQuery (outageAt 0 Demo.offline) Demo.agent1 "React developer" w
  = (Throw (Error "connection closed"), {| db := db w; ext := 1%nat |})
  /\ processQuery (outageAt 2 Demo.offline) Demo.agent1 "React developer" w
     = (Throw (Error "connection closed"), {| db := db w; ext := 4%nat |}).
Proof.
  intros w. split.
  - apply (proj1 (failure_before_the_records (outageAt 0 Demo.offline)
                    Demo.agent1 "React developer" w _)).
    reflexivity.
  - apply (proj1 (proj2 (failure_before_the_records (outageAt 2 Demo.offline)
                           Demo.agent1 "React developer" w _)
                    1%nat 1000%Z 2%nat 3%nat eq_refl eq_refl eq_refl)
             4%nat); reflexivity.
Defined.

(** ** The embedding cache *)

Section EmbeddingCache.

Context {E : Type}.
Variable O : Oracles E.

Lemma embedViaCache_hit (txt : string) (w : World E) (e1 e2 : E)
  (c : EmbeddingCacheEntry) :
  find (hasTextHash (sha256_hex O txt)) (cache_embeddings (db w)) = Some c ->
  store_fault O (ext w) = (None, e1) ->
  store_fault O e1 = (None, e2) ->
  embedViaCache O txt w = (Return (embedding c), {| db := db w; ext := e2 |}).
Proof.
  intros Hc H1 H2.
  cbv beta zeta delta [embedViaCache bind getDb readDb storeCall].
  rewrite H1. cbn [db ext]. rewrite H2. cbn [db ext]. now rewrite Hc.
Qed.

(** X8. With the embedding credential set, once the [try] block of
    [generateEmbedding] has returned a vector for a text, the embedding
    cache holds an entry under the hash of the text with that vector; and
    on any store with the same embedding cache that answers its two calls,
    [generateEmbedding] returns that same vector for the text, with no
    request to the provider and no write. *)
Theorem embedding_cache_round_trip (txt : string) (v : list number)
  (w w1 : World E) :
  JS.truthyOpt (VOYAGE_API_KEY O) = true ->
  embedViaCache O txt w = (Return v, w1) ->
  (exists c,
      find (hasTextHash (sha256_hex O txt)) (cache_embeddings (db w1)) = Some c
      /\ textHash c = sha256_hex O txt
      /\ embedding c = v)
  /\ forall (w2 : World E) (e1 e2 : E),
       cache_embeddings (db w2) = cache_embeddings (db w1) ->
       store_fault O (ext w2) = (None, e1) ->
       store_fault O e1 = (None, e2) ->
       generateEmbedding O txt w2
       = (Return v, {| db := db w2; ext := e2 |}).
Proof.
  intros Hkey Hrun.
  assert (Hc : exists c,
             find (hasTextHash (sha256_hex O txt)) (cache_embeddings (db w1))
             = Some c /\ embedding c = v).
  { pose proof (embedViaCache_outcome O txt w) as Hout. rewrite Hrun in Hout.
    destruct Hout as [(c & Hfind & -> & Hdb) | (t & _ & Hdb)]; rewrite Hdb.
    - now exists c.
    - exists (storedEmbedding O txt v t). split; [|reflexivity].
      cbn [cache_embeddings with_cache_embeddings].
      apply find_upsertFirst. unfold hasTextHash. cbn. apply String.eqb_refl. }
  destruct Hc as (c & Hfind & Hv). split.
  - exists c. split; [exact Hfind|]. split; [|exact Hv].
    apply find_some in Hfind. destruct Hfind as (_ & Hh).
    now apply String.eqb_eq in Hh.
  - intros w2 e1 e2 Hsame H1 H2. unfold generateEmbedding. rewrite Hkey.
    apply try_catch_Return. rewrite <- Hv.
    apply (embedViaCache_hit txt w2 e1 e2 c);
      [now rewrite Hsame | exact H1 | exact H2].
Qed.

End EmbeddingCache.

Lemma embedding_cache_round_trip_witness :
  let O := Demo.oracles Demo.embedded in
  let w := Demo.world (Demo.store [Demo.ada; Demo.bo]) in
  let w1 := snd (embedViaCache O "React developer" w) in
  fst (embedViaCache O "React developer" w) = Return [0.25; -0.5; 0.125]%Q
  /\ generateEmbedding O "React developer" w1
     = (Return [0.25; -0.5; 0.125]%Q, w1).
Proof.
  intros O w w1.
  assert (Hrun : embedViaCache O "React developer" w
                 = (Return [0.25; -0.5; 0.125]%Q, w1))
    by (vm_compute; reflexivity).
  split; [vm_compute; reflexivity|].
  apply (proj2 (embedding_cache_round_trip O "React developer" _ w w1
                  eq_refl Hrun) w1 (ext w1) (ext w1) eq_refl);
    reflexivity.
Defined.

(** ** The candidates of the Scout *)

Lemma matchesRenown_In (levels : list RenownLevel) (e : Expert) :
  matchesRenown levels e = true ->
  exists l, renownLevel e = Some l /\ In l levels.
Proof.
  unfold matchesRenown. destruct (renownLevel e) as [l|]; [|discriminate].
  intros H. apply existsb_exists in H. destruct H as (l' & Hin & Heq).
  exists l. split; [reflexivity|].
  destruct l, l'; try discriminate; exact Hin.
Qed.

Lemma aggregateResult_spec (matchStage : option (list RenownLevel))
  (found : list (Expert * number)) :
  (length (aggregateResult matchStage found) <= 10)%nat
  /\ Forall (fun e => exists s, vectorSearchScore e = Some s)
       (aggregateResult matchStage found)
  /\ forall levels, matchStage = Some levels ->
       Forall (fun e => exists l, renownLevel e = Some l /\ In l levels)
         (aggregateResult matchStage found).
Proof.
  unfold aggregateResult. cbv zeta. split; [apply firstn_le_length|]. split.
  - apply Forall_forall. intros e He. apply In_firstn in He.
    assert (Hin : In e (map (fun p => withVectorSearchScore (fst p) (snd p))
                          found)).
    { destruct matchStage; [|exact He]. now apply filter_In in He. }
    apply in_map_iff in Hin. destruct Hin as (p & <- & _).
    now exists (snd p).
  - intros levels ->. apply Forall_forall. intros e He. apply In_firstn in He.
    apply filter_In in He. now apply matchesRenown_In.
Qed.

Lemma compileAll_invalid {E : Type} (O : Oracles E) (skillNames : list string) :
  (exists s, In s skillNames /\ RegExp_valid O s = false) ->
  exists msg, compileAll O skillNames = Throw (SyntaxError msg).
Proof.
  induction skillNames as [|n names IH]; intros (s & Hin & Hbad).
  - destruct Hin.
  - cbn [compileAll]. unfold RegExp_new.
    destruct (RegExp_valid O n) eqn:Hn.
    + destruct IH as (msg & ->).
      * destruct Hin as [-> | Hin]; [congruence | now exists s].
      * now exists msg.
    + eexists. reflexivity.
Qed.

Section ScoutFacts.

Context {E : Type}.
Variable O : Oracles E.

Lemma vectorAttempt_results (qid : string) (requirements : option Requirements)
  (queryEmbedding : list number) (w w' : World E) (results : list Expert) :
  vectorAttempt O qid requirements queryEmbedding w
  = (Return (Some results), w') ->
  exists found,
    results = aggregateResult (matchStageOf O requirements) found
    /\ results <> [].
Proof.
  unfold vectorAttempt. cbv zeta. intros H.
  apply bind_Return_inv in H. destruct H as (matchStage & w1 & Hm & H).
  apply matchStage_returns in Hm. subst matchStage.
  apply bind_Return_inv in H. destruct H as (rs & w2 & Hagg & H).
  unfold aggregate in Hagg.
  apply bind_Return_inv in Hagg. destruct Hagg as ([] & w3 & _ & Hagg).
  apply bind_Return_inv in Hagg. destruct Hagg as (found & w4 & _ & Hagg).
  injection Hagg as <- _.
  destruct (0 <? length (aggregateResult (matchStageOf O requirements) found))%nat
    eqn:Hlen.
  - apply bind_Return_inv in H. destruct H as ([] & w5 & _ & H).
    injection H as <- _. exists found. split; [reflexivity|].
    intros Hnil. rewrite Hnil in Hlen. discriminate.
  - discriminate.
Qed.

(** Through its first two steps, the embedding of the query and the attempt
    on the vector index, the Scout leaves the experts as they are. *)
Lemma scout_reaches_attempt (qid : string) (requirements : option Requirements)
  (rawQuery : string) (w w' : World E) (r : Completion (list Expert)) :
  ProfileScoutAgent_execute O qid requirements rawQuery w = (r, w') ->
  (exists x, r = Throw x)
  \/ exists v w3 w4 attempt,
       try_catch (vectorAttempt O qid requirements v) (fun _ => ret None) w3
       = (Return attempt, w4)
       /\ experts (db w4) = experts (db w)
       /\ match attempt with
          | Some results => (Return results, w4)
          | None => textSearch O qid requirements w4
          end = (r, w').
Proof.
  unfold ProfileScoutAgent_execute. intros H.
  apply bind_inv in H. destruct H as [([] & w1 & H1 & H) | (x & _ & ->)];
    [|left; now exists x].
  apply bind_inv in H. destruct H as [([] & w2 & H2 & H) | (x & _ & ->)];
    [|left; now exists x].
  apply bind_inv in H. destruct H as [(v & w3 & H3 & H) | (x & _ & ->)];
    [|left; now exists x].
  apply bind_inv in H. destruct H as [(attempt & w4 & H4 & H) | (x & _ & ->)];
    [|left; now exists x].
  right. exists v, w3, w4, attempt. split; [exact H4|]. split.
  - rewrite (step_frame _ _ _ _
               (Preserves_try_catch _ _
                  (Preserves_vectorAttempt O qid requirements v)
                  (fun _ => Preserves_ret None)) H4).
    rewrite (step_frame _ _ _ _ (Preserves_generateEmbedding O rawQuery) H3).
    rewrite (step_frame _ _ _ _ (Preserves_storeCall O) H2).
    exact (step_frame _ _ _ _ (Preserves_log O _ _ _ _) H1).
  - destruct attempt; exact H.
Qed.

(** X9. Whenever the Scout returns, it returns at most ten candidates, and
    they are either a non-empty answer of the vector index, each candidate
    carrying its similarity score and, under a renown filter, a renown level
    among the requested ones; or the first ten experts of the collection, in
    its order, that satisfy the filter document of the text search. *)
Theorem scout_candidates (qid : string) (requirements : option Requirements)
  (rawQuery : string) (w w' : World E) (found : list Expert) :
  ProfileScoutAgent_execute O qid requirements rawQuery w = (Return found, w') ->
  (length found <= 10)%nat
  /\ ((found <> []
       /\ Forall (fun e => exists s, vectorSearchScore e = Some s) found
       /\ forall levels, matchStageOf O requirements = Some levels ->
            Forall (fun e => exists l, renownLevel e = Some l /\ In l levels)
              found)
      \/ exists query,
           textQuery O (skillNamesOf requirements) = Return query
           /\ found
              = firstn 10 (filter (matchesTextQuery O query) (experts (db w)))).
Proof.
  intros H. apply scout_reaches_attempt in H.
  destruct H as [(x & [=]) | (v & w3 & w4 & attempt & H4 & Hexp & H)].
  destruct attempt as [results|].
  - injection H as -> _.
    unfold try_catch in H4.
    destruct (vectorAttempt O qid requirements v w3) as [[r|x] w5] eqn:Hv;
      [|discriminate].
    injection H4 as -> _.
    apply vectorAttempt_results in Hv. destruct Hv as (fnd & -> & Hne).
    destruct (aggregateResult_spec (matchStageOf O requirements) fnd)
      as (Hlen & Hscore & Hrenown).
    split; [exact Hlen|]. left. now repeat split.
  - unfold textSearch in H. cbv zeta in H.
    apply bind_Return_inv in H. destruct H as (query & w5 & Hq & H).
    unfold lift in Hq. injection Hq as Hq <-.
    apply bind_Return_inv in H. destruct H as (fnd & w6 & Hread & H).
    apply bind_Return_inv in H. destruct H as ([] & w7 & _ & H).
    injection H as <- _.
    unfold readDb in Hread.
    apply bind_Return_inv in Hread. destruct Hread as ([] & w8 & Hs & Hread).
    injection Hread as <- _.
    rewrite (step_frame _ _ _ _ (Preserves_storeCall O) Hs), Hexp.
    split.
    + exact (firstn_le_length 10
               (filter (matchesTextQuery O query) (experts (db w)))).
    + right. now exists query.
Qed.

(** X10. When the store answers and the vector index gives nothing, a skill
    name that [new RegExp] refuses makes the Scout fail with a
    [SyntaxError], whatever the other skill names are; the experts are left
    as they were. *)
Theorem scout_rejects_invalid_pattern (qid : string)
  (requirements : option Requirements) (rawQuery : string) (w : World E) :
  StoreUp O ->
  NoVectorResults O requirements ->
  (exists s, In s (skillNamesOf requirements) /\ RegExp_valid O s = false) ->
  exists msg w',
    ProfileScoutAgent_execute O qid requirements rawQuery w
    = (Throw (SyntaxError msg), w')
    /\ experts (db w') = experts (db w).
Proof.
  intros Hup Hno Hbad.
  destruct (ProfileScoutAgent_execute O qid requirements rawQuery w)
    as [r w'] eqn:Hrun.
  assert (Hexp : experts (db w') = experts (db w))
    by exact (step_frame _ _ _ _
                (Preserves_ProfileScoutAgent_execute O qid requirements rawQuery)
                Hrun).
  assert (Htext : forall w4 r', textSearch O qid requirements w4 = (r', w') ->
                    exists msg, r' = Throw (SyntaxError msg)).
  { intros w4 r'. unfold textSearch, textQuery. cbv zeta.
    destruct (compileAll_invalid O _ Hbad) as (msg & ->).
    destruct Hbad as (s & Hin & _).
    destruct (skillNamesOf requirements); [destruct Hin|].
    cbn [length Nat.ltb Nat.leb]. unfold lift, bind at 1.
    intros [= <- _]. now exists msg. }
  revert Hrun. unfold ProfileScoutAgent_execute.
  destruct (log_returns O scout qid "Searching expert database..." None w Hup)
    as (w1 & H1).
  rewrite (bind_Return _ _ _ _ _ H1).
  destruct (storeCall_returns O w1 Hup) as (w2 & H2 & _).
  unfold getDb. rewrite (bind_Return _ _ _ _ _ H2).
  destruct (generateEmbedding_outcome O rawQuery w2) as (v & w3 & H3 & _).
  unfold generateQueryEmbedding. rewrite (bind_Return _ _ _ _ _ H3).
  assert (Hattempt : exists w4,
             try_catch (vectorAttempt O qid requirements v)
               (fun _ => ret None) w3 = (Return None, w4)).
  { unfold try_catch.
    destruct (vectorAttempt O qid requirements v w3) as [[a|x] w4] eqn:Hv.
    - rewrite (vectorAttempt_fruitless O _ _ _ _ _ _ Hno Hv). now exists w4.
    - now exists w4. }
  destruct Hattempt as (w4 & H4).
  rewrite (bind_Return _ _ _ _ _ H4). intros Hrun.
  destruct (Htext w4 r Hrun) as (msg & ->).
  now exists msg, w'.
Qed.

End ScoutFacts.

Lemma scout_candidates_witness :
  let found := [Demo.ada] in
  (length found <= 10)%nat
  /\ ((found <> []
       /\ Forall (fun e => exists s, vectorSearchScore e = Some s) found
       /\ forall levels,
            matchStageOf (Demo.oracles Demo.offline)
              (Some Demo.reactRequirements) = Some levels ->
            Forall (fun e => exists l, renownLevel e = Some l /\ In l levels)
              found)
      \/ exists query,
           textQuery (Demo.oracles Demo.offline)
             (skillNamesOf (Some Demo.reactRequirements)) = Return query
           /\ found
              = firstn 10
                  (filter (matchesTextQuery (Demo.oracles Demo.offline) query)
                     [Demo.ada; Demo.bo])).
Proof.
  apply (scout_candidates (Demo.oracles Demo.offline) "query_3f2a9c1e"
           (Some Demo.reactRequirements) "React developer"
           (Demo.world (Demo.store [Demo.ada; Demo.bo]))
           (snd (ProfileScoutAgent_execute (Demo.oracles Demo.offline)
                   "query_3f2a9c1e" (Some Demo.reactRequirements)
                   "React developer"
                   (Demo.world (Demo.store [Demo.ada; Demo.bo]))))).
  vm_compute. reflexivity.
Defined.

Lemma scout_rejects_invalid_pattern_witness :
  exists msg w',
    ProfileScoutAgent_execute (Demo.oracles Demo.offline) "query_3f2a9c1e"
      (Some {| req_skills := [ {| skill_name := "React"; weight := 0.8%Q |};
                               {| skill_name := "C++"; weight := 0.8%Q |} ];
               req_constraints := []; intent := "technical_hire";
               summary := "React and C++" |})
      "React and C++" (Demo.world (Demo.store [Demo.ada; Demo.bo]))
    = (Throw (SyntaxError msg), w').
Proof.
  destruct (scout_rejects_invalid_pattern (Demo.oracles Demo.offline)
              "query_3f2a9c1e"
              (Some {| req_skills :=
                         [ {| skill_name := "React"; weight := 0.8%Q |};
                           {| skill_name := "C++"; weight := 0.8%Q |} ];
                       req_constraints := []; intent := "technical_hire";
                       summary := "React and C++" |})
              "React and C++" (Demo.world (Demo.store [Demo.ada; Demo.bo]))
              (StoreUp_demo Demo.offline) (NoVectorResults_offline _))
    as (msg & w' & Hrun & _).
  - exists "C++". split; [right; now left | reflexivity].
  - now exists msg, w'.
Defined.

(** ** The Recommender without its provider *)

Section RankerEdges.

Context {E : Type}.
Variable O : Oracles E.

Lemma chat_without_key messages options (w : World E) :
  JS.truthyOpt (FIREWORKS_API_KEY O) = false ->
  chat O messages options w = (Throw (Error "FIREWORKS_API_KEY not set"), w).
Proof. intros Hkey. unfold chat. now rewrite Hkey. Qed.

(** X11. With the store answering, the Recommender returns the empty
    ranking for no candidate, whatever the state of the completion provider;
    and without the completion credential it fails with
    "FIREWORKS_API_KEY not set" as soon as there is one candidate. *)
Theorem ranking_without_completion_provider (qid : string)
  (candidates : list Expert) (rawQuery : string)
  (requirements : option Requirements) (w : World E) :
  StoreUp O ->
  (exists w',
      RecommenderAgent_execute O qid [] rawQuery requirements w
      = (Return [], w'))
  /\ (JS.truthyOpt (FIREWORKS_API_KEY O) = false ->
      candidates <> [] ->
      exists w',
        RecommenderAgent_execute O qid candidates rawQuery requirements w
        = (Throw (Error "FIREWORKS_API_KEY not set"), w')).
Proof.
  intros Hup.
  destruct (log_returns O recommender qid "Ranking and explaining matches..."
              None w Hup) as (w1 & H1).
  split.
  - unfold RecommenderAgent_execute. rewrite (bind_Return _ _ _ _ _ H1).
    cbn [firstn rankLoop]. unfold bind at 1, ret at 1. cbv zeta.
    cbn [sort length topName].
    match goal with
    | |- context [log O recommender qid ?msg None] =>
        destruct (log_returns O recommender qid msg None w1 Hup) as (w2 & H2)
    end.
    rewrite (bind_Return _ _ _ _ _ H2). now exists w2.
  - intros Hkey Hne. destruct candidates as [|e rest]; [congruence|].
    unfold RecommenderAgent_execute. rewrite (bind_Return _ _ _ _ _ H1).
    cbn [firstn rankLoop]. cbv zeta.
    unfold generateExplanation.
    unfold bind. rewrite (chat_without_key _ _ w1 Hkey). now exists w1.
Qed.

End RankerEdges.

Lemma ranking_without_completion_provider_witness :
  (exists w',
      RecommenderAgent_execute (Demo.oracles Demo.offline) "query_3f2a9c1e"
        [] "React developer" (Some Demo.reactRequirements)
        (Demo.world (Demo.store [Demo.ada; Demo.bo]))
      = (Return [], w'))
  /\ exists w',
       RecommenderAgent_execute (Demo.oracles Demo.offline) "query_3f2a9c1e"
         [Demo.ada] "React developer" (Some Demo.reactRequirements)
         (Demo.world (Demo.store [Demo.ada; Demo.bo]))
       = (Throw (Error "FIREWORKS_API_KEY not set"), w').
Proof.
  destruct (ranking_without_completion_provider (Demo.oracles Demo.offline)
              "query_3f2a9c1e" [Demo.ada] "React developer"
              (Some Demo.reactRequirements)
              (Demo.world (Demo.store [Demo.ada; Demo.bo]))
              (StoreUp_demo Demo.offline)) as (Hnone & Hsome).
  split; [exact Hnone|]. apply Hsome; [reflexivity | discriminate].
Defined.

(** ** The Verifier *)

Lemma computeMatchScore_verify {E : Type} (O : Oracles E) (e : Expert)
  (requirements : option Requirements) :
  computeMatchScore O (verify e) requirements
  = computeMatchScore O e requirements.
Proof. reflexivity. Qed.

Section VerifierFacts.

Context {E : Type}.
Variable O : Oracles E.

(** X12. The Verifier never drops, adds or reorders a candidate: what it
    returns has the identifiers, names, skills, availability, renown and
    similarity scores of its input, in the same order, every candidate
    marked [verified], available or not; the score of a candidate is the
    same after verification as before.  It returns whenever the store
    answers. *)
Theorem verifier_keeps_every_candidate (qid : string)
  (candidates : list Expert) (w : World E) :
  (forall vs w',
     VerifierAgent_execute O qid candidates w = (Return vs, w') ->
     length vs = length candidates
     /\ map _id vs = map _id candidates
     /\ map name vs = map name candidates
     /\ map skills vs = map skills candidates
     /\ map availability vs = map availability candidates
     /\ map renownLevel vs = map renownLevel candidates
     /\ map vectorSearchScore vs = map vectorSearchScore candidates
     /\ Forall (fun v => verified v = Some true) vs
     /\ forall requirements,
          map (fun v => computeMatchScore O v requirements) vs
          = map (fun c => computeMatchScore O c requirements) candidates)
  /\ (StoreUp O ->
      exists vs w', VerifierAgent_execute O qid candidates w = (Return vs, w')).
Proof.
  split.
  - intros vs w' H. unfold VerifierAgent_execute in H. cbv zeta in H.
    apply bind_Return_inv in H. destruct H as ([] & w1 & _ & H).
    apply bind_Return_inv in H. destruct H as ([] & w2 & _ & H).
    injection H as <- _.
    rewrite length_map, !map_map. cbn [verify _id name skills availability
      renownLevel vectorSearchScore].
    repeat split.
    + apply Forall_forall. intros v Hv. apply in_map_iff in Hv.
      now destruct Hv as (c & <- & _).
    + intros requirements. rewrite map_map. apply map_ext. intros c.
      apply computeMatchScore_verify.
  - intros Hup. unfold VerifierAgent_execute. cbv zeta.
    match goal with
    | |- context [bind (log O verifier qid ?msg None)] =>
        destruct (log_returns O verifier qid msg None w Hup) as (w1 & H1)
    end.
    rewrite (bind_Return _ _ _ _ _ H1).
    match goal with
    | |- context [bind (log O verifier qid ?msg None)] =>
        destruct (log_returns O verifier qid msg None w1 Hup) as (w2 & H2)
    end.
    rewrite (bind_Return _ _ _ _ _ H2). now eexists _, _.
Qed.

End VerifierFacts.

Lemma verifier_keeps_every_candidate_witness :
  exists vs w',
    VerifierAgent_execute (Demo.oracles Demo.offline) "query_3f2a9c1e"
      [Demo.ada; Demo.bo] (Demo.world (Demo.store [Demo.ada; Demo.bo]))
    = (Return vs, w')
    /\ map name vs = ["Ada"; "Bo"]
    /\ Forall (fun v => verified v = Some true) vs.
Proof.
  destruct (verifier_keeps_every_candidate (Demo.oracles Demo.offline)
              "query_3f2a9c1e" [Demo.ada; Demo.bo]
              (Demo.world (Demo.store [Demo.ada; Demo.bo])))
    as (Hinv & Hret).
  destruct (Hret (StoreUp_demo Demo.offline)) as (vs & w' & Hrun).
  exists vs, w'. split; [exact Hrun|].
  destruct (Hinv vs w' Hrun) as (_ & _ & Hn & _ & _ & _ & _ & Hv & _).
  split; [exact Hn | exact Hv].
Defined.

(** ** The extremes of the skill score *)

Lemma skillLoop_extremes {E : Type} (O : Oracles E) (e : Expert)
  (l : list Skill) (t m : Q) :
  (forall s, In s l -> 0 < weight s)%Q ->
  let '(t', m') :=
    fold_left
      (fun '(total, matched) req =>
         (total + weight req,
          if JS.includes
               (map (fun s => JS.toLowerCase (unicode O) (es_name s)) (skills e))
               (JS.toLowerCase (unicode O) (skill_name req))
          then matched + weight req
          else matched)%Q)
      l (t, m) in
  (m <= m' /\ t - m <= t' - m' /\ t <= t'
   /\ (l <> [] -> t < t')
   /\ (t' - m' == t - m <-> forallb (holdsSkill O e) l = true)
   /\ (m' == m <-> existsb (holdsSkill O e) l = false))%Q.
Proof.
  revert t m. induction l as [|s l IH]; intros t m Hw; simpl.
  - repeat split; try lra; try congruence; intros; reflexivity.
  - assert (Hs : (0 < weight s)%Q) by (apply Hw; now left).
    fold (holdsSkill O e s).
    specialize (IH (t + weight s)%Q
      (if holdsSkill O e s then (m + weight s)%Q else m)
      (fun s' H => Hw s' (or_intror H))).
    destruct (fold_left _ l _) as [t' m'].
    destruct IH as (H1 & H2 & H3 & _ & H5 & H6).
    destruct (holdsSkill O e s) eqn:Hh; cbn [andb orb];
      repeat split; try lra; try discriminate; intros H; try lra;
      try (apply H5; lra); try (apply H5 in H; lra);
      try (apply H6; lra); try (apply H6 in H; lra).
Qed.

(** X13. For requirements with at least one skill and weights in (0,1], the
    skill score is 1 when the expert holds every required skill, and 0 when
    the expert holds none of them; holding a skill is having a skill whose
    name is the required name once both are lower-cased. *)
Theorem skillMatch_extremes {E : Type} (O : Oracles E) (e : Expert)
  (r : Requirements) :
  req_skills r <> [] ->
  (forall s, In s (req_skills r) -> 0 < weight s /\ weight s <= 1)%Q ->
  (forallb (holdsSkill O e) (req_skills r) = true ->
   calculateSkillMatch O e (Some r) == 1)%Q
  /\ (existsb (holdsSkill O e) (req_skills r) = false ->
      calculateSkillMatch O e (Some r) == 0)%Q.
Proof.
  intros Hne Hw. unfold calculateSkillMatch.
  destruct (length (req_skills r) =? 0)%nat eqn:Hlen.
  { apply Nat.eqb_eq, length_zero_iff_nil in Hlen. congruence. }
  pose proof (skillLoop_extremes O e (req_skills r) 0 0
                (fun s Hs => proj1 (Hw s Hs))) as H.
  destruct (fold_left _ _ _) as [t m].
  destruct H as (H1 & H2 & H3 & H4 & H5 & H6).
  specialize (H4 Hne).
  assert (Ht : Qlt_bool 0 t = true) by now apply Qlt_bool_iff.
  rewrite Ht.
  assert (Hdiv : forall c : Q, (m == c * t -> m / t == c)%Q).
  { intros c H. rewrite H. field. lra. }
  split; intros Hheld; apply Hdiv.
  - apply H5 in Hheld. lra.
  - apply H6 in Hheld. lra.
Qed.

Lemma skillMatch_extremes_witness :
  let O := Demo.oracles Demo.offline in
  (calculateSkillMatch O Demo.ada (Some Demo.reactRequirements) == 1)%Q
  /\ (calculateSkillMatch O Demo.bo (Some Demo.reactRequirements) == 0)%Q.
Proof.
  intros O.
  assert (Hne : req_skills Demo.reactRequirements <> []) by discriminate.
  assert (Hw : forall s, In s (req_skills Demo.reactRequirements) ->
                         (0 < weight s /\ weight s <= 1)%Q).
  { intros s [<- | []]. split; [reflexivity | discriminate]. }
  destruct (skillMatch_extremes O Demo.ada Demo.reactRequirements Hne Hw)
    as (Hall & _).
  destruct (skillMatch_extremes O Demo.bo Demo.reactRequirements Hne Hw)
    as (_ & Hnone).
  split; [apply Hall | apply Hnone]; reflexivity.
Defined.

(** ** One entry of the trail *)

Lemma find_updateFirst_none {A : Type} (p : A -> bool) (f : A -> A) (l : list A) :
  find p l = None -> updateFirst p f l = l.
Proof.
  induction l as [|x l IH]; simpl; [reflexivity|].
  destruct (p x); [discriminate|]. intros H. now rewrite IH.
Qed.

Section LogFacts.

Context {E : Type}.
Variable O : Oracles E.

Lemma log_effect (a : AgentType) (qid msg : string)
  (payload : option Requirements) (w : World E) :
  StoreUp O ->
  exists t w',
    log O a qid msg payload w = (Return tt, w')
    /\ db w'
       = with_queries (db w)
           (updateFirst (hasQueryId qid)
              (fun q => pushConversation q
                 {| agent := a; message := msg; data := payload;
                    timestamp := t |})
              (queries (db w))).
Proof.
  intros Hup.
  cbv beta delta [log bind getDb writeDb storeCall newDate liftExt].
  pose proof (Hup (ext w)) as H1.
  destruct (store_fault O (ext w)) as [f1 e1]. cbn [fst] in H1. subst f1.
  cbn [db ext]. destruct (Date_now O e1) as [t e2]. cbn [db ext].
  pose proof (Hup e2) as H3.
  destruct (store_fault O e2) as [f3 e3]. cbn [fst] in H3. subst f3.
  cbn [db ext]. now eexists _, _.
Qed.

Lemma log_Logged (a : AgentType) (qid msg : string)
  (payload : option Requirements) (w : World E) :
  StoreUp O ->
  exists t w',
    log O a qid msg payload w = (Return tt, w')
    /\ Logged qid [ {| agent := a; message := msg; data := payload;
                       timestamp := t |} ] (db w) (db w').
Proof.
  intros Hup. destruct (log_effect a qid msg payload w Hup) as (t & w' & H & Hdb).
  exists t, w'. split; [exact H|]. rewrite Hdb. repeat split.
Qed.

(** X16. [BaseAgent.log]: a rejected call on the store makes it reject and
    leaves the store as it was.  When the store answers, it returns, and
    the first query record carrying the identifier gets one entry behind
    its conversation, with the agent, message, data and time of the call;
    every other record, the experts, the tasks and both caches are as they
    were, no record is created, and when no record carries the identifier
    the store is as it was. *)
Theorem log_appends_to_first_record (a : AgentType) (qid msg : string)
  (payload : option Requirements) (w : World E) :
  (forall x w',
     log O a qid msg payload w = (Throw x, w') -> db w' = db w)
  /\ (StoreUp O ->
      exists t w',
        log O a qid msg payload w = (Return tt, w')
        /\ let entry := {| agent := a; message := msg; data := payload;
                           timestamp := t |} in
           (forall q,
              find (hasQueryId qid) (queries (db w)) = Some q ->
              find (hasQueryId qid) (queries (db w'))
              = Some (pushConversation q entry))
           /\ (find (hasQueryId qid) (queries (db w)) = None -> db w' = db w)
           /\ otherQueries qid (queries (db w'))
              = otherQueries qid (queries (db w))
           /\ length (queries (db w')) = length (queries (db w))
           /\ experts (db w') = experts (db w)
           /\ agent_tasks (db w') = agent_tasks (db w)
           /\ cache_embeddings (db w') = cache_embeddings (db w)
           /\ cache_search_results (db w') = cache_search_results (db w)).
Proof.
  split.
  - intros x w'.
    cbv beta delta [log bind getDb writeDb storeCall newDate liftExt].
    destruct (store_fault O (ext w)) as [[x1|] e1]; cbn [db ext].
    + now intros [= _ <-].
    + destruct (Date_now O e1) as [t e2]. cbn [db ext].
      destruct (store_fault O e2) as [[x2|] e3]; cbn [db ext].
      * now intros [= _ <-].
      * discriminate.
  - intros Hup. destruct (log_effect a qid msg payload w Hup) as (t & w' & H & Hdb).
    exists t, w'. split; [exact H|]. cbv zeta. rewrite Hdb.
    cbn [queries experts agent_tasks cache_embeddings cache_search_results
         with_queries].
    repeat split.
    + intros q Hq.
      refine (find_updateFirst _ (fun q0 => pushConversation q0 _) _ _ Hq _).
      apply (find_some _ _ Hq).
    + intros Hnone. now rewrite (find_updateFirst_none _ _ _ Hnone), with_queries_same.
    + unfold otherQueries. apply filter_others_updateFirst. reflexivity.
    + apply updateFirst_length.
Qed.

(** ** The Analyst *)

(** X17. When the store answers, the Analyst returns requirements whatever
    the completion provider does, and puts exactly two entries behind the
    conversation of the query record: the announcement, then the summary
    carrying the requirements it returns; the embedding cache is as it was.
    Without the completion credential the requirements are the heuristic
    ones. *)
Theorem analyst_survives_provider_failure (qid rawQuery : string)
  (w : World E) :
  StoreUp O ->
  exists requirements w' t1 t2,
    QueryAnalystAgent_execute O qid rawQuery w = (Return requirements, w')
    /\ Logged qid
         [ {| agent := analyst; message := "Analyzing query requirements...";
              data := None; timestamp := t1 |};
           {| agent := analyst;
              message :=
                "Extracted "
                ++ JS.natToString (length (req_skills requirements))
                ++ " skills, "
                ++ JS.natToString (length (req_constraints requirements))
                ++ " constraints";
              data := Some requirements; timestamp := t2 |} ]
         (db w) (db w')
    /\ cache_embeddings (db w') = cache_embeddings (db w)
    /\ (JS.truthyOpt (FIREWORKS_API_KEY O) = false ->
        requirements = defaultResult O rawQuery).
Proof.
  intros Hup. unfold QueryAnalystAgent_execute.
  destruct (log_effect analyst qid "Analyzing query requirements..." None w Hup)
    as (t1 & w1 & H1 & Hdb1).
  rewrite (bind_Return _ _ _ _ _ H1).
  pose proof (parseQuery_cases O rawQuery w1) as Hcases.
  assert (Hparse : exists requirements w2,
             parseQuery O rawQuery w1 = (Return requirements, w2)
             /\ db w2 = db w1
             /\ (JS.truthyOpt (FIREWORKS_API_KEY O) = false ->
                 requirements = defaultResult O rawQuery)).
  { pose proof (Respects_parseQuery O eq (fun d => eq_refl)
                  (fun d1 d2 d3 => @eq_trans _ d1 d2 d3) rawQuery w1) as Hdb.
    rewrite Hcases in *.
    destruct (parseQuery_chat O rawQuery w1) as [[response|x] w2] eqn:Hchat.
    - assert (Hkey : JS.truthyOpt (FIREWORKS_API_KEY O) = true).
      { unfold parseQuery_chat, chat in Hchat.
        destruct (JS.truthyOpt (FIREWORKS_API_KEY O)); [reflexivity|].
        discriminate. }
      destruct (JSON_parse O response); eexists _, _;
        (split; [reflexivity|]); (split; [now symmetry|]); congruence.
    - eexists _, _. split; [reflexivity|]. split; [now symmetry|].
      reflexivity. }
  destruct Hparse as (requirements & w2 & H2 & Hdb2 & Hdefault).
  rewrite (bind_Return _ _ _ _ _ H2).
  match goal with
  | |- context [log O analyst qid ?msg (Some requirements)] =>
      destruct (log_effect analyst qid msg (Some requirements) w2 Hup)
        as (t2 & w3 & H3 & Hdb3)
  end.
  rewrite (bind_Return _ _ _ _ _ H3).
  exists requirements, w3, t1, t2. split; [reflexivity|].
  split; [|split; [|exact Hdefault]].
  - rewrite Hdb3, Hdb2, Hdb1. repeat split.
    cbn [queries with_queries]. rewrite updateFirst_twice by reflexivity.
    apply updateFirst_ext. intros q.
    unfold appendConversation, pushConversation. cbn.
    now rewrite <- app_assoc.
  - rewrite Hdb3, Hdb2, Hdb1. reflexivity.
Qed.

End LogFacts.

Lemma log_appends_to_first_record_witness :
  let O := Demo.oracles Demo.offline in
  let w := snd (createRecords O Demo.agent1 "React developer"
                  (Demo.world (Demo.store [Demo.ada; Demo.bo]))) in
  exists w',
    log O scout "query_3f2a9c1e" "Searching expert database..." None w
    = (Return tt, w')
    /\ option_map (fun q => map message (agentConversation q))
         (find (hasQueryId "query_3f2a9c1e") (queries (db w')))
       = Some ["Searching expert database..."].
Proof.
  intros O w.
  destruct (proj2 (log_appends_to_first_record O scout "query_3f2a9c1e"
                     "Searching expert database..." None w)
              (StoreUp_demo Demo.offline))
    as (t & w' & Hrun & Hfind & _).
  exists w'. split; [exact Hrun|].
  rewrite (Hfind (newQuery Demo.agent1 "React developer" 0%Z) eq_refl).
  reflexivity.
Defined.

Lemma analyst_survives_provider_failure_witness :
  exists w',
    QueryAnalystAgent_execute (Demo.oracles Demo.offline) "query_3f2a9c1e"
      "Find a Kubernetes expert" (Demo.world (Demo.store [Demo.ada; Demo.bo]))
    = (Return (defaultResult (Demo.oracles Demo.offline)
                 "Find a Kubernetes expert"), w').
Proof.
  destruct (analyst_survives_provider_failure (Demo.oracles Demo.offline)
              "query_3f2a9c1e" "Find a Kubernetes expert"
              (Demo.world (Demo.store [Demo.ada; Demo.bo]))
              (StoreUp_demo Demo.offline))
    as (requirements & w' & t1 & t2 & Hrun & _ & _ & Hdefault).
  exists w'. now rewrite <- (Hdefault eq_refl).
Defined.

(** ** How the score follows its parts *)

(** X14. The score never decreases with its parts: a candidate with no
    lower skill score, no lower renown score, and available whenever the
    other is, has no lower score. *)
Theorem matchScore_follows_its_parts {E : Type} (O : Oracles E)
  (e1 e2 : Expert) (requirements : option Requirements) :
  (calculateSkillMatch O e1 requirements
   <= calculateSkillMatch O e2 requirements)%Q ->
  (calculateRenownMatch O e1 requirements
   <= calculateRenownMatch O e2 requirements)%Q ->
  (isAvailable e1 = true -> isAvailable e2 = true) ->
  (computeMatchScore O e1 requirements <= computeMatchScore O e2 requirements)%Q.
Proof.
  intros Hs Hr Ha. unfold computeMatchScore. cbv zeta.
  apply Q.min_le_compat_l.
  destruct (isAvailable e1); [rewrite (Ha eq_refl)|destruct (isAvailable e2)];
    lra.
Qed.

(** X15. Without a renown constraint, and with skill weights in (0,1], the
    score lies between 0.15 and 0.95: the cap at 1 is never reached. *)
Theorem matchScore_without_renown_constraint {E : Type} (O : Oracles E)
  (e : Expert) (requirements : option Requirements) :
  renownConstraint requirements = None ->
  (forall r s, requirements = Some r -> In s (req_skills r) ->
               0 < weight s /\ weight s <= 1)%Q ->
  (0.15 <= computeMatchScore O e requirements
   /\ computeMatchScore O e requirements <= 0.95)%Q.
Proof.
  intros Hnone Hw. unfold computeMatchScore. cbv zeta.
  pose proof (calculateSkillMatch_bounds O e requirements
                (fun r s Hr Hs => proj1 (Hw r s Hr Hs))) as (H0 & H1).
  unfold calculateRenownMatch. rewrite Hnone.
  assert (Hsum : (0.15 <= calculateSkillMatch O e requirements * 0.7 + 0.5 * 0.3
                          + (if isAvailable e then 0.1 else 0) <= 0.95)%Q)
    by (destruct (isAvailable e); lra).
  rewrite Q.min_r by lra. exact Hsum.
Qed.

Lemma matchScore_follows_its_parts_witness :
  let O := Demo.oracles Demo.offline in
  (computeMatchScore O Demo.bo (Some Demo.reactRequirements)
   <= computeMatchScore O Demo.ada (Some Demo.reactRequirements))%Q.
Proof.
  intros O. apply matchScore_follows_its_parts.
  - vm_compute. discriminate.
  - vm_compute. discriminate.
  - discriminate.
Defined.

Lemma matchScore_without_renown_constraint_witness :
  let O := Demo.oracles Demo.offline in
  (0.15 <= computeMatchScore O Demo.bo (Some Demo.reactRequirements)
   /\ computeMatchScore O Demo.ada (Some Demo.reactRequirements) <= 0.95)%Q.
Proof.
  intros O.
  assert (Hw : forall r s, Some Demo.reactRequirements = Some r ->
                 In s (req_skills r) -> (0 < weight s /\ weight s <= 1)%Q).
  { intros r s [= <-] [<- | []]. split; [reflexivity | discriminate]. }
  split.
  - exact (proj1 (matchScore_without_renown_constraint O Demo.bo
                    (Some Demo.reactRequirements) eq_refl Hw)).
  - exact (proj2 (matchScore_without_renown_constraint O Demo.ada
                    (Some Demo.reactRequirements) eq_refl Hw)).
Defined.

(** ** The search endpoint *)

Section RouteFacts.

Context {E : Type}.
Variable O : Oracles E.

Lemma processQuery_experts (self : OrchestratorAgent) (rawQuery : string)
  (w : World E) :
  experts (db (snd (processQuery O self rawQuery w))) = experts (db w).
Proof.
  apply (Respects_processQuery O (fun d d' => experts d' = experts d)
           self rawQuery); try reflexivity; try congruence.
Qed.

Lemma OrchestratorAgent_new_returns (w : World E) :
  exists self w1,
    OrchestratorAgent_new O w = (Return self, w1)
    /\ db w1 = db w.
Proof.
  cbv beta delta [OrchestratorAgent_new bind liftExt ret].
  destruct (uuidv4 O (ext w)) as [u1 e1]. cbn [db ext].
  destruct (uuidv4 O e1) as [u2 e2]. cbn [db ext].
  eexists _, _. split; reflexivity.
Qed.

(** X18. The handler of [POST /api/search] never rejects and never touches
    the experts.  It answers 400 "Query is required", with nothing drawn and
    nothing written, when the body is a value whose [query] is missing, not
    a string, or the empty string; 500 "Search failed" with the error as
    text, and nothing drawn or written, when the body cannot be read, and
    with a [TypeError] as text when the body is [null]; and for any other
    query it creates one orchestrator and answers 200 with the result of
    [processQuery], or 500 "Search failed" with its error as text. *)
Theorem POST_always_answers (json : Completion RequestBody) (w : World E) :
  exists res w',
    POST O json w = (Return res, w')
    /\ experts (db w') = experts (db w)
    /\ match json with
       | Throw x => res = searchFailed x /\ w' = w
       | Return NullBody =>
           (exists msg, res = searchFailed (TypeError msg)) /\ w' = w
       | Return (ValueBody (Text s)) =>
           if JS.truthy s then
             exists self w1,
               OrchestratorAgent_new O w = (Return self, w1)
               /\ db w1 = db w
               /\ match processQuery O self s w1 with
                  | (Return result, w2) =>
                      res = {| nr_body := Success result; nr_status := 200 |}
                      /\ w' = w2
                  | (Throw x, w2) => res = searchFailed x /\ w' = w2
                  end
           else res = queryRequired /\ w' = w
       | Return (ValueBody _) => res = queryRequired /\ w' = w
       end.
Proof.
  cbv beta iota zeta delta [POST try_catch bind lift ret destructureQuery].
  destruct json as [[|[|s|]]|x]; cbv beta iota;
    try (eexists _, _; repeat split; fail).
  { eexists _, _. repeat split. eexists. reflexivity. }
  destruct (JS.truthy s) eqn:Hs; cbn [negb]; cbv beta iota;
    [|eexists _, _; repeat split].
  destruct (OrchestratorAgent_new_returns w) as (self & w1 & Hnew & Hdb).
  rewrite Hnew.
  pose proof (processQuery_experts self s w1) as Hexp.
  destruct (processQuery O self s w1) as [[result|x] w2] eqn:Hrun;
    cbn [snd] in Hexp;
    (eexists _, _; split; [reflexivity|]; split; [congruence|]);
    exists self, w1; rewrite Hrun; repeat split; assumption.
Qed.

End RouteFacts.
